(** * fsconsul: the watch-reconcile engine

    A shallow embedding of [watchAndExec], [watchMappingAndExec], [watch] and
    [retryableList] (package [main]), with the external collaborators (the
    Consul client, the filesystem, gosecret, text/template, os/exec) taken as
    section variables, and the effects of the Go code recorded as event
    traces over an explicit world. *)

From Stdlib Require Import ZArith Ascii String.
From stdpp Require Import base strings list gmap.

Local Open Scope string_scope.
Local Open Scope list_scope.

(** ** Go strings as byte strings *)

(** The byte 34, the double quote of the Windows quoting artifact. *)
Definition quote : ascii := ascii_of_nat 34.

Module strings.

(** [strings.HasPrefix]. *)
Fixpoint HasPrefix (s pre : string) : bool :=
  match pre, s with
  | EmptyString, _ => true
  | String p pre', String c s' => if decide (p = c) then HasPrefix s' pre' else false
  | String _ _, EmptyString => false
  end.

(** [s[n:]]. *)
Fixpoint drop (n : nat) (s : string) : string :=
  match n, s with
  | O, _ => s
  | S n', String _ s' => drop n' s'
  | S _, EmptyString => EmptyString
  end.

(** [strings.TrimPrefix]. *)
Definition TrimPrefix (s pre : string) : string :=
  if HasPrefix s pre then drop (String.length pre) s else s.

Fixpoint contains (cutset : string) (c : ascii) : bool :=
  match cutset with
  | EmptyString => false
  | String d cutset' => if decide (d = c) then true else contains cutset' c
  end.

(** [strings.TrimLeft]: drops every leading byte that is in [cutset]. *)
Fixpoint TrimLeft (s cutset : string) : string :=
  match s with
  | EmptyString => EmptyString
  | String c s' => if contains cutset c then TrimLeft s' cutset else s
  end.

(** [strings.Replace(s, old, new, -1)] for one-byte [old] and [new], the
    only shape the program uses. *)
Fixpoint Replace (s : string) (old new : ascii) : string :=
  match s with
  | EmptyString => EmptyString
  | String c s' => String (if decide (c = old) then new else c) (Replace s' old new)
  end.

(** [strings.LastIndex(s, sep)] for a one-byte [sep]; -1 when absent. *)
Fixpoint LastIndex (s : string) (sep : ascii) : Z :=
  match s with
  | EmptyString => -1
  | String c s' =>
      let r := LastIndex s' sep in
      if (0 <=? r)%Z then (r + 1)%Z
      else if decide (c = sep) then 0%Z else (-1)%Z
  end.

(** [strings.Split(s, sep)] for a one-byte [sep]: never the empty list. *)
Fixpoint Split (s : string) (sep : ascii) : list string :=
  match s with
  | EmptyString => [EmptyString]
  | String c s' =>
      if decide (c = sep) then EmptyString :: Split s' sep
      else match Split s' sep with
           | [] => [String c EmptyString]
           | w :: ws => String c w :: ws
           end
  end.

End strings.

(** [s[0]]: [None] is the index-out-of-range panic. *)
Definition first_byte (s : string) : option ascii :=
  match s with
  | EmptyString => None
  | String c _ => Some c
  end.

(** [s[len(s)-1]]: [None] is the index-out-of-range panic. *)
Fixpoint last_byte (s : string) : option ascii :=
  match s with
  | EmptyString => None
  | String c EmptyString => Some c
  | String _ s' => last_byte s'
  end.

(** [s[:len(s)-1]] (the caller has already indexed [s[len(s)-1]]). *)
Fixpoint drop_last (s : string) : string :=
  match s with
  | EmptyString => EmptyString
  | String _ EmptyString => EmptyString
  | String c s' => String c (drop_last s')
  end.

(** [s[:i]]: [None] is the slice-bounds panic. *)
Definition slice_to (s : string) (i : Z) : option string :=
  if decide (0 ≤ i ≤ Z.of_nat (String.length s))%Z
  then Some (substring 0 (Z.to_nat i) s)
  else None.

(** ** Configuration ([ConsulConfig], [MappingConfig], [WatchConfig]) *)

Definition error := string.

Record ConsulConfig := {
  Addr : string;
  DC : string;
  Token : string;
  KeyFile : string;
  CertFile : string;
  CAFile : string;
  UseTLS : bool
}.

(** [OnChange] is a slice: [None] is the nil slice. *)
Record MappingConfig := {
  OnChange : option (list string);
  OnChangeRaw : string;
  Prefix : string;
  Path : string;
  Keystore : string
}.

Record WatchConfig := {
  RunOnce : bool;
  Consul : ConsulConfig;
  Mappings : list MappingConfig
}.

Definition applyDefaults (config : WatchConfig) : WatchConfig :=
  if decide (Addr (Consul config) = "")
  then {| RunOnce := RunOnce config;
          Consul := {| Addr := "127.0.0.1:8500"; DC := DC (Consul config);
                       Token := Token (Consul config);
                       KeyFile := KeyFile (Consul config);
                       CertFile := CertFile (Consul config);
                       CAFile := CAFile (Consul config);
                       UseTLS := UseTLS (Consul config) |};
          Mappings := Mappings config |}
  else config.

(** ** The store's answers *)

Record KVPair := { Key : string; Value : string }.

Record QueryMeta := { LastIndex : Z }.

(** What [client.KV().List] returns: the pairs and the metadata, or the
    error (the client returns nil pairs and nil metadata with it). *)
Inductive ListResult :=
| ListOk (pairs : list KVPair) (meta : QueryMeta)
| ListErr (e : error).

(** ** Unbounded [for] loops *)

Inductive LoopStep (S R : Type) :=
| Continue (s : S)
| Return (r : R).
Arguments Continue {S R} s.
Arguments Return {S R} r.

(** [for { body }] run for at most [fuel] iterations: [Return r] when the
    body returned [r], [Continue s] when the fuel ran out in state [s]. *)
Fixpoint for_loop {S R : Type} (fuel : nat) (body : S → LoopStep S R) (s : S) : LoopStep S R :=
  match fuel with
  | O => Continue s
  | Datatypes.S n =>
      match body s with
      | Continue s' => for_loop n body s'
      | Return r => Return r
      end
  end.

(** ** The Retry Policy ([retryableList]) *)

Section Retry.

(** The state the wrapped call and [time.Sleep] act on. A call that never
    returns (a long poll with no answer) gives no result. *)
Context {St : Type}.
Variable f : St → option ListResult * St.
Variable Sleep : Z → St → St.

(** One pass through the body of the [for] of [retryableList], from the
    counter [i]. The result [None] stands for a call that never returns. *)
Definition retryableList_body (s : Z * St) : LoopStep (Z * St) (option ListResult * St) :=
  let '(i, st) := s in
  match f st with
  | (None, st1) => Return (None, st1)
  | (Some (ListErr e), st1) =>
      if (3 <=? i)%Z then Return (Some (ListErr e), st1)
      else
        let i := (i + 1)%Z in
        let st2 := Sleep (i * 2)%Z st1 in
        Return (Some (ListErr e), st2)
  | (Some (ListOk p m), st1) => Return (Some (ListOk p m), st1)
  end.

Definition retryableList (fuel : nat) (st : St)
  : LoopStep (Z * St) (option ListResult * St) :=
  for_loop fuel retryableList_body (0%Z, st).

End Retry.

(** ** The Change Watcher ([watch]) *)

(** What the watcher goroutine does, in order. *)
Inductive WEvent :=
| WMkdirp (path : string)
| WList (prefix : string) (waitIndex : Z) (token : string)
| WSleep (seconds : Z)
| WSendErr (e : error)
| WSendPairs (pairs : list KVPair)
| WLog (msg : string).

(** The store as the watcher sees it: the answers its successive [List]
    calls will get, and the trace so far. With no answer left a call never
    returns. *)
Record Watcher := {
  answers : list ListResult;
  wtrace : list WEvent
}.

Definition wemit (e : WEvent) (w : Watcher) : Watcher :=
  {| answers := answers w; wtrace := wtrace w ++ [e] |}.

(** [client.KV().List(prefix, opts)]. *)
Definition KV_List (prefix : string) (waitIndex : Z) (token : string) (w : Watcher)
  : option ListResult * Watcher :=
  let w := wemit (WList prefix waitIndex token) w in
  match answers w with
  | [] => (None, w)
  | r :: rest => (Some r, {| answers := rest; wtrace := wtrace w |})
  end.

Definition time_Sleep (seconds : Z) (w : Watcher) : Watcher := wemit (WSleep seconds) w.

Inductive WStatus :=
| WReturned
| WBlocked
| WOutOfFuel.

Section Watch.

(** Whether the non-blocking receive on [quitCh] at the top of the [n]-th
    iteration finds the channel closed. *)
Variable quit_seen : nat → bool.

Variables prefix path token : string.

(** The body of the main loop, from the iteration number and [curIndex].
    A send on [pairCh] is taken to be received. *)
Definition watch_body (fuel : nat) (s : nat * Z * Watcher)
  : LoopStep (nat * Z * Watcher) (WStatus * Watcher) :=
  let '(n, curIndex, w) := s in
  if quit_seen n then Return (WReturned, w)
  else
    match retryableList (KV_List prefix curIndex token) time_Sleep fuel w with
    | Continue (_, w) => Return (WOutOfFuel, w)
    | Return (None, w) => Return (WBlocked, w)
    | Return (Some (ListErr _), w) =>
        Continue (S n, curIndex, wemit (WLog "Error communicating with consul agent.") w)
    | Return (Some (ListOk pairs meta), w) =>
        let w := wemit (WSendPairs pairs) w in
        let w := wemit (WLog "Potential index update observed") w in
        Continue (S n, LastIndex meta, w)
    end.

Definition watch (fuel : nat) (w : Watcher) : WStatus * Watcher :=
  let w := wemit (WMkdirp path) w in
  match KV_List prefix 0 token w with
  | (None, w) => (WBlocked, w)
  | (Some (ListErr e), w) => (WReturned, wemit (WSendErr e) w)
  | (Some (ListOk pairs meta), w) =>
      let w := wemit (WSendPairs pairs) w in
      match for_loop fuel (watch_body fuel) (O, LastIndex meta, w) with
      | Return r => r
      | Continue (_, _, w) => (WOutOfFuel, w)
      end
  end.

End Watch.

(** What the Reconciler's [select] receives. *)
Inductive Delivery :=
| FromPairCh (pairs : list KVPair)
| FromErrCh (e : error).

Definition delivery_of (e : WEvent) : option Delivery :=
  match e with
  | WSendPairs pairs => Some (FromPairCh pairs)
  | WSendErr err => Some (FromErrCh err)
  | _ => None
  end.

Definition deliveries (tr : list WEvent) : list Delivery := omap delivery_of tr.

(** ** The Reconciler's world *)

Inductive result (A : Type) :=
| Ok (a : A)
| Err (e : error).
Arguments Ok {A} a.
Arguments Err {A} e.

Inductive GOOS :=
| Unix
| Windows.

(** [os.PathSeparator]. *)
Definition PathSeparator (goos : GOOS) : ascii :=
  match goos with
  | Unix => "/"%char
  | Windows => "\"%char
  end.

(** The calls into the operating system: [os.Remove], [mkdirp.Mk],
    [os.Create], [File.Write], [File.Sync], [File.Close] and [Cmd.Run]. *)
Inductive SysCall :=
| Remove (file : string)
| Mkdirp (dir : string)
| Create (file : string)
| Write (file bytes : string)
| Sync (file : string)
| Close (file : string)
| Run (argv : list string).

Inductive Stage :=
| DecryptTags
| ParseTemplate
| ExecuteTemplate.

Inductive Level :=
| DebugLevel
| ErrorLevel.

Abbreviation Env := (gmap string string).

(** What the Reconciler does, in order: system calls with the error they
    returned, calls into the Value Transform Pipeline, the assignment
    [env = newEnv], [close(quitCh)], and log lines. *)
Inductive Event :=
| EvSys (c : SysCall) (err : option error)
| EvTransform (stage : Stage) (input : string) (ok : bool)
| EvSetEnv (newEnv : Env)
| EvCloseQuit
| EvLog (lvl : Level) (msg : string).

Inductive Deferred :=
| DeferClose (file : string)
| DeferCloseQuit.

(** The files by path and content, the trace, the [defer] stack of
    [watchMappingAndExec] (latest first) and whether [quitCh] is closed. *)
Record World := {
  files : gmap string string;
  trace : list Event;
  deferred : list Deferred;
  quitClosed : bool
}.

Definition emit (e : Event) (w : World) : World :=
  {| files := files w; trace := trace w ++ [e];
     deferred := deferred w; quitClosed := quitClosed w |}.

Definition log (lvl : Level) (msg : string) (w : World) : World :=
  emit (EvLog lvl msg) w.

Definition defer (d : Deferred) (w : World) : World :=
  {| files := files w; trace := trace w;
     deferred := d :: deferred w; quitClosed := quitClosed w |}.

Definition set_files (fs : gmap string string) (w : World) : World :=
  {| files := fs; trace := trace w;
     deferred := deferred w; quitClosed := quitClosed w |}.

Inductive Outcome :=
| Returned (code : Z) (err : option error)
| Panicked (msg : string)
| Waiting.

(** The control flow of a loop body that may panic. *)
Inductive Flow :=
| Go (w : World)
| Panic (msg : string) (w : World).

(** [reflect.DeepEqual] on two [map[string]string]: both nil, or both
    non-nil with the same entries. [None] is the nil map. *)
Definition DeepEqual (a b : option Env) : bool :=
  match a, b with
  | None, None => true
  | Some x, Some y => bool_decide (x = y)
  | _, _ => false
  end.

(** The loop that fills [newEnv] from the pairs (a later pair overwrites an
    earlier one with the same relative key). *)
Definition add_pair (prefix : string) (s : Env * World) (pair : KVPair) : Env * World :=
  let '(newEnv, w) := s in
  let w := log DebugLevel "Key present in source" w in
  let k := strings.TrimPrefix (Key pair) prefix in
  let k := strings.TrimLeft k "/" in
  (<[k := Value pair]> newEnv, w).

Definition build_newEnv (prefix : string) (pairs : list KVPair) (w : World) : Env * World :=
  foldl (add_pair prefix) (∅, w) pairs.

Definition close_quitCh (w : World) : Flow :=
  if quitClosed w then Panic "close of closed channel" w
  else Go (emit EvCloseQuit
             {| files := files w; trace := trace w;
                deferred := deferred w; quitClosed := true |}).

(** ** External collaborators

    What the engine calls and does not implement, and the choices the Go
    runtime makes for it. *)
Class Collaborators := {
  goos : GOOS;
  (** TLS material and client construction. *)
  ReadFile : string → result string;
  AppendCertsFromPEM : string → bool;
  LoadX509KeyPair : string → string → option error;
  NewClient : ConsulConfig → option error;
  (** The error, if any, the operating system answers a call with, given
      what happened so far. *)
  fault : list Event → SysCall → option error;
  (** The order in which a [range] over a map visits its entries, given
      what happened so far. *)
  range : list Event → Env → list (string * string);
  (** [gosecret.DecryptTags(value, keystore)], then [template.New(..).
      Funcs(..).Parse(data)] with [goDecrypt] bound to the keystore, then
      [tmpl.Execute(buff, nil)]. *)
  gosecret_DecryptTags : string → string → result string;
  Template : Type;
  template_Parse : string → string → result Template;
  template_Execute : Template → result string;
  (** Whether the non-blocking receive on [quitCh] at the top of the [n]-th
      iteration of the watcher finds the channel closed. *)
  quit_seen : nat → bool;
  (** The order in which the return codes sent by the units arrive. *)
  schedule : list Z → list Z
}.

(** A [range] visits every entry of the map once, in some order. *)
Definition range_enumerates `{Collaborators} : Prop :=
  ∀ tr (e : Env), range tr e ≡ₚ map_to_list e.

(** Every return code sent arrives once, in some order. *)
Definition schedule_fair `{Collaborators} : Prop :=
  ∀ codes, schedule codes ≡ₚ codes.

Section Engine.

Context `{Collaborators}.

(** *** [buildClient] and [buildConsulClient] *)

Definition buildClient (c : ConsulConfig) : option error :=
  let ca :=
    if decide (CAFile c ≠ "") then
      match ReadFile (CAFile c) with
      | Err e => Some e
      | Ok data =>
          if AppendCertsFromPEM data then None
          else Some ("Invalid certificate file: " +:+ CAFile c)
      end
    else None in
  match ca with
  | Some e => Some e
  | None =>
      if decide (CertFile c ≠ "" ∧ KeyFile c ≠ "")
      then LoadX509KeyPair (CertFile c) (KeyFile c)
      else None
  end.

Definition buildConsulClient (c : ConsulConfig) : option error :=
  match buildClient c with
  | Some e => Some e
  | None => NewClient c
  end.

(** *** System calls, [defer] and [return] *)

(** A call into the operating system. [os.Remove] also fails on a file
    that is not there; [os.Create] leaves the file empty; the one
    [Write] on a handle follows its [Create] and leaves the bytes written
    as the content. A failed call changes no file. *)
Definition sys (c : SysCall) (w : World) : option error * World :=
  let err :=
    match fault (trace w) c with
    | Some e => Some e
    | None =>
        match c with
        | Remove file =>
            match files w !! file with
            | Some _ => None
            | None => Some "no such file or directory"
            end
        | _ => None
        end
    end in
  let fs :=
    match err, c with
    | None, Remove file => delete file (files w)
    | None, Create file => <[file := ""]> (files w)
    | None, Write file bytes => <[file := bytes]> (files w)
    | _, _ => files w
    end in
  (err, emit (EvSys c err) (set_files fs w)).

(** The deferred calls run when [watchMappingAndExec] returns or panics. *)
Fixpoint run_deferred (ds : list Deferred) (o : Outcome) (w : World) : Outcome * World :=
  match ds with
  | [] => (o, w)
  | DeferClose file :: ds' => run_deferred ds' o (sys (Close file) w).2
  | DeferCloseQuit :: ds' =>
      match close_quitCh w with
      | Go w' => run_deferred ds' o w'
      | Panic msg w' => run_deferred ds' (Panicked msg) w'
      end
  end.

Definition leave (o : Outcome) (w : World) : Outcome * World :=
  run_deferred (deferred w) o
    {| files := files w; trace := trace w; deferred := []; quitClosed := quitClosed w |}.

(** *** One reconcile cycle *)

Definition isWindows : bool := bool_decide (PathSeparator goos ≠ "/"%char).

(** [fmt.Sprintf("%s%s", mappingConfig.Path, k)], with the separators
    translated on Windows. *)
Definition keyfile (path k : string) : string :=
  let keyfile := path +:+ k in
  if isWindows then strings.Replace keyfile "/" "\" else keyfile.

(** The body of [for k := range env]. *)
Definition delete_key (m : MappingConfig) (newEnv : Env) (w : World) (k : string) : World :=
  match newEnv !! k with
  | Some _ => w
  | None =>
      let w := log DebugLevel "Key no longer present locally" w in
      let '(err, w) := sys (Remove (keyfile (Path m) k)) w in
      match err with
      | Some _ => log ErrorLevel "Failed to remove key" w
      | None => w
      end
  end.

Definition delete_keys (m : MappingConfig) (env : option Env) (newEnv : Env) (w : World) : World :=
  match env with
  | None => w
  | Some e => foldl (delete_key m newEnv) w (range (trace w) e).*1
  end.

(** The bytes to write for the value [v] ([buff]), or [None] where the
    source [continue]s: the block under [len(mappingConfig.Keystore) > 0]. *)
Definition transform (m : MappingConfig) (v : string) (w : World) : option string * World :=
  if decide (0 < String.length (Keystore m))%nat then
    match gosecret_DecryptTags v (Keystore m) with
    | Err _ =>
        let w := emit (EvTransform DecryptTags v false) w in
        (None, log ErrorLevel "Failed to decrypt value" w)
    | Ok data =>
        let w := emit (EvTransform DecryptTags v true) w in
        let w := log DebugLevel "Output value length" w in
        match template_Parse (Keystore m) data with
        | Err _ =>
            let w := emit (EvTransform ParseTemplate data false) w in
            (None, log ErrorLevel "Could not parse template" w)
        | Ok tmpl =>
            let w := emit (EvTransform ParseTemplate data true) w in
            match template_Execute tmpl with
            | Err _ =>
                let w := emit (EvTransform ExecuteTemplate data false) w in
                (None, log ErrorLevel "Could not execute template" w)
            | Ok out => (Some out, emit (EvTransform ExecuteTemplate data true) w)
            end
        end
    end
  else (Some v, w).

(** The body of [for k, v := range newEnv]. *)
Definition write_key (m : MappingConfig) (w : World) (kv : string * string) : Flow :=
  let '(k, v) := kv in
  let keyfile := keyfile (Path m) k in
  let sep := if isWindows then "\"%char else "/"%char in
  match slice_to keyfile (strings.LastIndex keyfile sep) with
  | None => Panic "slice bounds out of range" w
  | Some dir =>
      let '(err, w) := sys (Mkdirp dir) w in
      let w := match err with
               | Some _ => log ErrorLevel "Failed to create parent directory for key" w
               | None => w
               end in
      let '(err, w) := sys (Create keyfile) w in
      match err with
      | Some _ => Go (log ErrorLevel "Failed to create file" w)
      | None =>
          let w := defer (DeferClose keyfile) w in
          let w := log DebugLevel "Input value length" w in
          match transform m v w with
          | (None, w) => Go w
          | (Some buff, w) =>
              let '(err, w) := sys (Write keyfile buff) w in
              match err with
              | Some _ => Go (log ErrorLevel "Failed to write to file" w)
              | None =>
                  let w := log DebugLevel "Successfully wrote value to file" w in
                  let '(err, w) := sys (Sync keyfile) w in
                  let w := match err with
                           | Some _ => log ErrorLevel "Failed to sync file" w
                           | None => w
                           end in
                  let '(err, w) := sys (Close keyfile) w in
                  Go match err with
                     | Some _ => log ErrorLevel "Failed to close file" w
                     | None => w
                     end
              end
          end
      end
  end.

Fixpoint write_keys (m : MappingConfig) (kvs : list (string * string)) (w : World) : Flow :=
  match kvs with
  | [] => Go w
  | kv :: rest =>
      match write_key m w kv with
      | Go w' => write_keys m rest w'
      | Panic msg w' => Panic msg w'
      end
  end.

(** The end of a cycle: [if config.RunOnce]. *)
Definition end_cycle (config : WatchConfig) (env : option Env) (w : World)
  : LoopStep (option Env * World) (Outcome * World) :=
  if RunOnce config then
    match close_quitCh w with
    | Go w' => Return (leave (Returned 0 None) w')
    | Panic msg w' => Return (leave (Panicked msg) w')
    end
  else Continue (env, w).

(** The body of the [for] of [watchMappingAndExec] once [pairs] has been
    received. *)
Definition cycle (config : WatchConfig) (m : MappingConfig)
    (env : option Env) (pairs : list KVPair) (w : World)
  : LoopStep (option Env * World) (Outcome * World) :=
  let '(newEnv, w) := build_newEnv (Prefix m) pairs w in
  if DeepEqual env (Some newEnv) then Continue (env, w)
  else
    let w := delete_keys m env newEnv w in
    let env := Some newEnv in
    let w := emit (EvSetEnv newEnv) w in
    match write_keys m (range (trace w) newEnv) w with
    | Panic msg w => Return (leave (Panicked msg) w)
    | Go w =>
        match OnChange m with
        | None => end_cycle config env w
        | Some [] => Return (leave (Panicked "index out of range") w)
        | Some (name :: args) =>
            let '(err, w) := sys (Run (name :: args)) w in
            match err with
            | Some e => Return (leave (Returned 111 (Some e)) w)
            | None => end_cycle config env w
            end
        end
    end.

(** The [for] of [watchMappingAndExec] over what its [select] receives;
    with nothing left to receive it waits. *)
Fixpoint reconcile (config : WatchConfig) (m : MappingConfig)
    (env : option Env) (ds : list Delivery) (w : World) : Outcome * World :=
  match ds with
  | [] => (Waiting, w)
  | FromErrCh e :: _ => leave (Returned 0 (Some e)) w
  | FromPairCh pairs :: ds' =>
      match cycle config m env pairs w with
      | Continue (env', w') => reconcile config m env' ds' w'
      | Return r => r
      end
  end.

(** *** [watchMappingAndExec] *)

Definition with_paths (m : MappingConfig) (prefix path : string) : MappingConfig :=
  {| OnChange := OnChange m; OnChangeRaw := OnChangeRaw m;
     Prefix := prefix; Path := path; Keystore := Keystore m |}.

(** The normalisation of the mapping at the start of the unit: the
    leading slash of the prefix, the trailing separator of the path, the
    trailing quote. [None] is the index-out-of-range panic. *)
Definition normalize (m : MappingConfig) : option MappingConfig :=
  c ← first_byte (Prefix m);
  let prefix := if decide (c = "/"%char) then strings.drop 1 (Prefix m) else Prefix m in
  c ← last_byte (Path m);
  let path :=
    if decide (c ≠ PathSeparator goos)
    then Path m +:+ String (PathSeparator goos) EmptyString
    else Path m in
  c ← last_byte path;
  let path := if decide (c = quote) then drop_last path else path in
  Some (with_paths m prefix path).

(** The unit of one mapping, given the answers the store will give to the
    watcher, for at most [fuel] iterations of the watcher: the Reconciler
    receives what the watcher sends, in order. The call starts with an
    empty [defer] stack and a freshly made [quitCh]. *)
Definition watchMappingAndExec (config : WatchConfig) (m : MappingConfig)
    (fuel : nat) (store : list ListResult) (w : World) : Outcome * World :=
  match buildConsulClient (Consul config) with
  | Some err => (Returned 0 (Some err), w)
  | None =>
      match normalize m with
      | None => (Panicked "index out of range", w)
      | Some m =>
          let w := {| files := files w; trace := trace w;
                      deferred := []; quitClosed := false |} in
          let w := if RunOnce config then w else defer DeferCloseQuit w in
          let sent :=
            watch quit_seen (Prefix m) (Path m) (Token (Consul config)) fuel
              {| answers := store; wtrace := [] |} in
          reconcile config m None (deliveries (wtrace sent.2)) w
      end
  end.

(** *** The Mapping Supervisor ([watchAndExec]) *)

(** The goroutine forked for one mapping; its outcome carries the code it
    sends on [returnCodes]. *)
Definition unit_of (config : WatchConfig) (m : MappingConfig)
    (fuel : nat) (store : list ListResult) (w : World) : Outcome * World :=
  let m :=
    if decide (OnChangeRaw m ≠ "")
    then {| OnChange := Some (strings.Split (OnChangeRaw m) " ");
            OnChangeRaw := OnChangeRaw m; Prefix := Prefix m;
            Path := Path m; Keystore := Keystore m |}
    else m in
  let w := log DebugLevel "Got mapping config" w in
  let '(o, w) := watchMappingAndExec config m fuel store w in
  match o with
  | Returned _ (Some _) => (o, log DebugLevel "Failure from watch function" w)
  | _ => (o, w)
  end.

Definition sent_code (o : Outcome) : option Z :=
  match o with
  | Returned code _ => Some code
  | _ => None
  end.

Definition panicked (o : Outcome) : bool :=
  match o with
  | Panicked _ => true
  | _ => false
  end.

(** The loop that receives [n] return codes; [None] when fewer than [n]
    ever arrive and the receive blocks. *)
Fixpoint wait_all (n : nat) (returnCodes : list Z) (failures : bool) : option bool :=
  match n with
  | O => Some failures
  | S n' =>
      match returnCodes with
      | [] => None
      | returnCode :: rest =>
          wait_all n' rest (if decide (returnCode ≠ 0%Z) then true else failures)
      end
  end.

Inductive Exit :=
| ExitCode (code : Z)
| Blocked
| Crashed.

(** The outcomes of the units, each on the store answers and the world
    [input] gives its mapping. *)
Definition units (config : WatchConfig) (fuel : nat)
    (input : nat → list ListResult * World) : list (Outcome * World) :=
  imap (λ i m, unit_of config m fuel (input i).1 (input i).2) (Mappings config).

Definition watchAndExec (config : WatchConfig) (fuel : nat)
    (input : nat → list ListResult * World) : Exit :=
  let config := applyDefaults config in
  let outcomes := (units config fuel input).*1 in
  if existsb panicked outcomes then Crashed
  else
    match wait_all (length (Mappings config)) (schedule (omap sent_code outcomes)) false with
    | None => Blocked
    | Some true => ExitCode (-1)
    | Some false => ExitCode 0
    end.

End Engine.

(** The world a cycle leaves behind, whether the loop goes on or returns. *)
Definition after (r : LoopStep (option Env * World) (Outcome * World)) : World :=
  match r with
  | Continue (_, w) => w
  | Return (_, w) => w
  end.

(** The events of one deleted key: the removal of [file] that answered
    [err], logged when it failed. *)
Definition removal_events (file : string) (err : option error) : list Event :=
  [EvLog DebugLevel "Key no longer present locally"; EvSys (Remove file) err]
  ++ match err with
     | Some _ => [EvLog ErrorLevel "Failed to remove key"]
     | None => []
     end.

(** Events by kind. *)
Definition is_removal (e : Event) : bool :=
  match e with
  | EvSys (Remove _) _ => true
  | _ => false
  end.

(** What the loop over [newEnv] may do: directories, files, the pipeline
    and log lines. *)
Definition is_write_event (e : Event) : bool :=
  match e with
  | EvSys (Mkdirp _) _ | EvSys (Create _) _ | EvSys (Write _ _) _
  | EvSys (Sync _) _ | EvSys (Close _) _ => true
  | EvTransform _ _ _ => true
  | EvLog _ _ => true
  | _ => false
  end.

(** What follows the loop over [newEnv]: the command, the closing of
    [quitCh] and the deferred closing of files. *)
Definition is_final_event (e : Event) : bool :=
  match e with
  | EvSys (Run _) _ | EvSys (Close _) _ | EvCloseQuit => true
  | _ => false
  end.

Definition is_failed_run (e : Event) : bool :=
  match e with
  | EvSys (Run _) (Some _) => true
  | _ => false
  end.

Definition is_DeferClose (d : Deferred) : bool :=
  match d with
  | DeferClose _ => true
  | DeferCloseQuit => false
  end.

(** The three ways the Value Transform Pipeline fails on a value. *)
Inductive pipeline_fails `{Collaborators} (m : MappingConfig) (v : string) : Prop :=
| decrypt_fails e :
    gosecret_DecryptTags v (Keystore m) = Err e → pipeline_fails m v
| parse_fails data e :
    gosecret_DecryptTags v (Keystore m) = Ok data →
    template_Parse (Keystore m) data = Err e → pipeline_fails m v
| execute_fails data tmpl e :
    gosecret_DecryptTags v (Keystore m) = Ok data →
    template_Parse (Keystore m) data = Ok tmpl →
    template_Execute tmpl = Err e → pipeline_fails m v.

(** [w'] continues [w]: more events, all of kind [P], more deferred closings
    of files, the same [quitCh]. *)
Definition extends (P : Event → bool) (w w' : World) : Prop :=
  ∃ t cl, trace w' = trace w ++ t ∧ Forall P t
          ∧ deferred w' = cl ++ deferred w ∧ Forall is_DeferClose cl
          ∧ quitClosed w' = quitClosed w.

(** No file of [w] is missing from [w']. *)
Definition keeps_files (w w' : World) : Prop :=
  ∀ file, is_Some (files w !! file) → is_Some (files w' !! file).

Definition is_log (e : Event) : bool :=
  match e with
  | EvLog _ _ => true
  | _ => false
  end.

(** What the loop over [env] may do: removals and log lines. *)
Definition is_delete_event (e : Event) : bool :=
  match e with
  | EvSys (Remove _) _ => true
  | EvLog _ _ => true
  | _ => false
  end.

Definition world_of (r : Flow) : World :=
  match r with
  | Go w => w
  | Panic _ w => w
  end.

(** What [return] adds: the deferred closing of files and of [quitCh]. *)
Definition is_closing_event (e : Event) : bool :=
  match e with
  | EvSys (Close _) _ | EvCloseQuit => true
  | _ => false
  end.

(** How an accepted cycle ends once the loop over [newEnv] has left the
    world [ww]. *)
Inductive cycle_ends `{Collaborators} (config : WatchConfig) (m : MappingConfig)
    (newEnv : Env) (ww : World)
  : LoopStep (option Env * World) (Outcome * World) → Prop :=
| ends_write_panic msg :
    cycle_ends config m newEnv ww (Return (leave (Panicked msg) ww))
| ends_no_command :
    OnChange m = None →
    cycle_ends config m newEnv ww (end_cycle config (Some newEnv) ww)
| ends_empty_command :
    OnChange m = Some [] →
    cycle_ends config m newEnv ww (Return (leave (Panicked "index out of range") ww))
| ends_command_failed argv e :
    OnChange m = Some argv →
    (sys (Run argv) ww).1 = Some e →
    cycle_ends config m newEnv ww
      (Return (leave (Returned 111 (Some e)) (sys (Run argv) ww).2))
| ends_command_ok argv :
    OnChange m = Some argv →
    (sys (Run argv) ww).1 = None →
    cycle_ends config m newEnv ww
      (end_cycle config (Some newEnv) (sys (Run argv) ww).2).

(** The state of the unit between two cycles: [quitCh] is open and its
    closing is deferred unless the run is a single pass. *)
Definition between_cycles (once : bool) (w : World) : Prop :=
  quitClosed w = false
  ∧ ∃ cl, deferred w = cl ++ (if once then [] else [DeferCloseQuit])
          ∧ Forall is_DeferClose cl.

(** [w'] is [w] with [n] more lines of the log of received keys, and
    nothing else. *)
Definition only_logged (n : nat) (w w' : World) : Prop :=
  files w' = files w ∧ deferred w' = deferred w ∧ quitClosed w' = quitClosed w
  ∧ trace w' = trace w ++ replicate n (EvLog DebugLevel "Key present in source").

Definition no_failed_run (tr : list Event) : Prop :=
  Forall (λ ev, ¬ is_failed_run ev) tr.

(** What precedes the creation of a key's file: its directory, and log
    lines. *)
Definition is_preparation (e : Event) : bool :=
  match e with
  | EvSys (Mkdirp _) _ => true
  | EvLog _ _ => true
  | _ => false
  end.

(** The Value Transform Pipeline at work: its stages and log lines, no
    system call. *)
Definition is_pipeline_event (e : Event) : bool :=
  match e with
  | EvTransform _ _ _ => true
  | EvLog _ _ => true
  | _ => false
  end.

(** ** Sample runs *)

Module Sample.

Definition consul : ConsulConfig :=
  {| Addr := ""; DC := ""; Token := ""; KeyFile := ""; CertFile := "";
     CAFile := ""; UseTLS := false |}.

Definition consul_tls : ConsulConfig :=
  {| Addr := ""; DC := ""; Token := ""; KeyFile := ""; CertFile := "";
     CAFile := "/etc/missing.pem"; UseTLS := true |}.

(** A host on which no call fails, except the reading of a certificate
    file; [oops] is the error of the on-change command, if it fails. *)
Definition host (os : GOOS) (oops : option error) (locked : bool) : Collaborators :=
  {| goos := os;
     ReadFile := λ _, Err "no such file or directory";
     AppendCertsFromPEM := λ _, true;
     LoadX509KeyPair := λ _ _, None;
     NewClient := λ _, None;
     fault := λ _ c, match c with Run _ => oops | _ => None end;
     range := λ _ e, map_to_list e;
     gosecret_DecryptTags := λ v _, if locked then Err "key not found" else Ok v;
     Template := string;
     template_Parse := λ _ data, Ok data;
     template_Execute := λ tmpl, Ok tmpl;
     quit_seen := λ _, false;
     schedule := λ codes, codes |}.

Definition quiet : Collaborators := host Unix None false.

(** The same host with an on-change command that exits nonzero. *)
Definition failing_command : Collaborators := host Unix (Some "exit status 1") false.

(** A Windows host with a keystore that decrypts nothing. *)
Definition windows_locked : Collaborators := host Windows None true.

Definition world : World :=
  {| files := ∅; trace := []; deferred := []; quitClosed := false |}.

Definition mapping : MappingConfig :=
  {| OnChange := Some ["reload"]; OnChangeRaw := ""; Prefix := "a";
     Path := "/out/"; Keystore := "" |}.

Definition config (once : bool) : WatchConfig :=
  {| RunOnce := once; Consul := consul; Mappings := [mapping] |}.

(** The Environment and the files after [snapshot] has been applied. *)
Definition current : Env := {[ "b" := "1"; "c" := "2" ]}.

Definition synced : World :=
  {| files := {[ "/out/b" := "1"; "/out/c" := "2" ]}; trace := [];
     deferred := []; quitClosed := false |}.

Definition snapshot : list KVPair :=
  [ {| Key := "a/b"; Value := "1" |}; {| Key := "a/c"; Value := "2" |} ].

Definition smaller : list KVPair := [ {| Key := "a/b"; Value := "1" |} ].

(** A root path that ends in a stray quote. *)
Definition quoted_path : string := "/out" +:+ String quote EmptyString.

Definition quoted : MappingConfig :=
  {| OnChange := None; OnChangeRaw := ""; Prefix := "a";
     Path := quoted_path; Keystore := "" |}.

Definition no_prefix : MappingConfig :=
  {| OnChange := None; OnChangeRaw := ""; Prefix := "";
     Path := "/out/"; Keystore := "" |}.

Definition secret : MappingConfig :=
  {| OnChange := None; OnChangeRaw := ""; Prefix := "a";
     Path := "C:\out\"; Keystore := "C:\keys" |}.

(** A mapping without a command, and a configuration with two mappings. *)
Definition silent : MappingConfig :=
  {| OnChange := None; OnChangeRaw := ""; Prefix := "a";
     Path := "/srv/"; Keystore := "" |}.

Definition both (once : bool) : WatchConfig :=
  {| RunOnce := once; Consul := consul; Mappings := [mapping; silent] |}.

End Sample.

(** ** The command line ([realMain]) *)

(** What [flag.Parse] leaves: the flags and [flag.Args()]. *)
Record Flags := {
  flag_addr : string;
  flag_dc : string;
  flag_keystore : string;
  flag_token : string;
  flag_once : bool;
  flag_configFile : string;
  flag_args : list string
}.

Section Main.

Context `{Collaborators}.

(** [json.Unmarshal(configBody, &config)]. *)
Variable Unmarshal : string → result WatchConfig.

(** The configuration [realMain] resolves, from the JSON file or from the
    command line, or the code it exits with before any watcher starts.
    [Crashed] is the index-out-of-range panic of [args[0]] and [args[1]]. *)
Definition realMain_config (fl : Flags) : Exit + WatchConfig :=
  if decide (flag_configFile fl = "" ∧ length (flag_args fl) < 2) then inl (ExitCode 1)
  else if decide (flag_configFile fl ≠ "") then
    match ReadFile (flag_configFile fl) with
    | Err _ => inl (ExitCode 2)
    | Ok configBody =>
        match Unmarshal configBody with
        | Err _ => inl (ExitCode 3)
        | Ok config => inr config
        end
    end
  else
    match flag_args fl with
    | arg0 :: arg1 :: rest =>
        let onChange := if decide (2 < length (flag_args fl)) then Some rest else None in
        let prefixes := strings.Split arg0 "|" in
        let paths := strings.Split arg1 "|" in
        if decide (length prefixes ≠ length paths) then inl (ExitCode 1)
        else
          inr {| RunOnce := flag_once fl;
                 Consul := {| Addr := flag_addr fl; DC := flag_dc fl;
                              Token := flag_token fl; KeyFile := "";
                              CertFile := ""; CAFile := ""; UseTLS := false |};
                 Mappings :=
                   zip_with (λ prefix path,
                               {| OnChange := onChange; OnChangeRaw := "";
                                  Prefix := prefix; Path := path;
                                  Keystore := flag_keystore fl |})
                     prefixes paths |}
    | _ => inl Crashed
    end.

Definition realMain (fl : Flags) (fuel : nat) (input : nat → list ListResult * World) : Exit :=
  match realMain_config fl with
  | inl exit => exit
  | inr config => watchAndExec config fuel input
  end.

End Main.

(** *** Sample command lines *)

Module SampleMain.

Definition flags (once : bool) (configFile : string) (args : list string) : Flags :=
  {| flag_addr := ""; flag_dc := ""; flag_keystore := ""; flag_token := "";
     flag_once := once; flag_configFile := configFile; flag_args := args |}.

(** A host like [Sample.quiet] on which one configuration file can be read. *)
Definition host : Collaborators :=
  {| goos := Unix;
     ReadFile := λ name, if decide (name = "fsconsul.json") then Ok "{}"
                         else Err "no such file or directory";
     AppendCertsFromPEM := λ _, true;
     LoadX509KeyPair := λ _ _, None;
     NewClient := λ _, None;
     fault := λ _ _, None;
     range := λ _ e, map_to_list e;
     gosecret_DecryptTags := λ v _, Ok v;
     Template := string;
     template_Parse := λ _ data, Ok data;
     template_Execute := λ tmpl, Ok tmpl;
     quit_seen := λ _, false;
     schedule := λ codes, codes |}.

(** A decoder that accepts the empty object only. *)
Definition Unmarshal (body : string) : result WatchConfig :=
  if decide (body = "{}")
  then Ok {| RunOnce := false; Consul := Sample.consul; Mappings := [] |}
  else Err "unexpected end of JSON input".

Definition input (i : nat) : list ListResult * World :=
  ([ListOk Sample.snapshot {| LastIndex := 7 |}], Sample.world).

End SampleMain.

(** ** Derived notions *)

(** The relative key of a pair: its key without the prefix and without the
    slashes that follow (the two steps of the loop that fills [newEnv]). *)
Definition relative_key (prefix key : string) : string :=
  strings.TrimLeft (strings.TrimPrefix key prefix) "/".

(** [strings.Join(pieces, sep)] for a one-byte [sep]. *)
Fixpoint Join (pieces : list string) (sep : ascii) : string :=
  match pieces with
  | [] => ""
  | [piece] => piece
  | piece :: rest => piece +:+ String sep (Join rest sep)
  end.

(** The pairs of a successful answer of the store. *)
Definition answered (r : ListResult) : option Delivery :=
  match r with
  | ListOk pairs _ => Some (FromPairCh pairs)
  | ListErr _ => None
  end.

(** The wait index of a [List] call of the watcher. *)
Definition waited (e : WEvent) : option Z :=
  match e with
  | WList _ waitIndex _ => Some waitIndex
  | _ => None
  end.

(** The index the watcher holds after the answers [rs], from [cur]. *)
Fixpoint index_after (cur : Z) (rs : list ListResult) : Z :=
  match rs with
  | [] => cur
  | ListOk _ meta :: rs' => index_after (LastIndex meta) rs'
  | ListErr _ :: rs' => index_after cur rs'
  end.

(** The indices the reads of the answers [rs] wait on, from [cur]. *)
Fixpoint wait_indices (cur : Z) (rs : list ListResult) : list Z :=
  match rs with
  | [] => []
  | ListOk _ meta :: rs' => cur :: wait_indices (LastIndex meta) rs'
  | ListErr _ :: rs' => cur :: wait_indices cur rs'
  end.

(** What the main loop of the watcher does on the answers [rs], from the
    index [cur]. *)
Fixpoint loop_events (prefix token : string) (cur : Z) (rs : list ListResult) : list WEvent :=
  match rs with
  | [] => []
  | ListOk pairs meta :: rs' =>
      [WList prefix cur token; WSendPairs pairs; WLog "Potential index update observed"]
      ++ loop_events prefix token (LastIndex meta) rs'
  | ListErr _ :: rs' =>
      [WList prefix cur token; WSleep 2; WLog "Error communicating with consul agent."]
      ++ loop_events prefix token cur rs'
  end.

(** [n] slashes. *)
Fixpoint slashes (n : nat) : string :=
  match n with
  | O => ""
  | S n' => String "/" (slashes n')
  end.

(** The files created with success in a trace, in order. *)
Definition created (e : Event) : option string :=
  match e with
  | EvSys (Create file) None => Some file
  | _ => None
  end.

Definition creations (t : list Event) : list string := omap created t.

(** The file a [Close] event closes, and the file a deferred call closes. *)
Definition closed (e : Event) : option string :=
  match e with
  | EvSys (Close file) _ => Some file
  | _ => None
  end.

Definition deferred_file (d : Deferred) : option string :=
  match d with
  | DeferClose file => Some file
  | DeferCloseQuit => None
  end.

(** From [w] to [w'] the [defer] stack has grown by the closing of the
    files created in between, the latest first, and by nothing else. *)
Definition defers (w w' : World) : Prop :=
  ∃ t, trace w' = trace w ++ t
       ∧ deferred w' = (DeferClose <$> reverse (creations t)) ++ deferred w.

(** * Properties *)

(** ** Byte strings *)

Lemma last_byte_snoc (p : string) (c : ascii) :
  last_byte (p +:+ String c EmptyString) = Some c.
Proof.
  induction p as [|a p IH]; [reflexivity|].
  change (String a p +:+ String c EmptyString) with (String a (p +:+ String c EmptyString)).
  destruct p; [reflexivity|]. exact IH.
Qed.

Lemma last_byte_nonempty (s : string) : s ≠ "" → ∃ c, last_byte s = Some c.
Proof.
  induction s as [|a s IH]; [done|]. intros _.
  destruct s as [|b s]; [by exists a|].
  destruct IH as [c Hc]; [done|]. by exists c.
Qed.

Lemma last_byte_empty (s : string) : last_byte s = None → s = "".
Proof.
  intros Hs. destruct (decide (s = "")) as [|Hne]; [done|].
  destruct (last_byte_nonempty s Hne) as [c Hc]. congruence.
Qed.

Lemma separator_not_quote (os : GOOS) : quote ≠ PathSeparator os.
Proof. destruct os; vm_compute; discriminate. Qed.

(** ** The Retry Policy *)

Lemma retryableList_body_returns {St : Type}
    (f : St → option ListResult * St) (Sleep : Z → St → St) (s : Z * St) :
  ∃ r, retryableList_body f Sleep s = Return r.
Proof.
  destruct s as [i st]. unfold retryableList_body.
  destruct (f st) as [[[p m|e]|] st1]; [eauto| |eauto].
  destruct (3 <=? i)%Z; eauto.
Qed.

(** However much fuel the loop is given, [retryableList] is one pass
    through its body. *)
Lemma retryableList_one_pass {St : Type}
    (f : St → option ListResult * St) (Sleep : Z → St → St) (fuel : nat) (st : St) :
  retryableList f Sleep (S fuel) st = retryableList_body f Sleep (0%Z, st).
Proof.
  unfold retryableList. cbn [for_loop].
  destruct (retryableList_body_returns f Sleep (0%Z, st)) as [r ->]. reflexivity.
Qed.

(** C1 (as the code has it): when the first attempt of the wrapped read
    fails with [e], [retryableList] sleeps 2 seconds and returns [e]; the
    read is not attempted again, whatever the store would have answered
    next ([rest] is left untouched). *)
Theorem retryableList_returns_after_first_failure
    (prefix token : string) (waitIndex : Z) (fuel : nat)
    (e : error) (rest : list ListResult) (tr : list WEvent) :
  retryableList (KV_List prefix waitIndex token) time_Sleep (S fuel)
    {| answers := ListErr e :: rest; wtrace := tr |}
  = Return (Some (ListErr e),
            {| answers := rest;
               wtrace := tr ++ [WList prefix waitIndex token; WSleep 2] |}).
Proof.
  rewrite retryableList_one_pass. unfold retryableList_body, KV_List, time_Sleep, wemit.
  cbn. by rewrite <- app_assoc.
Qed.

(** ** Normalisation of the mapping *)

Lemma normalize_ok `{Collaborators} (m : MappingConfig) :
  Prefix m ≠ "" → Path m ≠ "" →
  ∃ m', normalize m = Some m' ∧ OnChange m' = OnChange m ∧ Keystore m' = Keystore m
        ∧ last_byte (Path m') = Some (PathSeparator goos).
Proof.
  intros Hpre Hpath. unfold normalize.
  destruct (Prefix m) as [|c pre] eqn:Epre; [done|]. cbn [first_byte mbind option_bind].
  destruct (last_byte_nonempty (Path m) Hpath) as [d Hd]. rewrite Hd. cbn [mbind option_bind].
  destruct (decide (d ≠ PathSeparator goos)) as [Hne|Heq].
  - rewrite last_byte_snoc. cbn [mbind option_bind].
    destruct (decide (PathSeparator goos = quote)) as [Hq|_].
    { by destruct (separator_not_quote goos). }
    eexists. split; [reflexivity|]. cbn. by rewrite last_byte_snoc.
  - apply dec_stable in Heq. subst d. rewrite Hd. cbn [mbind option_bind].
    destruct (decide (PathSeparator goos = quote)) as [Hq|_].
    { by destruct (separator_not_quote goos). }
    eexists. split; [reflexivity|]. by cbn.
Qed.

(** C5 (as the code has it): a root path that ends in a quote keeps the
    quote; the normalisation only appends the separator after it, so the
    test for a trailing quote that follows never fires. *)
Theorem normalize_keeps_trailing_quote `{Collaborators} (m : MappingConfig) (p : string) :
  Prefix m ≠ "" →
  Path m = p +:+ String quote EmptyString →
  ∃ m', normalize m = Some m'
        ∧ Path m' = p +:+ String quote (String (PathSeparator goos) EmptyString).
Proof.
  intros Hpre Hpath. unfold normalize.
  destruct (Prefix m) as [|c pre] eqn:Epre; [done|]. cbn [first_byte mbind option_bind].
  rewrite Hpath, last_byte_snoc. cbn [mbind option_bind].
  destruct (decide (quote ≠ PathSeparator goos)) as [_|Heq].
  2:{ destruct Heq. apply separator_not_quote. }
  eexists.
  rewrite (last_byte_snoc (p +:+ String quote EmptyString) (PathSeparator goos)).
  cbn [mbind option_bind].
  destruct (decide (PathSeparator goos = quote)) as [Hq|_].
  { by destruct (separator_not_quote goos). }
  split; [reflexivity|]. cbn [Path with_paths].
  clear. induction p as [|a p IH]; [reflexivity|].
  change (String a ((p +:+ String quote EmptyString) +:+ String (PathSeparator goos) EmptyString)
          = String a (p +:+ String quote (String (PathSeparator goos) EmptyString))).
  by f_equal.
Qed.

Lemma normalize_keeps_trailing_quote_witness :
  ∃ m', @normalize Sample.quiet Sample.quoted = Some m'
        ∧ Path m' = "/out" +:+ String quote (String "/"%char EmptyString).
Proof.
  apply (@normalize_keeps_trailing_quote Sample.quiet Sample.quoted "/out").
  - discriminate.
  - reflexivity.
Defined.

(** C10 (as the code has it): once the store client has been built, a mapping whose
    prefix or path is the empty string makes [watchMappingAndExec] panic
    with an index out of range before anything else happens: no event, no
    watcher. *)
Theorem empty_prefix_or_path_panics `{Collaborators}
    (config : WatchConfig) (m : MappingConfig)
    (fuel : nat) (store : list ListResult) (w : World) :
  buildConsulClient (Consul config) = None →
  Prefix m = "" ∨ Path m = "" →
  watchMappingAndExec config m fuel store w = (Panicked "index out of range", w).
Proof.
  intros Hclient Hempty. unfold watchMappingAndExec. rewrite Hclient.
  assert (normalize m = None) as ->; [|reflexivity].
  unfold normalize. destruct Hempty as [Hpre|Hpath].
  - by rewrite Hpre.
  - destruct (first_byte (Prefix m)); [|reflexivity]. cbn [mbind option_bind].
    by rewrite Hpath.
Qed.

Lemma empty_prefix_or_path_panics_witness :
  @watchMappingAndExec Sample.quiet (Sample.config false) Sample.no_prefix 1
    [ListErr "connection refused"] Sample.world
  = (Panicked "index out of range", Sample.world).
Proof.
  apply (@empty_prefix_or_path_panics Sample.quiet).
  - reflexivity.
  - left. reflexivity.
Defined.

(** C10 (counterexample): with a certificate file that cannot be read
    the client is not built, and the unit of a mapping with an empty prefix
    returns that error with the code 0 instead of panicking. *)
Lemma empty_prefix_without_client_returns :
  Prefix Sample.no_prefix = ""
  ∧ @watchMappingAndExec Sample.quiet
      {| RunOnce := false; Consul := Sample.consul_tls; Mappings := [Sample.no_prefix] |}
      Sample.no_prefix 1 [ListErr "connection refused"] Sample.world
    = (Returned 0 (Some "no such file or directory"), Sample.world).
Proof. split; reflexivity. Qed.

(** ** How each step changes the world *)

Section Frames.

Context `{Collaborators}.

Lemma extends_refl (P : Event → bool) (w : World) : extends P w w.
Proof. exists [], []. by rewrite app_nil_r. Qed.

Lemma extends_trans (P : Event → bool) (w1 w2 w3 : World) :
  extends P w1 w2 → extends P w2 w3 → extends P w1 w3.
Proof.
  intros (t1 & c1 & Ht1 & HP1 & Hd1 & Hc1 & Hq1) (t2 & c2 & Ht2 & HP2 & Hd2 & Hc2 & Hq2).
  exists (t1 ++ t2), (c2 ++ c1). repeat split.
  - by rewrite Ht2, Ht1, app_assoc.
  - by apply Forall_app.
  - by rewrite Hd2, Hd1, app_assoc.
  - by apply Forall_app.
  - congruence.
Qed.

Lemma extends_mono (P Q : Event → bool) (w w' : World) :
  (∀ e, P e → Q e) → extends P w w' → extends Q w w'.
Proof.
  intros HPQ (t & cl & Ht & HP & Hd & Hc & Hq). exists t, cl. repeat split; try done.
  eapply Forall_impl; eauto.
Qed.

Lemma extends_emit (P : Event → bool) (e : Event) (w : World) :
  P e → extends P w (emit e w).
Proof. intros He. exists [e], []. repeat split; auto. Qed.

Lemma extends_log (P : Event → bool) (lvl : Level) (msg : string) (w : World) :
  P (EvLog lvl msg) → extends P w (log lvl msg w).
Proof. apply extends_emit. Qed.

Lemma extends_defer (P : Event → bool) (file : string) (w : World) :
  extends P w (defer (DeferClose file) w).
Proof. exists [], [DeferClose file]. repeat split; auto. by rewrite app_nil_r. Qed.

Lemma sys_trace (c : SysCall) (w : World) :
  trace (sys c w).2 = trace w ++ [EvSys c (sys c w).1].
Proof. reflexivity. Qed.

Lemma extends_sys (P : Event → bool) (c : SysCall) (w : World) :
  (∀ err, P (EvSys c err)) → extends P w (sys c w).2.
Proof.
  intros HP. exists [EvSys c (sys c w).1], []. repeat split; auto.
Qed.

Lemma sys_files (c : SysCall) (w : World) :
  files (sys c w).2 =
    match (sys c w).1, c with
    | None, Remove file => delete file (files w)
    | None, Create file => <[file := ""]> (files w)
    | None, Write file bytes => <[file := bytes]> (files w)
    | _, _ => files w
    end.
Proof. reflexivity. Qed.

Lemma sys_keeps_files (c : SysCall) (w : World) :
  (∀ file, c ≠ Remove file) → keeps_files w (sys c w).2.
Proof.
  intros Hc file Hfile. rewrite sys_files.
  destruct (sys c w).1; [done|].
  destruct c as [f|d|f|f b|f|f|argv]; try done.
  - by destruct (Hc f).
  - destruct (decide (f = file)) as [->|]; [by rewrite lookup_insert_eq|by rewrite lookup_insert_ne].
  - destruct (decide (f = file)) as [->|]; [by rewrite lookup_insert_eq|by rewrite lookup_insert_ne].
Qed.

Lemma keeps_files_refl (w : World) : keeps_files w w.
Proof. by intros file. Qed.

Lemma keeps_files_trans (w1 w2 w3 : World) :
  keeps_files w1 w2 → keeps_files w2 w3 → keeps_files w1 w3.
Proof. intros H12 H23 file Hfile. auto. Qed.

End Frames.

(** ** The phases of a cycle *)

Ltac destruct_sys P :=
  match goal with
  | |- context [sys ?c ?w] =>
      let Hext := fresh "Hext" in
      let Hfs := fresh "Hfs" in
      pose proof (extends_sys P c w ltac:(intros; done)) as Hext;
      pose proof (sys_files c w) as Hfs;
      destruct (sys c w) as [? ?]; cbn [fst snd] in Hext, Hfs
  end.

Ltac peel :=
  repeat first
    [ apply extends_refl
    | eapply extends_trans; [| apply extends_log; done]
    | eapply extends_trans; [| apply extends_emit; done]
    | eapply extends_trans; [| apply extends_defer]
    | eapply extends_trans; [| eassumption] ].

Section Phases.

Context `{Collaborators}.

Lemma add_pairs_env (prefix : string) (pairs : list KVPair) (e : Env) (w1 w2 : World) :
  (foldl (add_pair prefix) (e, w1) pairs).1 = (foldl (add_pair prefix) (e, w2) pairs).1.
Proof.
  revert e w1 w2. induction pairs as [|p pairs IH]; intros e w1 w2; [done|].
  cbn [foldl add_pair]. apply IH.
Qed.

Lemma add_pairs_world (prefix : string) (pairs : list KVPair) (e : Env) (w : World) :
  let w' := (foldl (add_pair prefix) (e, w) pairs).2 in
  files w' = files w ∧ deferred w' = deferred w ∧ quitClosed w' = quitClosed w
  ∧ trace w' = trace w ++ replicate (length pairs) (EvLog DebugLevel "Key present in source").
Proof.
  revert e w. induction pairs as [|p pairs IH]; intros e w.
  - cbn. by rewrite app_nil_r.
  - cbn [foldl add_pair].
    destruct (IH (<[strings.TrimLeft (strings.TrimPrefix (Key p) prefix) "/" := Value p]> e)
                 (log DebugLevel "Key present in source" w)) as (Hf & Hd & Hq & Ht).
    cbn zeta. rewrite Hf, Hd, Hq, Ht. cbn. by rewrite <- app_assoc.
Qed.

(** The candidate Environment does not depend on the world. *)
Lemma build_newEnv_env (prefix : string) (pairs : list KVPair) (w1 w2 : World) :
  (build_newEnv prefix pairs w1).1 = (build_newEnv prefix pairs w2).1.
Proof. apply add_pairs_env. Qed.

(** Building it only logs one line per pair. *)
Lemma build_newEnv_world (prefix : string) (pairs : list KVPair) (w : World) :
  let w' := (build_newEnv prefix pairs w).2 in
  files w' = files w ∧ deferred w' = deferred w ∧ quitClosed w' = quitClosed w
  ∧ trace w' = trace w ++ replicate (length pairs) (EvLog DebugLevel "Key present in source").
Proof. apply add_pairs_world. Qed.

Lemma build_newEnv_extends (prefix : string) (pairs : list KVPair) (w : World) :
  extends is_log w (build_newEnv prefix pairs w).2.
Proof.
  destruct (build_newEnv_world prefix pairs w) as (Hf & Hd & Hq & Ht).
  eexists _, []. repeat split; eauto. by apply Forall_replicate.
Qed.

Lemma delete_key_spec (m : MappingConfig) (newEnv : Env) (w : World) (k : string) :
  let w' := delete_key m newEnv w k in
  deferred w' = deferred w ∧ quitClosed w' = quitClosed w
  ∧ match newEnv !! k with
    | Some _ => w' = w
    | None =>
        ∃ err, trace w' = trace w ++ removal_events (keyfile (Path m) k) err
               ∧ ∀ file, file ≠ keyfile (Path m) k → files w' !! file = files w !! file
    end.
Proof.
  unfold delete_key. destruct (newEnv !! k) as [v|]; [done|].
  set (w1 := log DebugLevel "Key no longer present locally" w).
  pose proof (sys_trace (Remove (keyfile (Path m) k)) w1) as Ht.
  pose proof (sys_files (Remove (keyfile (Path m) k)) w1) as Hf.
  destruct (sys (Remove (keyfile (Path m) k)) w1) as [err w2] eqn:E.
  cbn [fst snd] in Ht, Hf.
  assert (deferred w2 = deferred w ∧ quitClosed w2 = quitClosed w) as [Hd Hq].
  { unfold sys in E. by injection E as _ <-. }
  destruct err as [e|].
  - repeat split; try done. exists (Some e). split.
    + cbn. rewrite Ht. cbn. by rewrite <- !app_assoc.
    + intros file _. cbn. by rewrite Hf.
  - repeat split; try done. exists None. split.
    + rewrite Ht. cbn. by rewrite <- app_assoc.
    + intros file Hne. rewrite Hf. cbn. by rewrite lookup_delete_ne.
Qed.

(** The loop over the keys of [env]: each key missing from [newEnv] gets
    its removal, whatever the earlier removals answered, and no other file
    is touched. *)
Lemma delete_fold (m : MappingConfig) (newEnv : Env) (ks : list string) (w : World) :
  let dk := filter (λ k, newEnv !! k = None) ks in
  let w' := foldl (delete_key m newEnv) w ks in
  ∃ errs, length errs = length dk
    ∧ trace w' = trace w ++ concat (zip_with removal_events (keyfile (Path m) <$> dk) errs)
    ∧ deferred w' = deferred w ∧ quitClosed w' = quitClosed w
    ∧ ∀ file, file ∉ keyfile (Path m) <$> dk → files w' !! file = files w !! file.
Proof.
  revert w. induction ks as [|k ks IH]; intros w.
  - exists []. cbn. rewrite app_nil_r. repeat split; done.
  - cbn [foldl]. destruct (IH (delete_key m newEnv w k)) as (errs & Hlen & Ht & Hd & Hq & Hf).
    destruct (delete_key_spec m newEnv w k) as (Hd1 & Hq1 & Hk).
    rewrite filter_cons. destruct (decide (newEnv !! k = None)) as [Hnone|Hsome].
    + rewrite Hnone in Hk. destruct Hk as (err & Ht1 & Hf1).
      exists (err :: errs). cbn zeta. repeat split.
      * cbn. by rewrite Hlen.
      * rewrite Ht, Ht1. cbn [fmap list_fmap zip_with concat]. by rewrite <- app_assoc.
      * congruence.
      * congruence.
      * intros file Hfile. rewrite fmap_cons, not_elem_of_cons in Hfile.
        destruct Hfile as [Hne Hnin]. rewrite Hf by done. by apply Hf1.
    + destruct (newEnv !! k) as [v|] eqn:Ek; [|done]. rewrite Hk in *.
      exists errs. cbn zeta. repeat split; try done.
Qed.

Lemma delete_keys_extends (m : MappingConfig) (env : option Env) (newEnv : Env) (w : World) :
  extends is_delete_event w (delete_keys m env newEnv w).
Proof.
  unfold delete_keys. destruct env as [e|]; [|apply extends_refl].
  destruct (delete_fold m newEnv (range (trace w) e).*1 w) as (errs & _ & Ht & Hd & Hq & _).
  eexists _, []. repeat split; eauto.
  apply Forall_concat, Forall_forall. intros t Ht'.
  apply elem_of_lookup_zip_with in Ht' as (i & file & err & -> & _ & _).
  unfold removal_events. repeat constructor. by destruct err; repeat constructor.
Qed.

Lemma transform_extends (m : MappingConfig) (v : string) (w : World) :
  extends is_write_event w (transform m v w).2.
Proof.
  unfold transform. destruct (decide _); [|apply extends_refl].
  destruct (gosecret_DecryptTags v (Keystore m)) as [data|e]; [|cbn [snd]; peel].
  destruct (template_Parse (Keystore m) data) as [tmpl|e]; [|cbn [snd]; peel].
  destruct (template_Execute tmpl) as [out|e]; cbn [snd]; peel.
Qed.

Lemma transform_files (m : MappingConfig) (v : string) (w : World) :
  files (transform m v w).2 = files w.
Proof.
  unfold transform. destruct (decide _); [|done].
  destruct (gosecret_DecryptTags v (Keystore m)) as [data|e]; [|done].
  destruct (template_Parse (Keystore m) data) as [tmpl|e]; [|done].
  by destruct (template_Execute tmpl) as [out|e].
Qed.

Lemma write_key_extends (m : MappingConfig) (w : World) (kv : string * string) :
  extends is_write_event w (world_of (write_key m w kv)).
Proof.
  unfold write_key. destruct kv as [k v].
  destruct (slice_to _ _) as [dir|]; [|apply extends_refl].
  destruct_sys is_write_event. destruct_sys is_write_event.
  match goal with |- context [match ?e with Some _ => Go _ | None => _ end] => destruct e end;
    [cbn [world_of]; destruct o; peel|].
  match goal with |- context [transform m v ?w0] =>
    pose proof (transform_extends m v w0) as Htr; destruct (transform m v w0) as [[buff|] ?]
  end; cbn [snd] in Htr; [|cbn [world_of]; destruct o; peel].
  destruct_sys is_write_event.
  match goal with |- context [match ?e with Some _ => Go _ | None => _ end] => destruct e end;
    [cbn [world_of]; destruct o; peel|].
  destruct_sys is_write_event. destruct_sys is_write_event.
  cbn [world_of]. destruct o, o0, o1; peel.
Qed.

Lemma write_key_keeps_files (m : MappingConfig) (w : World) (kv : string * string) :
  keeps_files w (world_of (write_key m w kv)).
Proof.
  intros file Hfile. unfold write_key. destruct kv as [k v].
  destruct (slice_to _ _) as [dir|]; [|done].
  match goal with |- context [sys ?c ?w0] =>
    pose proof (sys_keeps_files c w0 ltac:(done)) as Hk1; destruct (sys c w0) as [e1 w1]
  end; cbn [snd] in Hk1.
  assert (keeps_files w w1) as Hw1.
  { intros f Hf. apply Hk1. by destruct e1. }
  clear Hk1.
  match goal with |- context [sys ?c ?w0] =>
    pose proof (sys_keeps_files c w0 ltac:(done)) as Hk2; destruct (sys c w0) as [e2 w2]
  end; cbn [snd] in Hk2.
  assert (keeps_files w w2) as Hw2.
  { intros f Hf. apply Hk2. destruct e1; by apply Hw1. }
  clear Hk2. destruct e2 as [e2|]; [by apply Hw2|].
  match goal with |- context [transform m v ?w0] =>
    pose proof (transform_files m v w0) as Htr; destruct (transform m v w0) as [[buff|] w3]
  end; cbn [snd] in Htr; [|cbn [world_of]; rewrite Htr; by apply Hw2].
  match goal with |- context [sys ?c ?w0] =>
    pose proof (sys_keeps_files c w0 ltac:(done)) as Hk4; destruct (sys c w0) as [e4 w4]
  end; cbn [snd] in Hk4.
  assert (keeps_files w w4) as Hw4.
  { intros f Hf. apply Hk4. rewrite Htr. by apply Hw2. }
  clear Hk4. destruct e4 as [e4|]; [by apply Hw4|].
  match goal with |- context [sys ?c ?w0] =>
    pose proof (sys_keeps_files c w0 ltac:(done)) as Hk5; destruct (sys c w0) as [e5 w5]
  end; cbn [snd] in Hk5.
  assert (keeps_files w w5) as Hw5.
  { intros f Hf. apply Hk5. by apply Hw4. }
  clear Hk5.
  match goal with |- context [sys ?c ?w0] =>
    pose proof (sys_keeps_files c w0 ltac:(done)) as Hk6; destruct (sys c w0) as [e6 w6]
  end; cbn [snd] in Hk6.
  cbn [world_of].
  assert (is_Some (files w6 !! file)) as Hw6.
  { apply Hk6. destruct e5; by apply Hw5. }
  by destruct e6.
Qed.

Lemma write_keys_extends (m : MappingConfig) (kvs : list (string * string)) (w : World) :
  extends is_write_event w (world_of (write_keys m kvs w)).
Proof.
  revert w. induction kvs as [|kv kvs IH]; intros w; [apply extends_refl|].
  cbn [write_keys]. pose proof (write_key_extends m w kv) as Hkv.
  destruct (write_key m w kv) as [w'|msg w']; cbn [world_of] in *; [|done].
  eapply extends_trans; [exact Hkv|apply IH].
Qed.

Lemma write_keys_keeps_files (m : MappingConfig) (kvs : list (string * string)) (w : World) :
  keeps_files w (world_of (write_keys m kvs w)).
Proof.
  revert w. induction kvs as [|kv kvs IH]; intros w; [apply keeps_files_refl|].
  cbn [write_keys]. pose proof (write_key_keeps_files m w kv) as Hkv.
  destruct (write_key m w kv) as [w'|msg w']; cbn [world_of] in *; [|done].
  eapply keeps_files_trans; [exact Hkv|apply IH].
Qed.

Lemma sys_Close (file : string) (w : World) :
  files (sys (Close file) w).2 = files w
  ∧ quitClosed (sys (Close file) w).2 = quitClosed w
  ∧ trace (sys (Close file) w).2 = trace w ++ [EvSys (Close file) (sys (Close file) w).1].
Proof.
  split; [|by split]. rewrite sys_files. by destruct (sys (Close file) w).1.
Qed.

(** Whatever was deferred, returning only closes files and [quitCh]. *)
Lemma run_deferred_any (ds : list Deferred) (o : Outcome) (w : World) :
  ∃ t, trace (run_deferred ds o w).2 = trace w ++ t
       ∧ Forall is_closing_event t
       ∧ files (run_deferred ds o w).2 = files w.
Proof.
  revert o w. induction ds as [|d ds IH]; intros o w.
  - exists []. by rewrite app_nil_r.
  - destruct d as [file|]; cbn [run_deferred].
    + destruct (sys_Close file w) as (Hf & _ & Ht).
      destruct (IH o (sys (Close file) w).2) as (t & Ht' & HP & Hf').
      exists (EvSys (Close file) (sys (Close file) w).1 :: t). repeat split.
      * rewrite Ht', Ht. by rewrite <- app_assoc.
      * by constructor.
      * congruence.
    + unfold close_quitCh. destruct (quitClosed w).
      * apply IH.
      * match goal with |- context [run_deferred ds o ?w1] =>
          destruct (IH o w1) as (t & Ht' & HP & Hf') end.
        exists (EvCloseQuit :: t). repeat split.
        -- rewrite Ht'. cbn. by rewrite <- app_assoc.
        -- by constructor.
        -- by rewrite Hf'.
Qed.

Lemma leave_any (o : Outcome) (w : World) :
  ∃ t, trace (leave o w).2 = trace w ++ t
       ∧ Forall is_closing_event t
       ∧ files (leave o w).2 = files w.
Proof.
  unfold leave.
  match goal with |- context [run_deferred ?ds o ?w0] =>
    destruct (run_deferred_any ds o w0) as (t & Ht & HP & Hf) end.
  exists t. exact (conj Ht (conj HP Hf)).
Qed.

(** Deferred closings of files leave the outcome and [quitCh] alone. *)
Lemma run_deferred_closes (cl tail : list Deferred) (o : Outcome) (w : World) :
  Forall is_DeferClose cl →
  ∃ w', run_deferred (cl ++ tail) o w = run_deferred tail o w'
        ∧ quitClosed w' = quitClosed w.
Proof.
  revert w. induction cl as [|d cl IH]; intros w Hcl; [by exists w|].
  apply Forall_cons in Hcl as [Hd Hcl]. destruct d as [file|]; [|done].
  cbn [app run_deferred]. destruct (IH (sys (Close file) w).2 Hcl) as (w' & -> & Hq).
  exists w'. split; [done|]. rewrite Hq. apply sys_Close.
Qed.

Lemma leave_between_cycles (once : bool) (o : Outcome) (w : World) :
  between_cycles once w →
  (leave o w).1 = o ∧ quitClosed (leave o w).2 = negb once.
Proof.
  intros (Hq & cl & Hd & Hcl). unfold leave. rewrite Hd.
  match goal with |- context [run_deferred _ o ?w0] =>
    destruct (run_deferred_closes cl (if once then [] else [DeferCloseQuit]) o w0 Hcl)
      as (w' & -> & Hq') end.
  cbn in Hq'. destruct once; cbn [run_deferred].
  - split; [done|]. cbn. congruence.
  - unfold close_quitCh. rewrite Hq', Hq. by cbn.
Qed.

Lemma leave_closed (o : Outcome) (w : World) :
  Forall is_DeferClose (deferred w) →
  (leave o w).1 = o ∧ quitClosed (leave o w).2 = quitClosed w.
Proof.
  intros Hcl. unfold leave.
  match goal with |- context [run_deferred _ o ?w0] =>
    destruct (run_deferred_closes (deferred w) [] o w0 Hcl) as (w' & Hrun & Hq') end.
  rewrite app_nil_r in Hrun. rewrite Hrun. cbn. by rewrite Hq'.
Qed.

Lemma extends_between_cycles (P : Event → bool) (once : bool) (w w' : World) :
  extends P w w' → between_cycles once w → between_cycles once w'.
Proof.
  intros (t & cl' & _ & _ & Hd' & Hcl' & Hq') (Hq & cl & Hd & Hcl). split; [congruence|].
  exists (cl' ++ cl). split; [by rewrite Hd', Hd, app_assoc|by apply Forall_app].
Qed.

(** An accepted cycle: the deletions, the assignment of [env], the writes,
    then one of the five endings. *)
Lemma cycle_accepted (config : WatchConfig) (m : MappingConfig)
    (env : option Env) (pairs : list KVPair) (w : World) :
  let newEnv := (build_newEnv (Prefix m) pairs w).1 in
  let wd := delete_keys m env newEnv (build_newEnv (Prefix m) pairs w).2 in
  DeepEqual env (Some newEnv) = false →
  ∃ ww, extends is_write_event (emit (EvSetEnv newEnv) wd) ww
        ∧ keeps_files wd ww
        ∧ cycle_ends config m newEnv ww (cycle config m env pairs w).
Proof.
  intros newEnv wd Hneq. unfold cycle. subst newEnv wd.
  destruct (build_newEnv (Prefix m) pairs w) as [newEnv w0]. cbn [fst snd] in *.
  rewrite Hneq.
  set (w1 := emit (EvSetEnv newEnv) (delete_keys m env newEnv w0)).
  pose proof (write_keys_extends m (range (trace w1) newEnv) w1) as Hext.
  pose proof (write_keys_keeps_files m (range (trace w1) newEnv) w1) as Hkeep.
  destruct (write_keys m (range (trace w1) newEnv) w1) as [ww|msg ww];
    cbn [world_of] in Hext, Hkeep; exists ww; (split; [done|]); (split; [done|]).
  - destruct (OnChange m) as [[|name args]|] eqn:Hcmd.
    + by apply ends_empty_command.
    + destruct (sys (Run (name :: args)) ww) as [[e|] wr] eqn:Hrun.
      * replace wr with (sys (Run (name :: args)) ww).2 by (by rewrite Hrun).
        apply ends_command_failed; [done|by rewrite Hrun].
      * replace wr with (sys (Run (name :: args)) ww).2 by (by rewrite Hrun).
        apply ends_command_ok; [done|by rewrite Hrun].
    + by apply ends_no_command.
  - apply ends_write_panic.
Qed.

(** The end of a cycle: in a single pass [quitCh] is closed and the unit
    returns 0; otherwise the loop goes on. *)
Lemma end_cycle_spec (config : WatchConfig) (env : option Env) (w : World) :
  (RunOnce config = false ∧ end_cycle config env w = Continue (env, w))
  ∨ (RunOnce config = true ∧ ∃ o w', end_cycle config env w = Return (o, w')
       ∧ files w' = files w
       ∧ ∃ t, trace w' = trace w ++ t ∧ Forall is_closing_event t).
Proof.
  unfold end_cycle. destruct (RunOnce config); [right|by left]. split; [done|].
  unfold close_quitCh. destruct (quitClosed w).
  - destruct (leave_any (Panicked "close of closed channel") w) as (t & Ht & HP & Hf).
    destruct (leave _ w) as [o w']. cbn [snd] in *. by eauto 10.
  - match goal with |- context [leave ?o ?w1] =>
      destruct (leave_any o w1) as (t & Ht & HP & Hf); destruct (leave o w1) as [o' w'] end.
    cbn [snd] in *.
    exists o', w'. repeat split; [done|]. exists (EvCloseQuit :: t). split.
    + rewrite Ht. cbn. by rewrite <- app_assoc.
    + by constructor.
Qed.

End Phases.

(** ** An accepted cycle, from its trace *)

Lemma closing_is_final (t : list Event) : Forall is_closing_event t → Forall is_final_event t.
Proof. intros Ht. eapply Forall_impl; [exact Ht|]. by intros [[]| | | |]. Qed.

Lemma end_cycle_trace `{Collaborators} (config : WatchConfig) (env : option Env) (w : World) :
  ∃ rest, trace (after (end_cycle config env w)) = trace w ++ rest
          ∧ Forall is_closing_event rest
          ∧ files (after (end_cycle config env w)) = files w
          ∧ ∀ env' w', end_cycle config env w = Continue (env', w') → env' = env.
Proof.
  destruct (end_cycle_spec config env w)
    as [[_ ->]|(_ & o & w' & -> & Hf & t & Ht & HP)].
  - exists []. cbn. rewrite app_nil_r. repeat split; try done. by intros ?? [= <- _].
  - exists t. cbn. repeat split; done.
Qed.

(** What the end of an accepted cycle adds to the trace: the run of the
    command, if any, and what returning closes. It changes no file. *)
Lemma cycle_ends_trace `{Collaborators} (config : WatchConfig) (m : MappingConfig) (newEnv : Env)
    (ww : World) (r : LoopStep (option Env * World) (Outcome * World)) :
  cycle_ends config m newEnv ww r →
  ∃ rest, trace (after r) = trace ww ++ rest
          ∧ Forall is_final_event rest
          ∧ files (after r) = files ww
          ∧ ∀ env' w', r = Continue (env', w') → env' = Some newEnv.
Proof.
  intros [msg|Hcmd|Hcmd|argv e Hcmd Hrun|argv Hcmd Hrun].
  - destruct (leave_any (Panicked msg) ww) as (t & Ht & HP & Hf).
    destruct (leave _ ww) as [o w']. exists t. cbn in *.
    repeat split; try done. by apply closing_is_final.
  - destruct (end_cycle_trace config (Some newEnv) ww) as (t & Ht & HP & Hf & Henv).
    exists t. repeat split; try done. by apply closing_is_final.
  - destruct (leave_any (Panicked "index out of range") ww) as (t & Ht & HP & Hf).
    destruct (leave _ ww) as [o w']. exists t. cbn in *.
    repeat split; try done. by apply closing_is_final.
  - pose proof (sys_trace (Run argv) ww) as Htr. pose proof (sys_files (Run argv) ww) as Hfs.
    rewrite Hrun in Htr, Hfs.
    destruct (leave_any (Returned 111 (Some e)) (sys (Run argv) ww).2) as (t & Ht & HP & Hf).
    destruct (leave _ (sys (Run argv) ww).2) as [o w']. cbn [after snd] in *.
    exists (EvSys (Run argv) (Some e) :: t). repeat split; try done.
    + rewrite Ht, Htr. by rewrite <- app_assoc.
    + constructor; [done|]. by apply closing_is_final.
    + congruence.
  - pose proof (sys_trace (Run argv) ww) as Htr. pose proof (sys_files (Run argv) ww) as Hfs.
    rewrite Hrun in Htr, Hfs.
    destruct (end_cycle_trace config (Some newEnv) (sys (Run argv) ww).2)
      as (t & Ht & HP & Hf & Henv).
    exists (EvSys (Run argv) None :: t). repeat split; try done.
    + rewrite Ht, Htr. by rewrite <- app_assoc.
    + constructor; [done|]. by apply closing_is_final.
    + congruence.
Qed.

(** C6 (as the code has it): in an accepted cycle the stored Environment is replaced by
    the candidate exactly once, after every removal and before every
    directory creation, file creation, transform and write of the cycle;
    whatever these operations answer, a cycle after which the loop goes on
    leaves the candidate as the Environment to compare with. *)
Theorem env_replaced_after_deletes_before_writes `{Collaborators}
    (config : WatchConfig) (m : MappingConfig)
    (env : option Env) (pairs : list KVPair) (w : World) :
  let newEnv := (build_newEnv (Prefix m) pairs w).1 in
  DeepEqual env (Some newEnv) = false →
  ∃ logs dels writes rest,
    trace (after (cycle config m env pairs w))
    = trace w ++ logs ++ dels ++ [EvSetEnv newEnv] ++ writes ++ rest
    ∧ Forall is_log logs
    ∧ Forall is_delete_event dels
    ∧ Forall is_write_event writes
    ∧ Forall is_final_event rest
    ∧ ∀ env' w', cycle config m env pairs w = Continue (env', w') → env' = Some newEnv.
Proof.
  intros newEnv Hneq.
  destruct (cycle_accepted config m env pairs w Hneq) as (ww & Hww & _ & Hends).
  fold newEnv in Hww, Hends.
  destruct (cycle_ends_trace _ _ _ _ _ Hends) as (rest & Hrest & HPrest & _ & Henv).
  destruct Hww as (writes & cl & Hwrites & HPwrites & _).
  destruct (delete_keys_extends m env newEnv (build_newEnv (Prefix m) pairs w).2)
    as (dels & ? & Hdels & HPdels & _).
  destruct (build_newEnv_extends (Prefix m) pairs w) as (logs & ? & Hlogs & HPlogs & _).
  exists logs, dels, writes, rest. repeat split; try done.
  rewrite Hrest, Hwrites. cbn [emit trace]. rewrite Hdels, Hlogs.
  by rewrite <- !app_assoc.
Qed.

Lemma env_replaced_after_deletes_before_writes_witness :
  ∃ logs dels writes rest,
    trace (after (@cycle Sample.quiet (Sample.config false) Sample.mapping
                    None Sample.smaller Sample.world))
    = trace Sample.world ++ logs ++ dels
      ++ [EvSetEnv (build_newEnv "a" Sample.smaller Sample.world).1] ++ writes ++ rest
    ∧ Forall is_log logs
    ∧ Forall is_delete_event dels
    ∧ Forall is_write_event writes
    ∧ Forall is_final_event rest
    ∧ ∀ env' w',
        @cycle Sample.quiet (Sample.config false) Sample.mapping
          None Sample.smaller Sample.world = Continue (env', w') →
        env' = Some (build_newEnv "a" Sample.smaller Sample.world).1.
Proof.
  apply (@env_replaced_after_deletes_before_writes Sample.quiet
           (Sample.config false) Sample.mapping None Sample.smaller Sample.world).
  reflexivity.
Defined.

(** C6 (counterexample): the first snapshot [a/b = 1] on a quiet host.
    The assignment of [env] comes before the creation and the write of
    [/out/b], not after them. *)
Lemma env_replaced_before_the_writes :
  trace (after (@cycle Sample.quiet (Sample.config false) Sample.mapping
                  None Sample.smaller Sample.world))
  = [ EvLog DebugLevel "Key present in source";
      EvSetEnv {[ "b" := "1" ]};
      EvSys (Mkdirp "/out") None;
      EvSys (Create "/out/b") None;
      EvLog DebugLevel "Input value length";
      EvSys (Write "/out/b" "1") None;
      EvLog DebugLevel "Successfully wrote value to file";
      EvSys (Sync "/out/b") None;
      EvSys (Close "/out/b") None;
      EvSys (Run ["reload"]) None ].
Proof. vm_compute. reflexivity. Qed.


(** ** Deletions *)

(** The keys the loop over [env] removes are the keys of [env] that are
    missing from [newEnv], each once. *)
Lemma deleted_keys `{Collaborators} (tr : list Event) (cur newEnv : Env) :
  range_enumerates →
  filter (λ k, newEnv !! k = None) (range tr cur).*1 ≡ₚ elements (dom cur ∖ dom newEnv).
Proof.
  intros Hrange.
  assert ((range tr cur).*1 ≡ₚ (map_to_list cur).*1) as Hperm by (by rewrite (Hrange tr cur)).
  apply NoDup_Permutation.
  - apply NoDup_filter. rewrite Hperm. apply NoDup_fst_map_to_list.
  - apply NoDup_elements.
  - intros k. rewrite list_elem_of_filter, Hperm, elem_of_elements, elem_of_difference.
    rewrite !elem_of_dom, list_elem_of_fmap. split.
    + intros [Hnone ([k' v] & -> & Hin)]. apply elem_of_map_to_list in Hin.
      cbn in *. split; [by exists v|]. rewrite Hnone. by intros [? ?].
    + intros [[v Hv] Hnone]. split.
      * by apply eq_None_not_Some.
      * exists (k, v). split; [done|]. by apply elem_of_map_to_list.
Qed.

Lemma delete_keys_spec `{Collaborators}
    (m : MappingConfig) (env : option Env) (newEnv : Env) (w : World) :
  range_enumerates →
  ∃ deleted errs,
    deleted ≡ₚ elements (dom (default (∅ : Env) env) ∖ dom newEnv)
    ∧ length errs = length deleted
    ∧ trace (delete_keys m env newEnv w)
      = trace w ++ concat (zip_with removal_events (keyfile (Path m) <$> deleted) errs)
    ∧ ∀ file, file ∉ keyfile (Path m) <$> deleted →
              files (delete_keys m env newEnv w) !! file = files w !! file.
Proof.
  intros Hrange. destruct env as [cur|]; cbn [delete_keys default].
  - destruct (delete_fold m newEnv (range (trace w) cur).*1 w) as (errs & Hlen & Ht & _ & _ & Hf).
    eexists _, errs. split; [by apply deleted_keys|]. by repeat split.
  - exists [], []. rewrite dom_empty_L, difference_disjoint_L by set_solver.
    rewrite elements_empty. cbn. by rewrite app_nil_r.
Qed.

(** ** Snapshots that change nothing *)

Lemma DeepEqual_true (env : option Env) (newEnv : Env) :
  DeepEqual env (Some newEnv) = true ↔ env = Some newEnv.
Proof.
  destruct env as [e|]; cbn; [|done]. rewrite bool_decide_eq_true.
  split; [by intros ->|by intros [= ->]].
Qed.

Lemma cycle_discards `{Collaborators} (config : WatchConfig) (m : MappingConfig)
    (env : option Env) (pairs : list KVPair) (w : World) :
  DeepEqual env (Some (build_newEnv (Prefix m) pairs w).1) = true →
  cycle config m env pairs w = Continue (env, (build_newEnv (Prefix m) pairs w).2).
Proof.
  intros Heq. unfold cycle. destruct (build_newEnv (Prefix m) pairs w) as [newEnv w0].
  cbn [fst snd] in *. by rewrite Heq.
Qed.

(** C3 (as the code has it): in a Reconciler that holds an Environment, a snapshot
    whose candidate Environment equals it is discarded: no file is touched,
    nothing is deferred, no transform and no command runs, only the line
    logged for each received pair is added; and when a snapshot has been
    processed and the loop goes on, the same snapshot delivered again is
    discarded in this way. *)
Theorem equal_snapshot_is_discarded `{Collaborators}
    (config : WatchConfig) (m : MappingConfig) (pairs : list KVPair) :
  (∀ cur w,
     (build_newEnv (Prefix m) pairs w).1 = cur →
     ∃ w', cycle config m (Some cur) pairs w = Continue (Some cur, w')
           ∧ only_logged (length pairs) w w')
  ∧ (∀ env w env1 w1,
       cycle config m env pairs w = Continue (env1, w1) →
       ∃ w2, cycle config m env1 pairs w1 = Continue (env1, w2)
             ∧ only_logged (length pairs) w1 w2).
Proof.
  assert (∀ cur w, (build_newEnv (Prefix m) pairs w).1 = cur →
            ∃ w', cycle config m (Some cur) pairs w = Continue (Some cur, w')
                  ∧ only_logged (length pairs) w w') as Hsame.
  { intros cur w Hcur. exists (build_newEnv (Prefix m) pairs w).2. split.
    - apply cycle_discards. rewrite Hcur. by apply DeepEqual_true.
    - apply build_newEnv_world. }
  split; [exact Hsame|].
  intros env w env1 w1 Hfirst.
  assert (env1 = Some (build_newEnv (Prefix m) pairs w).1) as ->.
  { destruct (DeepEqual env (Some (build_newEnv (Prefix m) pairs w).1)) eqn:Heq.
    - rewrite (cycle_discards _ _ _ _ _ Heq) in Hfirst.
      apply DeepEqual_true in Heq. congruence.
    - destruct (cycle_accepted config m env pairs w Heq) as (ww & _ & _ & Hends).
      destruct (cycle_ends_trace _ _ _ _ _ Hends) as (_ & _ & _ & _ & Henv).
      by apply (Henv _ w1). }
  apply Hsame. apply build_newEnv_env.
Qed.

Lemma equal_snapshot_is_discarded_witness :
  ∃ w', @cycle Sample.quiet (Sample.config false) Sample.mapping
          (Some Sample.current) Sample.snapshot Sample.synced
        = Continue (Some Sample.current, w')
        ∧ only_logged 2 Sample.synced w'.
Proof.
  apply (proj1 (@equal_snapshot_is_discarded Sample.quiet (Sample.config false)
                  Sample.mapping Sample.snapshot)).
  vm_compute. reflexivity.
Defined.

(** C3 (counterexample): a Reconciler that has just started holds no
    Environment (a nil map). An empty first snapshot gives the empty
    candidate Environment, which is not discarded: [env] is assigned and the
    on-change command is run. *)
Lemma empty_first_snapshot_runs_the_command :
  (build_newEnv (Prefix Sample.mapping) [] Sample.world).1 = ∅
  ∧ trace (after (@cycle Sample.quiet (Sample.config false) Sample.mapping
                    None [] Sample.world))
    = [EvSetEnv ∅; EvSys (Run ["reload"]) None].
Proof. split; vm_compute; reflexivity. Qed.

(** ** A failing on-change command *)

Lemma extends_no_failed_run (P : Event → bool) (w w' : World) :
  (∀ e, P e → ¬ is_failed_run e) →
  extends P w w' → no_failed_run (trace w) → no_failed_run (trace w').
Proof.
  intros HP (t & _ & -> & Ht & _) Hw. apply Forall_app. split; [done|].
  eapply Forall_impl; [exact Ht|]. exact HP.
Qed.

Lemma closings_no_failed_run (tr t : list Event) :
  no_failed_run tr → Forall is_closing_event t → no_failed_run (tr ++ t).
Proof.
  intros Htr Ht. apply Forall_app. split; [done|].
  eapply Forall_impl; [exact Ht|]. intros [[]| | | |] Hc Hr; cbn in *; done.
Qed.

Lemma no_failed_run_elem (tr : list Event) (argv : list string) (e : error) :
  no_failed_run tr → EvSys (Run argv) (Some e) ∈ tr → False.
Proof.
  intros Htr Hin. unfold no_failed_run in Htr. rewrite Forall_forall in Htr.
  by apply (Htr _ Hin).
Qed.

(** The world in which the on-change command of an accepted cycle runs:
    the unit is still between cycles there and no command has failed. *)
Lemma cycle_reaches_command `{Collaborators} (m : MappingConfig)
    (env : option Env) (pairs : list KVPair) (w ww : World) (once : bool) :
  let newEnv := (build_newEnv (Prefix m) pairs w).1 in
  extends is_write_event
    (emit (EvSetEnv newEnv) (delete_keys m env newEnv (build_newEnv (Prefix m) pairs w).2)) ww →
  between_cycles once w → no_failed_run (trace w) →
  between_cycles once ww ∧ no_failed_run (trace ww).
Proof.
  intros newEnv Hww Hinv Hno.
  pose proof (build_newEnv_extends (Prefix m) pairs w) as H0.
  pose proof (delete_keys_extends m env newEnv (build_newEnv (Prefix m) pairs w).2) as Hd.
  set (wd := delete_keys m env newEnv (build_newEnv (Prefix m) pairs w).2) in *.
  assert (extends (λ e, negb (is_failed_run e)) w ww) as Hall.
  { eapply extends_trans; [eapply extends_mono; [|exact H0]; by intros [[] [|]| | | |]|].
    eapply extends_trans; [eapply extends_mono; [|exact Hd]; by intros [[] [|]| | | |]|].
    eapply extends_trans; [apply (extends_emit _ (EvSetEnv newEnv)); done|].
    eapply extends_mono; [|exact Hww]. by intros [[] [|]| | | |]. }
  split.
  - by eapply extends_between_cycles.
  - eapply extends_no_failed_run; [|exact Hall|exact Hno].
    intros e He Hf. cbn beta in He. destruct (is_failed_run e); cbn in *; done.
Qed.

Lemma sys_between_cycles `{Collaborators} (c : SysCall) (w : World) (once : bool) :
  between_cycles once w → between_cycles once (sys c w).2.
Proof.
  apply (extends_between_cycles (λ _, true)). by apply extends_sys.
Qed.

(** The loop of the Reconciler, from a state between two cycles in which no
    command has failed: a failed run of the command in the final trace is
    the last thing the Reconciler did before returning 111 with the error
    of that run. *)
Lemma reconcile_failed_run `{Collaborators} (config : WatchConfig) (m : MappingConfig)
    (ds : list Delivery) (env : option Env) (w : World)
    (argv : list string) (e : error) :
  between_cycles (RunOnce config) w →
  no_failed_run (trace w) →
  EvSys (Run argv) (Some e) ∈ trace (reconcile config m env ds w).2 →
  (reconcile config m env ds w).1 = Returned 111 (Some e)
  ∧ quitClosed (reconcile config m env ds w).2 = negb (RunOnce config)
  ∧ ∃ before closings,
      trace (reconcile config m env ds w).2
      = before ++ EvSys (Run argv) (Some e) :: closings
      ∧ no_failed_run before
      ∧ Forall is_closing_event closings.
Proof.
  revert env w. induction ds as [|d ds IH]; intros env w Hinv Hno Hin.
  { by destruct (no_failed_run_elem _ _ _ Hno Hin). }
  destruct d as [pairs|err]; cbn [reconcile] in *.
  2:{ destruct (leave_any (Returned 0 (Some err)) w) as (t & Ht & HP & _).
      rewrite Ht in Hin.
      by destruct (no_failed_run_elem _ _ _ (closings_no_failed_run _ _ Hno HP) Hin). }
  destruct (DeepEqual env (Some (build_newEnv (Prefix m) pairs w).1)) eqn:Heq.
  { rewrite (cycle_discards _ _ _ _ _ Heq) in *.
    pose proof (build_newEnv_extends (Prefix m) pairs w) as H0.
    apply IH; [by eapply extends_between_cycles| |done].
    eapply extends_no_failed_run; [|exact H0|exact Hno].
    intros [[] [|]| | | |] Hl Hf; cbn in *; done. }
  destruct (cycle_accepted config m env pairs w Heq) as (ww & Hww & _ & Hends).
  destruct (cycle_reaches_command m env pairs w ww (RunOnce config) Hww Hinv Hno)
    as [Hinvw Hnow].
  assert (∀ o, EvSys (Run argv) (Some e) ∈ trace (leave o ww).2 → False) as Hleave.
  { intros o Ho. destruct (leave_any o ww) as (t & Ht & HP & _). rewrite Ht in Ho.
    by destruct (no_failed_run_elem _ _ _ (closings_no_failed_run _ _ Hnow HP) Ho). }
  assert (∀ wr, between_cycles (RunOnce config) wr → no_failed_run (trace wr) →
            EvSys (Run argv) (Some e)
              ∈ trace (match end_cycle config (Some (build_newEnv (Prefix m) pairs w).1) wr with
                       | Continue (env', w') => reconcile config m env' ds w'
                       | Return r => r
                       end).2 →
            let r := match end_cycle config (Some (build_newEnv (Prefix m) pairs w).1) wr with
                     | Continue (env', w') => reconcile config m env' ds w'
                     | Return r => r
                     end in
            r.1 = Returned 111 (Some e)
            ∧ quitClosed r.2 = negb (RunOnce config)
            ∧ ∃ before closings,
                trace r.2 = before ++ EvSys (Run argv) (Some e) :: closings
                ∧ no_failed_run before
                ∧ Forall is_closing_event closings) as Hend.
  { intros wr Hinvr Hnor.
    destruct (end_cycle_spec config (Some (build_newEnv (Prefix m) pairs w).1) wr)
      as [[_ ->]|(_ & o & w' & -> & _ & t & Ht & HP)].
    - intros Hr. by apply IH.
    - cbn [snd]. rewrite Ht. intros Hr.
      by destruct (no_failed_run_elem _ _ _ (closings_no_failed_run _ _ Hnor HP) Hr). }
  remember (cycle config m env pairs w) as r eqn:Hr. clear Hr.
  destruct Hends as [msg|Hcmd|Hcmd|argv' e' Hcmd Hrun|argv' Hcmd Hrun];
    lazy beta iota in Hin |- *.
  - by destruct (Hleave _ Hin).
  - by apply Hend.
  - by destruct (Hleave _ Hin).
  - pose proof (sys_trace (Run argv') ww) as Htr. rewrite Hrun in Htr.
    pose proof (sys_between_cycles (Run argv') ww _ Hinvw) as Hinvr.
    destruct (leave_between_cycles _ (Returned 111 (Some e')) _ Hinvr) as [Ho Hq].
    destruct (leave_any (Returned 111 (Some e')) (sys (Run argv') ww).2) as (t & Ht & HP & _).
    rewrite Ht, Htr, <- app_assoc in Hin. cbn [app] in Hin.
    apply elem_of_app in Hin as [Hin|Hin].
    { by destruct (no_failed_run_elem _ _ _ Hnow Hin). }
    apply elem_of_cons in Hin as [[= -> ->]|Hin].
    + split; [done|]. split; [done|]. exists (trace ww), t.
      rewrite Ht, Htr, <- app_assoc. by repeat split.
    + exfalso. rewrite Forall_forall in HP. by pose proof (HP _ Hin).
  - pose proof (sys_trace (Run argv') ww) as Htr. rewrite Hrun in Htr.
    apply Hend; [by apply sys_between_cycles| |done].
    rewrite Htr. apply Forall_app. split; [done|]. apply Forall_singleton. by intros [].
Qed.

(** Returning runs the deferred calls: the outcome is kept, unless closing
    [quitCh] twice panics. *)
Lemma run_deferred_outcome `{Collaborators} (ds : list Deferred) (o : Outcome) (w : World) :
  (run_deferred ds o w).1 = o ∨ ∃ msg, (run_deferred ds o w).1 = Panicked msg.
Proof.
  revert o w. induction ds as [|d ds IH]; intros o w; [by left|].
  destruct d as [file|]; cbn [run_deferred]; [apply IH|].
  destruct (close_quitCh w) as [w'|msg w']; [apply IH|].
  right. destruct (IH (Panicked msg) w') as [->|Hp]; eauto.
Qed.

Lemma leave_returned `{Collaborators} (o : Outcome) (w : World) (c : Z) (err : option error) :
  (leave o w).1 = Returned c err → o = Returned c err.
Proof.
  unfold leave. intros Hr.
  match type of Hr with (run_deferred ?ds o ?w0).1 = _ =>
    destruct (run_deferred_outcome ds o w0) as [Ho|[msg Ho]] end; congruence.
Qed.

(** The loop of the Reconciler returns no other code than 0 and 111, and
    111 only with the error of a failed run of the command. *)
Lemma reconcile_nonzero `{Collaborators} (config : WatchConfig) (m : MappingConfig)
    (ds : list Delivery) (env : option Env) (w : World) (c : Z) (err : option error) :
  (reconcile config m env ds w).1 = Returned c err →
  c ≠ 0%Z →
  c = 111%Z ∧ ∃ argv e, err = Some e
                        ∧ EvSys (Run argv) (Some e) ∈ trace (reconcile config m env ds w).2.
Proof.
  revert env w. induction ds as [|d ds IH]; intros env w Hret Hc; [done|].
  destruct d as [pairs|e0]; cbn [reconcile] in *.
  2:{ apply leave_returned in Hret. congruence. }
  destruct (DeepEqual env (Some (build_newEnv (Prefix m) pairs w).1)) eqn:Heq.
  { rewrite (cycle_discards _ _ _ _ _ Heq) in *. by apply IH. }
  destruct (cycle_accepted config m env pairs w Heq) as (ww & _ & _ & Hends).
  assert (∀ wr,
            let r := match end_cycle config (Some (build_newEnv (Prefix m) pairs w).1) wr with
                     | Continue (env', w') => reconcile config m env' ds w'
                     | Return r => r
                     end in
            r.1 = Returned c err →
            c = 111%Z ∧ ∃ argv e, err = Some e ∧ EvSys (Run argv) (Some e) ∈ trace r.2) as Hend.
  { intros wr. unfold end_cycle.
    destruct (RunOnce config); [|lazy beta iota zeta; intros Hr; by apply IH].
    destruct (close_quitCh wr) as [w'|msg w']; lazy beta iota zeta;
      intros Hr; apply leave_returned in Hr; congruence. }
  remember (cycle config m env pairs w) as r eqn:Hr. clear Hr.
  destruct Hends as [msg|Hcmd|Hcmd|argv' e' Hcmd Hrun|argv' Hcmd Hrun];
    lazy beta iota in Hret |- *.
  - apply leave_returned in Hret. congruence.
  - by apply Hend.
  - apply leave_returned in Hret. congruence.
  - apply leave_returned in Hret. injection Hret as <- <-. split; [done|].
    exists argv', e'. split; [done|].
    destruct (leave_any (Returned 111 (Some e')) (sys (Run argv') ww).2) as (t & -> & _).
    rewrite sys_trace, Hrun. apply elem_of_app. left. apply elem_of_app. right.
    apply list_elem_of_here.
  - by apply Hend.
Qed.

(** C4 (code bug): when the on-change command of a mapping fails, the
    Reconciler does nothing more than return: its unit reports the code 111
    with the error of the command, in both modes, and a unit returns no
    other nonzero code. In continuous mode the return closes [quitCh],
    which signals the Watcher to stop. In run-once mode the return comes
    before the only closing of [quitCh]: the channel is still open when
    the unit has returned, and the Watcher is not signaled. *)
Theorem failed_command_returns_111 `{Collaborators}
    (config : WatchConfig) (m : MappingConfig)
    (fuel : nat) (store : list ListResult) (w : World) :
  no_failed_run (trace w) →
  (∀ argv e,
     EvSys (Run argv) (Some e) ∈ trace (watchMappingAndExec config m fuel store w).2 →
     (watchMappingAndExec config m fuel store w).1 = Returned 111 (Some e)
     ∧ quitClosed (watchMappingAndExec config m fuel store w).2 = negb (RunOnce config)
     ∧ ∃ before closings,
         trace (watchMappingAndExec config m fuel store w).2
         = before ++ EvSys (Run argv) (Some e) :: closings
         ∧ no_failed_run before
         ∧ Forall is_closing_event closings)
  ∧ (∀ c err,
       (watchMappingAndExec config m fuel store w).1 = Returned c err →
       c ≠ 0%Z →
       c = 111%Z
       ∧ ∃ argv e, err = Some e
                   ∧ EvSys (Run argv) (Some e)
                       ∈ trace (watchMappingAndExec config m fuel store w).2).
Proof.
  intros Hno. unfold watchMappingAndExec.
  destruct (buildConsulClient (Consul config)) as [err0|].
  { split; [|by intros c err [= <- _]].
    intros argv e Hin. by destruct (no_failed_run_elem _ _ _ Hno Hin). }
  destruct (normalize m) as [m'|].
  2:{ split; [|done]. intros argv e Hin. by destruct (no_failed_run_elem _ _ _ Hno Hin). }
  split.
  - intros argv e. apply reconcile_failed_run.
    + destruct (RunOnce config); (split; [done|]); by exists [].
    + by destruct (RunOnce config).
  - intros c err. apply reconcile_nonzero.
Qed.

Lemma failed_command_returns_111_witness :
  let r := @watchMappingAndExec Sample.failing_command (Sample.config true) Sample.mapping 1
             [ListOk Sample.smaller {| LastIndex := 7 |}] Sample.world in
  r.1 = Returned 111 (Some "exit status 1")
  ∧ quitClosed r.2 = negb (RunOnce (Sample.config true))
  ∧ ∃ before closings,
      trace r.2 = before ++ EvSys (Run ["reload"]) (Some "exit status 1") :: closings
      ∧ no_failed_run before
      ∧ Forall is_closing_event closings.
Proof.
  apply (proj1 (@failed_command_returns_111 Sample.failing_command (Sample.config true)
                  Sample.mapping 1 [ListOk Sample.smaller {| LastIndex := 7 |}] Sample.world
                  (Forall_nil_2 _)) ["reload"] "exit status 1").
  apply (list_elem_of_lookup_2 _ 9). vm_compute. reflexivity.
Defined.

(** C4 (the failing input): in run-once mode, on a host where the command
    exits nonzero, the unit returns 111 and [quitCh] is never closed: the
    Watcher is not signaled. *)
Lemma failed_command_in_run_once_leaves_quitCh_open :
  let r := @watchMappingAndExec Sample.failing_command (Sample.config true) Sample.mapping 1
             [ListOk Sample.smaller {| LastIndex := 7 |}] Sample.world in
  r.1 = Returned 111 (Some "exit status 1")
  ∧ quitClosed r.2 = false
  ∧ trace r.2
    = [ EvLog DebugLevel "Key present in source";
        EvSetEnv {[ "b" := "1" ]};
        EvSys (Mkdirp "/out") None;
        EvSys (Create "/out/b") None;
        EvLog DebugLevel "Input value length";
        EvSys (Write "/out/b" "1") None;
        EvLog DebugLevel "Successfully wrote value to file";
        EvSys (Sync "/out/b") None;
        EvSys (Close "/out/b") None;
        EvSys (Run ["reload"]) (Some "exit status 1");
        EvSys (Close "/out/b") None ].
Proof. repeat split; vm_compute; reflexivity. Qed.

(** ** The first read of the Watcher *)

(** When the first answer of the store is an error, the Watcher sends it on
    [errCh] and returns; it reads nothing more. *)
Lemma watch_first_read_error (quit_seen : nat → bool) (prefix path token : string)
    (fuel : nat) (e : error) (rest : list ListResult) :
  watch quit_seen prefix path token fuel {| answers := ListErr e :: rest; wtrace := [] |}
  = (WReturned,
     {| answers := rest;
        wtrace := [WMkdirp path; WList prefix 0 token; WSendErr e] |}).
Proof. reflexivity. Qed.

Lemma first_read_error_unit `{Collaborators} (config : WatchConfig) (m : MappingConfig)
    (fuel : nat) (e : error) (rest : list ListResult) (w : World) :
  buildConsulClient (Consul config) = None →
  Prefix m ≠ "" → Path m ≠ "" →
  (watchMappingAndExec config m fuel (ListErr e :: rest) w).1 = Returned 0 (Some e)
  ∧ files (watchMappingAndExec config m fuel (ListErr e :: rest) w).2 = files w
  ∧ trace (watchMappingAndExec config m fuel (ListErr e :: rest) w).2
    = trace w ++ (if RunOnce config then [] else [EvCloseQuit]).
Proof.
  intros Hclient Hpre Hpath. unfold watchMappingAndExec. rewrite Hclient.
  destruct (normalize_ok m Hpre Hpath) as (m' & -> & _).
  rewrite watch_first_read_error. cbn [snd wtrace deliveries omap delivery_of reconcile].
  destruct (RunOnce config); cbn; by rewrite ?app_nil_r.
Qed.

(** ** The Mapping Supervisor *)

Lemma wait_all_short (n : nat) (returnCodes : list Z) (failures : bool) :
  length returnCodes < n → wait_all n returnCodes failures = None.
Proof.
  revert returnCodes failures. induction n as [|n IH]; intros codes failures Hlen; [lia|].
  destruct codes as [|c codes]; [done|]. cbn in *. apply IH. lia.
Qed.

Lemma wait_all_complete (returnCodes : list Z) (failures : bool) :
  wait_all (length returnCodes) returnCodes failures
  = Some (if decide (Forall (λ c, c = 0%Z) returnCodes) then failures else true).
Proof.
  revert failures. induction returnCodes as [|c codes IH]; intros failures; [done|].
  cbn [length wait_all]. rewrite IH.
  destruct (decide (c ≠ 0%Z)) as [Hc|Hc].
  - destruct (decide (Forall (λ c0, c0 = 0%Z) (c :: codes))) as [Hall|_].
    { by inversion Hall. }
    by destruct (decide (Forall (λ c0, c0 = 0%Z) codes)).
  - apply dec_stable in Hc. subst c.
    destruct (decide (Forall (λ c0, c0 = 0%Z) codes)) as [H1|H1];
      destruct (decide (Forall (λ c0, c0 = 0%Z) (0%Z :: codes))) as [H2|H2]; try done.
    + destruct H2. by constructor.
    + by inversion H2.
Qed.

Lemma sent_codes_all (outs : list Outcome) :
  Forall (λ o, is_Some (sent_code o)) outs →
  length (omap sent_code outs) = length outs
  ∧ (Forall (λ c, c = 0%Z) (omap sent_code outs)
     ↔ Forall (λ o, sent_code o = Some 0%Z) outs).
Proof.
  induction 1 as [|o outs [c Hc] _ [IHlen IH]]; [done|]. cbn. rewrite Hc. cbn. split; [lia|].
  rewrite !Forall_cons, IH, Hc. split; intros [? ?]; split; congruence.
Qed.

Lemma sent_codes_at_most (outs : list Outcome) :
  (length (omap sent_code outs) <= length outs)%nat.
Proof.
  induction outs as [|o outs IH]; [done|]. cbn. destruct (sent_code o); cbn; lia.
Qed.

Lemma sent_codes_missing (outs : list Outcome) :
  ¬ Forall (λ o, is_Some (sent_code o)) outs →
  length (omap sent_code outs) < length outs.
Proof.
  induction outs as [|o outs IH]; intros Hnot; [by destruct Hnot|].
  pose proof (sent_codes_at_most outs) as Hle. cbn.
  destruct (sent_code o) as [c|] eqn:Hc; cbn; [|lia].
  assert (length (omap sent_code outs) < length outs); [|lia].
  apply IH. intros Hall. apply Hnot. constructor; [by rewrite Hc|done].
Qed.

Lemma panicked_sends_nothing (outs : list Outcome) :
  existsb panicked outs = true → ¬ Forall (λ o, is_Some (sent_code o)) outs.
Proof.
  intros Hex Hall. apply existsb_exists in Hex as (o & Hin & Ho).
  apply list_elem_of_In in Hin. rewrite Forall_forall in Hall.
  destruct (Hall _ Hin) as [c Hc]. by destruct o.
Qed.

Lemma sent_code_Returned (o : Outcome) (c : Z) :
  sent_code o = Some c ↔ ∃ err, o = Returned c err.
Proof.
  destruct o as [code err| |]; cbn; split; try done.
  - intros [= ->]. by eexists.
  - by intros [err' [= -> _]].
  - by intros [err' ?].
  - by intros [err' ?].
Qed.

Lemma sent_Returned (o : Outcome) :
  is_Some (sent_code o) ↔ ∃ code err, o = Returned code err.
Proof.
  split.
  - intros [c Hc]. apply sent_code_Returned in Hc as [err ->]. by eexists _, _.
  - intros (code & err & ->). by eexists.
Qed.

(** What [watchAndExec] returns, from the outcomes of the units. *)
Lemma watchAndExec_exit `{Collaborators}
    (config : WatchConfig) (fuel : nat) (input : nat → list ListResult * World) :
  schedule_fair →
  let outs := (units (applyDefaults config) fuel input).*1 in
  watchAndExec config fuel input
  = if existsb panicked outs then Crashed
    else if decide (Forall (λ o, is_Some (sent_code o)) outs)
         then (if decide (Forall (λ o, sent_code o = Some 0%Z) outs)
               then ExitCode 0 else ExitCode (-1))
         else Blocked.
Proof.
  intros Hfair outs.
  assert (length outs = length (Mappings (applyDefaults config))) as Hlen.
  { unfold outs, units. by rewrite length_fmap, length_imap. }
  unfold watchAndExec. fold outs. rewrite <- Hlen.
  destruct (existsb panicked outs); [done|].
  destruct (decide (Forall (λ o, is_Some (sent_code o)) outs)) as [Hall|Hnot].
  - destruct (sent_codes_all outs Hall) as [Hn Hiff].
    pose proof (Hfair (omap sent_code outs)) as Hperm.
    rewrite <- Hn, <- (Permutation_length Hperm), wait_all_complete.
    assert (Forall (λ c, c = 0%Z) (schedule (omap sent_code outs))
            ↔ Forall (λ o, sent_code o = Some 0%Z) outs) as Hiff'.
    { by rewrite Hperm. }
    destruct (decide (Forall (λ c, c = 0%Z) (schedule (omap sent_code outs)))) as [Hz|Hz];
      destruct (decide (Forall (λ o, sent_code o = Some 0%Z) outs)) as [Hz'|Hz']; try done.
    + by apply Hiff' in Hz.
    + by apply Hiff' in Hz'.
  - rewrite wait_all_short; [done|].
    rewrite (Permutation_length (Hfair _)). by apply sent_codes_missing.
Qed.

Lemma first_read_error_unit_of `{Collaborators} (config : WatchConfig) (m : MappingConfig)
    (fuel : nat) (e : error) (rest : list ListResult) (w : World) :
  buildConsulClient (Consul config) = None →
  Prefix m ≠ "" → Path m ≠ "" →
  (unit_of config m fuel (ListErr e :: rest) w).1 = Returned 0 (Some e)
  ∧ files (unit_of config m fuel (ListErr e :: rest) w).2 = files w
  ∧ trace (unit_of config m fuel (ListErr e :: rest) w).2
    = trace w ++ [EvLog DebugLevel "Got mapping config"]
      ++ (if RunOnce config then [] else [EvCloseQuit])
      ++ [EvLog DebugLevel "Failure from watch function"].
Proof.
  intros Hclient Hpre Hpath. unfold unit_of.
  match goal with |- context [watchMappingAndExec config ?m2 fuel _ ?w2] =>
    destruct (first_read_error_unit config m2 fuel e rest w2 Hclient) as (Ho & Hf & Ht);
      [by destruct (decide (OnChangeRaw m ≠ ""))..|];
    destruct (watchMappingAndExec config m2 fuel (ListErr e :: rest) w2) as [o w'] end.
  cbn [fst snd] in *. subst o. cbn [fst snd log emit trace files] in *.
  rewrite Hf, Ht. split; [done|]. split; [done|]. by rewrite <- !app_assoc.
Qed.

(** C2 (code bug): when the very first read of the prefix fails, the
    Watcher sends the error on the Reconciler's error channel and stops,
    and the unit of the mapping returns at once with that error, writing
    and removing no file. The code it returns with the error is 0: the
    unit logs the failure and sends 0 to the Supervisor, and when the first
    read of every mapping fails [watchAndExec] returns 0, the code of a
    run without failure. *)
Theorem first_read_error_returns_code_zero `{Collaborators}
    (config : WatchConfig) (m : MappingConfig)
    (fuel : nat) (e : error) (rest : list ListResult) (w : World) :
  buildConsulClient (Consul (applyDefaults config)) = None →
  Prefix m ≠ "" → Path m ≠ "" →
  (∀ prefix path token,
     watch quit_seen prefix path token fuel {| answers := ListErr e :: rest; wtrace := [] |}
     = (WReturned,
        {| answers := rest;
           wtrace := [WMkdirp path; WList prefix 0 token; WSendErr e] |}))
  ∧ (watchMappingAndExec (applyDefaults config) m fuel (ListErr e :: rest) w).1
    = Returned 0 (Some e)
  ∧ files (watchMappingAndExec (applyDefaults config) m fuel (ListErr e :: rest) w).2 = files w
  ∧ trace (watchMappingAndExec (applyDefaults config) m fuel (ListErr e :: rest) w).2
    = trace w ++ (if RunOnce config then [] else [EvCloseQuit])
  ∧ (unit_of (applyDefaults config) m fuel (ListErr e :: rest) w).1 = Returned 0 (Some e)
  ∧ trace (unit_of (applyDefaults config) m fuel (ListErr e :: rest) w).2
    = trace w ++ [EvLog DebugLevel "Got mapping config"]
      ++ (if RunOnce config then [] else [EvCloseQuit])
      ++ [EvLog DebugLevel "Failure from watch function"]
  ∧ (∀ input,
       schedule_fair →
       Forall (λ m', Prefix m' ≠ "" ∧ Path m' ≠ "") (Mappings config) →
       (∀ i, i < length (Mappings config) → ∃ e' rest', (input i).1 = ListErr e' :: rest') →
       watchAndExec config fuel input = ExitCode 0).
Proof.
  intros Hclient Hpre Hpath.
  assert (RunOnce (applyDefaults config) = RunOnce config
          ∧ Mappings (applyDefaults config) = Mappings config) as [Honce Hmaps].
  { unfold applyDefaults. by destruct (decide _). }
  split; [intros; apply watch_first_read_error|].
  destruct (first_read_error_unit (applyDefaults config) m fuel e rest w Hclient Hpre Hpath)
    as (Ho & Hf & Ht).
  destruct (first_read_error_unit_of (applyDefaults config) m fuel e rest w Hclient Hpre Hpath)
    as (Ho' & _ & Ht').
  rewrite Honce in Ht, Ht'. do 5 (split; [done|]).
  intros input Hfair Hall Hrefused.
  assert (Forall (λ o, ∃ e', o = Returned 0 (Some e'))
            (units (applyDefaults config) fuel input).*1) as Houts.
  { apply Forall_forall. intros o Hin.
    apply list_elem_of_fmap in Hin as ([o' w'] & -> & Hin).
    apply list_elem_of_lookup in Hin as [i Hi]. unfold units in Hi.
    rewrite list_lookup_imap, Hmaps in Hi.
    destruct (Mappings config !! i) as [m'|] eqn:Hm'; [|done]. injection Hi as Hi.
    destruct (Hrefused i) as (e' & rest' & Hin'); [by eapply lookup_lt_Some|].
    rewrite Forall_forall in Hall.
    destruct (Hall m') as [Hpre' Hpath']; [by eapply list_elem_of_lookup_2|].
    rewrite Hin' in Hi.
    destruct (first_read_error_unit_of (applyDefaults config) m' fuel e' rest' (input i).2
                Hclient Hpre' Hpath') as (Hunit & _).
    rewrite Hi in Hunit. cbn in *. by exists e'. }
  rewrite (watchAndExec_exit config fuel input Hfair).
  set (outs := (units (applyDefaults config) fuel input).*1) in *.
  rewrite Forall_forall in Houts.
  destruct (existsb panicked outs) eqn:Hpanic.
  { apply existsb_exists in Hpanic as (o & Hin & Ho2). apply list_elem_of_In in Hin.
    destruct (Houts o Hin) as [e' ->]. done. }
  destruct (decide (Forall (λ o, is_Some (sent_code o)) outs)) as [_|Hnot].
  2:{ destruct Hnot. apply Forall_forall. intros o Hin. destruct (Houts o Hin) as [e' ->].
      by eexists. }
  destruct (decide (Forall (λ o, sent_code o = Some 0%Z) outs)) as [_|Hnot]; [done|].
  destruct Hnot. apply Forall_forall. intros o Hin. by destruct (Houts o Hin) as [e' ->].
Qed.

Lemma first_read_error_returns_code_zero_witness :
  (∀ prefix path token,
     watch (@quit_seen Sample.quiet) prefix path token 1
       {| answers := [ListErr "connection refused"]; wtrace := [] |}
     = (WReturned,
        {| answers := [];
           wtrace := [WMkdirp path; WList prefix 0 token; WSendErr "connection refused"] |}))
  ∧ (@unit_of Sample.quiet (applyDefaults (Sample.config false)) Sample.mapping 1
       [ListErr "connection refused"] Sample.world).1
    = Returned 0 (Some "connection refused")
  ∧ trace (@unit_of Sample.quiet (applyDefaults (Sample.config false)) Sample.mapping 1
             [ListErr "connection refused"] Sample.world).2
    = trace Sample.world ++ [EvLog DebugLevel "Got mapping config"]
      ++ [EvCloseQuit] ++ [EvLog DebugLevel "Failure from watch function"]
  ∧ @watchAndExec Sample.quiet (Sample.config false) 1
      (λ _, ([ListErr "connection refused"], Sample.world))
    = ExitCode 0.
Proof.
  destruct (@first_read_error_returns_code_zero Sample.quiet (Sample.config false)
              Sample.mapping 1 "connection refused" [] Sample.world)
    as (Hwatch & _ & _ & _ & Hunit & Htrace & Hexit).
  - reflexivity.
  - discriminate.
  - discriminate.
  - split; [exact Hwatch|]. split; [exact Hunit|]. split; [exact Htrace|].
    apply Hexit.
    + intros codes. reflexivity.
    + repeat constructor; discriminate.
    + intros i _. by eexists _, _.
Defined.

(** C2 (the failing input): the store refuses the first read. The unit
    returns the code 0 with the error and the Supervisor exits with 0, not
    with a failure code. *)
Lemma first_read_error_exits_zero :
  (@watchMappingAndExec Sample.quiet (Sample.config false) Sample.mapping 1
     [ListErr "connection refused"] Sample.world).1
  = Returned 0 (Some "connection refused")
  ∧ @watchAndExec Sample.quiet (Sample.config false) 1
      (λ _, ([ListErr "connection refused"], Sample.world))
    = ExitCode 0.
Proof. split; vm_compute; reflexivity. Qed.

(** C8: the Supervisor starts one unit per mapping, each run as it would
    run alone and whatever the others return; the outcome of a unit is the
    one [watchMappingAndExec] returned, and the code it returned is the
    code the Supervisor receives. [watchAndExec] returns a code only when
    every unit has returned one; the code is 0 exactly when every unit
    returned 0, and -1 exactly when every unit returned and one of them
    returned another code than 0. *)
Theorem supervisor_aggregates_all_units `{Collaborators}
    (config : WatchConfig) (fuel : nat) (input : nat → list ListResult * World) :
  schedule_fair →
  let outs := (units (applyDefaults config) fuel input).*1 in
  length outs = length (Mappings config)
  ∧ (∀ i m, Mappings config !! i = Some m →
            units (applyDefaults config) fuel input !! i
            = Some (unit_of (applyDefaults config) m fuel (input i).1 (input i).2))
  ∧ (∀ m store w,
       ∃ m', (unit_of (applyDefaults config) m fuel store w).1
             = (watchMappingAndExec (applyDefaults config) m' fuel store
                  (log DebugLevel "Got mapping config" w)).1
             ∧ Prefix m' = Prefix m ∧ Path m' = Path m ∧ Keystore m' = Keystore m
             ∧ OnChange m' = (if decide (OnChangeRaw m ≠ "")
                              then Some (strings.Split (OnChangeRaw m) " ")
                              else OnChange m))
  ∧ (∀ c, watchAndExec config fuel input = ExitCode c →
          (c = 0%Z ∨ c = (-1)%Z)
          ∧ Forall (λ o, ∃ code err, o = Returned code err) outs)
  ∧ (watchAndExec config fuel input = ExitCode 0
     ↔ Forall (λ o, ∃ err, o = Returned 0 err) outs)
  ∧ (watchAndExec config fuel input = ExitCode (-1)
     ↔ Forall (λ o, ∃ code err, o = Returned code err) outs
       ∧ Exists (λ o, ∃ code err, o = Returned code err ∧ code ≠ 0%Z) outs).
Proof.
  intros Hfair outs.
  assert (Mappings (applyDefaults config) = Mappings config) as Hmaps.
  { unfold applyDefaults. by destruct (decide _). }
  split.
  { unfold outs, units. by rewrite length_fmap, length_imap, Hmaps. }
  split.
  { intros i m Hm. unfold units. rewrite list_lookup_imap, Hmaps, Hm. done. }
  split.
  { intros m store w. unfold unit_of.
    match goal with |- context [watchMappingAndExec _ ?m2 fuel store ?w2] =>
      exists m2; destruct (watchMappingAndExec (applyDefaults config) m2 fuel store w2)
        as [o w'] end.
    split; [by destruct o as [code [e|]| |]|]. by destruct (decide (OnChangeRaw m ≠ "")). }
  assert (Forall (λ o, is_Some (sent_code o)) outs
          ↔ Forall (λ o, ∃ code err, o = Returned code err) outs) as Hsent.
  { apply Forall_proper; [|done]. intros o. apply sent_Returned. }
  assert (Forall (λ o, sent_code o = Some 0%Z) outs
          ↔ Forall (λ o, ∃ err, o = Returned 0 err) outs) as Hzero.
  { apply Forall_proper; [|done]. intros o. apply sent_code_Returned. }
  assert (Forall (λ o, ∃ err, o = Returned 0 err) outs →
          Forall (λ o, ∃ code err, o = Returned code err) outs) as Hzero_all.
  { intros Hz. eapply Forall_impl; [exact Hz|]. intros o [err ->]. by eexists _, _. }
  assert (Forall (λ o, ∃ code err, o = Returned code err) outs →
          (Exists (λ o, ∃ code err, o = Returned code err ∧ code ≠ 0%Z) outs
           ↔ ¬ Forall (λ o, ∃ err, o = Returned 0 err) outs)) as Hnonzero.
  { intros Hall. split.
    - intros Hex Hz. apply Exists_exists in Hex as (o & Hin & code & err & -> & Hne).
      rewrite Forall_forall in Hz. destruct (Hz _ Hin) as [err' [= ? _]]. done.
    - intros Hnz. rewrite <- Hzero in Hnz.
      apply not_Forall_Exists in Hnz; [|intros o; apply _].
      apply Exists_exists in Hnz as (o & Hin & Hno). apply Exists_exists. exists o.
      split; [done|]. rewrite Forall_forall in Hall.
      destruct (Hall _ Hin) as (code & err & ->). exists code, err. split; [done|].
      intros ->. by apply Hno. }
  rewrite (watchAndExec_exit config fuel input Hfair). fold outs.
  destruct (existsb panicked outs) eqn:Hpanic.
  { apply panicked_sends_nothing in Hpanic. rewrite Hsent in Hpanic.
    split; [done|]. split; (split; [done|]).
    - intros Hz. destruct Hpanic. by apply Hzero_all.
    - by intros [Hall _]. }
  destruct (decide (Forall (λ o, is_Some (sent_code o)) outs)) as [Hall|Hnot].
  - pose proof (proj1 Hsent Hall) as Hall'.
    destruct (decide (Forall (λ o, sent_code o = Some 0%Z) outs)) as [Hz|Hz].
    + pose proof (proj1 Hzero Hz) as Hz'. split; [intros c [= <-]; by split; [left|]|].
      split; [done|]. split; [done|]. intros [_ Hex]. by apply Hnonzero in Hex.
    + assert (¬ Forall (λ o, ∃ err, o = Returned 0 err) outs) as Hz' by (by rewrite <- Hzero).
      split; [intros c [= <-]; by split; [right|]|].
      split; [by split|]. split; [|done]. intros _. split; [done|]. by apply Hnonzero.
  - assert (¬ Forall (λ o, ∃ code err, o = Returned code err) outs) as Hnot'
      by (by rewrite <- Hsent).
    split; [done|]. split; (split; [done|]).
    + intros Hz. destruct Hnot'. by apply Hzero_all.
    + by intros [Hall _].
Qed.

Lemma supervisor_aggregates_all_units_witness :
  (@units Sample.failing_command (applyDefaults (Sample.both true)) 1
     (λ _, ([ListOk Sample.smaller {| LastIndex := 7 |}], Sample.world))).*1
  = [Returned 111 (Some "exit status 1"); Returned 0 None]
  ∧ @watchAndExec Sample.failing_command (Sample.both true) 1
      (λ _, ([ListOk Sample.smaller {| LastIndex := 7 |}], Sample.world))
    = ExitCode (-1)
  ∧ @watchAndExec Sample.failing_command (Sample.both true) 1
      (λ _, ([ListOk Sample.smaller {| LastIndex := 7 |}], Sample.world))
    ≠ ExitCode 0.
Proof.
  pose proof (@supervisor_aggregates_all_units Sample.failing_command (Sample.both true) 1
                (λ _, ([ListOk Sample.smaller {| LastIndex := 7 |}], Sample.world))
                (λ codes, Permutation_refl codes))
    as (_ & _ & _ & _ & Hzero & Hfailure).
  assert ((@units Sample.failing_command (applyDefaults (Sample.both true)) 1
             (λ _, ([ListOk Sample.smaller {| LastIndex := 7 |}], Sample.world))).*1
          = [Returned 111 (Some "exit status 1"); Returned 0 None]) as Houts
    by (vm_compute; reflexivity).
  split; [exact Houts|]. split.
  - apply Hfailure. rewrite Houts. split.
    + repeat constructor; by eexists _, _.
    + apply Exists_cons_hd. exists 111%Z, (Some "exit status 1").
      split; [reflexivity|discriminate].
  - intros Hexit. apply Hzero in Hexit. rewrite Houts in Hexit.
    apply Forall_cons in Hexit as [[err Herr] _]. discriminate.
Defined.

(** ** The file of a key whose transform fails *)

Lemma LastIndex_contains (s : string) (sep : ascii) :
  strings.contains s sep = true → (0 ≤ strings.LastIndex s sep)%Z.
Proof.
  induction s as [|c s IH]; [done|]. cbn [strings.contains strings.LastIndex].
  destruct (0 <=? strings.LastIndex s sep)%Z eqn:Hr; [lia|].
  destruct (decide (c = sep)); [lia|]. intros Hs. apply IH in Hs. lia.
Qed.

Lemma LastIndex_below (s : string) (sep : ascii) :
  (strings.LastIndex s sep < Z.of_nat (String.length s))%Z.
Proof.
  induction s as [|c s IH]; [done|]. cbn [strings.LastIndex String.length].
  destruct (0 <=? strings.LastIndex s sep)%Z; [lia|].
  destruct (decide (c = sep)); lia.
Qed.

Lemma last_byte_contains (s : string) (c : ascii) :
  last_byte s = Some c → strings.contains s c = true.
Proof.
  induction s as [|a s IH]; [done|]. cbn [strings.contains].
  destruct (decide (a = c)); [done|]. destruct s as [|b s]; [by intros [= ->]|]. exact IH.
Qed.

Lemma contains_app (s t : string) (c : ascii) :
  strings.contains s c = true → strings.contains (s +:+ t) c = true.
Proof.
  induction s as [|a s IH]; [done|].
  change (String a s +:+ t) with (String a (s +:+ t)). cbn [strings.contains].
  destruct (decide (a = c)); [done|]. exact IH.
Qed.

Lemma contains_Replace (s : string) (c old new : ascii) :
  c ≠ old → strings.contains s c = true → strings.contains (strings.Replace s old new) c = true.
Proof.
  intros Hc. induction s as [|a s IH]; [done|]. cbn [strings.contains strings.Replace].
  destruct (decide (a = c)) as [->|Ha].
  - intros _. destruct (decide (c = old)); [done|]. by rewrite decide_True.
  - intros Hs. destruct (decide (_ = c)); [done|]. by apply IH.
Qed.

(** Under a root path that ends in the separator, the directory of a key's
    file is always found: the slice does not panic. *)
Lemma keyfile_dir `{Collaborators} (path k : string) :
  last_byte path = Some (PathSeparator goos) →
  ∃ dir, slice_to (keyfile path k)
           (strings.LastIndex (keyfile path k) (if isWindows then "\"%char else "/"%char))
         = Some dir.
Proof.
  intros Hlast. unfold slice_to.
  match goal with |- context [decide ?P] => destruct (decide P) as [|Hout] end; [by eauto|].
  destruct Hout. split; [|pose proof (LastIndex_below (keyfile path k)
    (if isWindows then "\"%char else "/"%char)); lia].
  apply LastIndex_contains. apply last_byte_contains in Hlast.
  unfold keyfile, isWindows in *. destruct goos; cbn in *.
  - by apply contains_app.
  - apply contains_Replace; [done|]. by apply contains_app.
Qed.

(** In the body of the loop over [newEnv], whatever the calls answer, the
    creation of the key's file is preceded by its directory and log lines
    only: the pipeline, the write and all the rest come after it. *)
Lemma create_precedes_the_rest `{Collaborators} (m : MappingConfig) (w : World) (k v : string) :
  last_byte (Path m) = Some (PathSeparator goos) →
  ∃ before err rest,
    trace (world_of (write_key m w (k, v)))
    = trace w ++ before ++ EvSys (Create (keyfile (Path m) k)) err :: rest
    ∧ Forall is_preparation before.
Proof.
  intros Hlast. unfold write_key.
  destruct (keyfile_dir (Path m) k Hlast) as [dir ->].
  pose proof (sys_trace (Mkdirp dir) w) as Ht1.
  destruct (sys (Mkdirp dir) w) as [e1 w1]. cbn [fst snd] in Ht1.
  set (w2 := match e1 with
             | Some _ => log ErrorLevel "Failed to create parent directory for key" w1
             | None => w1
             end).
  set (before := EvSys (Mkdirp dir) e1
                 :: match e1 with
                    | Some _ => [EvLog ErrorLevel "Failed to create parent directory for key"]
                    | None => []
                    end).
  assert (trace w2 = trace w ++ before) as Ht2.
  { unfold w2, before. destruct e1; cbn; rewrite Ht1; [|done]. by rewrite <- app_assoc. }
  assert (Forall is_preparation before) as Hbefore.
  { unfold before. destruct e1; by repeat constructor. }
  pose proof (sys_trace (Create (keyfile (Path m) k)) w2) as Ht3.
  destruct (sys (Create (keyfile (Path m) k)) w2) as [e3 w3]. cbn [fst snd] in Ht3.
  match goal with |- context [world_of ?R] =>
    assert (extends is_write_event w3 (world_of R)) as (rest & _ & Hrest & _) end.
  { destruct e3 as [e3|]; [cbn [world_of]; peel|].
    match goal with |- context [transform m v ?w0] =>
      pose proof (transform_extends m v w0) as Htr; destruct (transform m v w0) as [[buff|] ?]
    end; cbn [snd] in Htr; [|cbn [world_of]; peel].
    destruct_sys is_write_event.
    match goal with |- context [match ?e with Some _ => Go _ | None => _ end] => destruct e end;
      [cbn [world_of]; peel|].
    destruct_sys is_write_event. destruct_sys is_write_event.
    cbn [world_of]. destruct o, o0; peel. }
  exists before, e3, rest. split; [|done].
  rewrite Hrest, Ht3, Ht2. by rewrite <- !app_assoc.
Qed.

(** C9: with a keystore configured, the file of every key is created, and
    so emptied, before the Value Transform Pipeline runs on its value (the
    events before the creation are the directory and log lines only); when
    the creation succeeds and the pipeline then fails at any of its three
    stages, nothing is written and the key's file is left empty, whatever
    it held before. *)
Theorem failed_transform_leaves_the_file_empty `{Collaborators}
    (m : MappingConfig) (w : World) (k v : string) :
  (0 < String.length (Keystore m))%nat →
  last_byte (Path m) = Some (PathSeparator goos) →
  (∃ before err rest,
     trace (world_of (write_key m w (k, v)))
     = trace w ++ before ++ EvSys (Create (keyfile (Path m) k)) err :: rest
     ∧ Forall is_preparation before)
  ∧ ((∀ tr, fault tr (Create (keyfile (Path m) k)) = None) →
     pipeline_fails m v →
     ∃ w' before pipeline,
       write_key m w (k, v) = Go w'
       ∧ trace w'
         = trace w ++ before
           ++ EvSys (Create (keyfile (Path m) k)) None
           :: EvLog DebugLevel "Input value length" :: pipeline
       ∧ Forall is_preparation before
       ∧ Forall is_pipeline_event pipeline
       ∧ (∃ stage input, EvTransform stage input false ∈ pipeline)
       ∧ files w' = <[keyfile (Path m) k := ""]> (files w)).
Proof.
  intros Hks Hlast. split; [by apply create_precedes_the_rest|].
  intros Hcreate Hfail. unfold write_key.
  destruct (keyfile_dir (Path m) k Hlast) as [dir ->].
  pose proof (sys_trace (Mkdirp dir) w) as Ht1. pose proof (sys_files (Mkdirp dir) w) as Hf1.
  destruct (sys (Mkdirp dir) w) as [e1 w1]. cbn [fst snd] in Ht1, Hf1.
  assert (files w1 = files w) as Hf1' by (by destruct e1). clear Hf1.
  set (w2 := match e1 with
             | Some _ => log ErrorLevel "Failed to create parent directory for key" w1
             | None => w1
             end).
  set (before := EvSys (Mkdirp dir) e1
                 :: match e1 with
                    | Some _ => [EvLog ErrorLevel "Failed to create parent directory for key"]
                    | None => []
                    end).
  assert (trace w2 = trace w ++ before ∧ files w2 = files w) as [Ht2 Hf2].
  { unfold w2, before. destruct e1; cbn; rewrite Ht1; [|done]. by rewrite <- app_assoc. }
  assert (Forall is_preparation before) as Hbefore.
  { unfold before. destruct e1; by repeat constructor. }
  unfold sys at 1. rewrite Hcreate. cbn [emit set_files defer log trace files].
  unfold transform. rewrite decide_True by done.
  destruct Hfail as [e Hd|data e Hd Hp|data tmpl e Hd Hp He].
  - rewrite Hd. eexists _, before, _. split; [reflexivity|]. cbn.
    rewrite Ht2, Hf2, <- !app_assoc. repeat split; try done.
    + by repeat constructor.
    + eexists _, _. apply list_elem_of_here.
  - rewrite Hd, Hp. eexists _, before, _. split; [reflexivity|]. cbn.
    rewrite Ht2, Hf2, <- !app_assoc. repeat split; try done.
    + by repeat constructor.
    + eexists ParseTemplate, _. apply list_elem_of_further, list_elem_of_further, list_elem_of_here.
  - rewrite Hd, Hp, He. eexists _, before, _. split; [reflexivity|]. cbn.
    rewrite Ht2, Hf2, <- !app_assoc. repeat split; try done.
    + by repeat constructor.
    + eexists ExecuteTemplate, _. do 3 apply list_elem_of_further. apply list_elem_of_here.
Qed.

Lemma failed_transform_leaves_the_file_empty_witness :
  ∃ w' before pipeline,
    @write_key Sample.windows_locked Sample.secret Sample.synced ("db/password", "{{secret}}")
    = Go w'
    ∧ trace w'
      = trace Sample.synced ++ before
        ++ EvSys (Create (@keyfile Sample.windows_locked "C:\out\" "db/password")) None
        :: EvLog DebugLevel "Input value length" :: pipeline
    ∧ Forall is_preparation before
    ∧ Forall is_pipeline_event pipeline
    ∧ (∃ stage input, EvTransform stage input false ∈ pipeline)
    ∧ files w'
      = <[@keyfile Sample.windows_locked "C:\out\" "db/password" := ""]> (files Sample.synced).
Proof.
  apply (@failed_transform_leaves_the_file_empty Sample.windows_locked Sample.secret
           Sample.synced "db/password" "{{secret}}").
  - cbn. lia.
  - reflexivity.
  - intros tr. reflexivity.
  - apply (@decrypt_fails Sample.windows_locked _ _ "key not found"). reflexivity.
Defined.

(** * Further properties *)

(** ** Relative keys and the candidate Environment *)

Lemma HasPrefix_app (pre s : string) : strings.HasPrefix (pre +:+ s) pre = true.
Proof.
  induction pre as [|c pre IH]; [by destruct s|].
  change (String c pre +:+ s) with (String c (pre +:+ s)). cbn [strings.HasPrefix].
  by rewrite decide_True.
Qed.

Lemma drop_app (pre s : string) : strings.drop (String.length pre) (pre +:+ s) = s.
Proof. induction pre as [|c pre IH]; [by destruct s|]. exact IH. Qed.

Lemma TrimPrefix_app (pre s : string) : strings.TrimPrefix (pre +:+ s) pre = s.
Proof. unfold strings.TrimPrefix. by rewrite HasPrefix_app, drop_app. Qed.

Lemma TrimLeft_first (s cutset : string) (c : ascii) :
  first_byte (strings.TrimLeft s cutset) = Some c → strings.contains cutset c = false.
Proof.
  induction s as [|a s IH]; [done|]. cbn [strings.TrimLeft].
  destruct (strings.contains cutset a) eqn:Ha; [exact IH|]. cbn. by intros [= <-].
Qed.

Lemma TrimLeft_id (s : string) :
  first_byte s ≠ Some "/"%char → strings.TrimLeft s "/" = s.
Proof.
  destruct s as [|a s]; [done|]. cbn. intros Ha.
  destruct (decide ("/"%char = a)) as [<-|]; [by destruct Ha|done].
Qed.

Lemma TrimLeft_slashes (n : nat) (s : string) :
  strings.TrimLeft (slashes n +:+ s) "/" = strings.TrimLeft s "/".
Proof. induction n as [|n IH]; [by destruct s|]. cbn. exact IH. Qed.

(** X1: a key under the prefix, with any number of slashes in between,
    has what follows as its relative key; the prefix itself and the prefix
    followed by slashes only (a folder key) have the empty relative key. *)
Theorem relative_key_under_prefix (prefix k : string) (n : nat) :
  first_byte k ≠ Some "/"%char →
  relative_key prefix (prefix +:+ slashes n +:+ k) = k
  ∧ relative_key prefix (prefix +:+ slashes n) = "".
Proof.
  intros Hk. unfold relative_key. rewrite !TrimPrefix_app. split.
  - rewrite TrimLeft_slashes. by apply TrimLeft_id.
  - clear. induction n as [|n IH]; [done|]. exact IH.
Qed.

Lemma relative_key_under_prefix_witness :
  relative_key "app" ("app" +:+ slashes 2 +:+ "db/password") = "db/password"
  ∧ relative_key "app" ("app" +:+ slashes 2) = "".
Proof. apply (relative_key_under_prefix "app" "db/password" 2). discriminate. Defined.

Lemma add_pairs_insert (prefix : string) (pairs : list KVPair) (e : Env) (w : World) :
  (foldl (add_pair prefix) (e, w) pairs).1
  = foldl (λ e p, <[relative_key prefix (Key p) := Value p]> e) e pairs.
Proof.
  revert e w. induction pairs as [|p pairs IH]; intros e w; [done|].
  cbn [foldl add_pair]. apply IH.
Qed.

Lemma inserts_lookup_other (prefix : string) (pairs : list KVPair) (e : Env) (k : string) :
  Forall (λ q, relative_key prefix (Key q) ≠ k) pairs →
  foldl (λ e p, <[relative_key prefix (Key p) := Value p]> e) e pairs !! k = e !! k.
Proof.
  revert e. induction pairs as [|p pairs IH]; intros e Hall; [done|].
  apply Forall_cons in Hall as [Hp Hall]. cbn [foldl]. rewrite IH by done.
  by rewrite lookup_insert_ne.
Qed.

(** X2: the candidate Environment holds, for each relative key, the value
    of the last pair of the snapshot with that relative key; the relative
    key of no pair is missing, and no key of it starts with a slash. *)
Theorem newEnv_last_pair_wins (prefix : string) (pairs : list KVPair) (w : World) :
  (∀ before p later,
     pairs = before ++ p :: later →
     Forall (λ q, relative_key prefix (Key q) ≠ relative_key prefix (Key p)) later →
     (build_newEnv prefix pairs w).1 !! relative_key prefix (Key p) = Some (Value p))
  ∧ (∀ k, k ∈ dom (build_newEnv prefix pairs w).1
          ↔ ∃ p, p ∈ pairs ∧ k = relative_key prefix (Key p))
  ∧ (∀ k, k ∈ dom (build_newEnv prefix pairs w).1 → first_byte k ≠ Some "/"%char).
Proof.
  unfold build_newEnv. rewrite add_pairs_insert.
  assert (∀ k, k ∈ dom (foldl (λ e p, <[relative_key prefix (Key p) := Value p]> e)
                           (∅ : Env) pairs)
               ↔ ∃ p, p ∈ pairs ∧ k = relative_key prefix (Key p)) as Hdom.
  { intros k. induction pairs as [|p pairs IH] using rev_ind.
    - cbn. rewrite dom_empty_L. split; [set_solver|]. intros (p & Hp & _). by inversion Hp.
    - rewrite foldl_snoc, dom_insert_L, elem_of_union, elem_of_singleton, IH. split.
      + intros [->|(q & Hq & ->)].
        * exists p. split; [|done]. apply elem_of_app. right. apply list_elem_of_here.
        * exists q. split; [|done]. apply elem_of_app. by left.
      + intros (q & Hq & ->). apply elem_of_app in Hq as [Hq|Hq].
        * right. by exists q.
        * left. apply list_elem_of_singleton in Hq. by subst. }
  repeat split.
  - intros before p later -> Hlater. rewrite foldl_app. cbn [foldl].
    rewrite inserts_lookup_other by done. apply lookup_insert_eq.
  - by apply Hdom.
  - by apply Hdom.
  - intros k Hk Hfirst. apply Hdom in Hk as (p & _ & ->).
    by apply TrimLeft_first in Hfirst.
Qed.

Lemma newEnv_last_pair_wins_witness :
  (build_newEnv "a" ([{| Key := "a/b"; Value := "old" |}]
                     ++ {| Key := "a//b"; Value := "new" |} :: []) Sample.world).1
    !! relative_key "a" "a//b"
  = Some "new".
Proof.
  apply (proj1 (newEnv_last_pair_wins "a" _ Sample.world)
           [{| Key := "a/b"; Value := "old" |}] {| Key := "a//b"; Value := "new" |} []).
  - reflexivity.
  - constructor.
Defined.

Lemma newEnv_list_to_map (prefix : string) (pairs : list KVPair) (w : World) :
  (build_newEnv prefix pairs w).1
  = list_to_map (reverse ((λ p, (relative_key prefix (Key p), Value p)) <$> pairs)).
Proof.
  unfold build_newEnv. rewrite add_pairs_insert.
  induction pairs as [|p pairs IH] using rev_ind; [done|].
  rewrite foldl_snoc, fmap_app, reverse_app. cbn. by rewrite IH.
Qed.

(** X3: when the relative keys of a snapshot are pairwise distinct, the
    candidate Environment does not depend on the order of the pairs. *)
Theorem newEnv_order_independent (prefix : string) (pairs pairs' : list KVPair) (w w' : World) :
  NoDup ((λ p, relative_key prefix (Key p)) <$> pairs) →
  pairs ≡ₚ pairs' →
  (build_newEnv prefix pairs w).1 = (build_newEnv prefix pairs' w').1.
Proof.
  intros Hnodup Hperm. rewrite !newEnv_list_to_map. apply list_to_map_proper.
  - rewrite fmap_reverse, reverse_Permutation, <- list_fmap_compose. exact Hnodup.
  - by rewrite !reverse_Permutation, Hperm.
Qed.

Lemma newEnv_order_independent_witness :
  (build_newEnv "a" Sample.snapshot Sample.world).1
  = (build_newEnv "a" (reverse Sample.snapshot) Sample.synced).1.
Proof.
  apply (newEnv_order_independent "a" Sample.snapshot (reverse Sample.snapshot)).
  - apply (bool_decide_unpack _). vm_compute. exact I.
  - symmetry. apply reverse_Permutation.
Defined.

(** ** Splitting arguments *)

Lemma Split_nonempty (s : string) (sep : ascii) : strings.Split s sep ≠ [].
Proof.
  destruct s as [|c s]; [done|]. cbn.
  destruct (decide (c = sep)); [done|]. by destruct (strings.Split s sep).
Qed.

(** X4: splitting a string on a separator never gives the empty list, no
    piece contains the separator, and joining the pieces with the separator
    gives the string back (so an empty argument gives one empty piece, and
    two separators in a row give an empty piece between them). *)
Theorem Split_Join (s : string) (sep : ascii) :
  strings.Split s sep ≠ []
  ∧ Forall (λ piece, strings.contains piece sep = false) (strings.Split s sep)
  ∧ Join (strings.Split s sep) sep = s.
Proof.
  split; [apply Split_nonempty|]. induction s as [|c s [IHno IHjoin]].
  { split; [by repeat constructor|done]. }
  cbn [strings.Split]. pose proof (Split_nonempty s sep) as Hne.
  destruct (decide (c = sep)) as [->|Hc].
  - split; [by constructor|].
    destruct (strings.Split s sep) as [|piece rest]; [done|].
    cbn [Join]. cbn. by rewrite <- IHjoin.
  - destruct (strings.Split s sep) as [|piece rest]; [done|].
    apply Forall_cons in IHno as [Hpiece Hrest]. split.
    + constructor; [|done]. cbn. by rewrite decide_False.
    + rewrite <- IHjoin. by destruct rest.
Qed.

(** ** The file of a key and its directory *)

Lemma LastIndex_absent (s : string) (sep : ascii) :
  (strings.LastIndex s sep < 0)%Z → strings.contains s sep = false.
Proof.
  intros Hneg. destruct (strings.contains s sep) eqn:Hc; [|done].
  apply LastIndex_contains in Hc. lia.
Qed.

Lemma LastIndex_present (s : string) (sep : ascii) :
  (0 ≤ strings.LastIndex s sep)%Z → strings.contains s sep = true.
Proof.
  induction s as [|c s IH]; [cbn; lia|]. cbn [strings.LastIndex strings.contains].
  destruct (decide (c = sep)); [done|].
  destruct (0 <=? strings.LastIndex s sep)%Z eqn:Hr; [|lia]. intros _. apply IH. lia.
Qed.

(** The string splits at the last separator. *)
Lemma LastIndex_splits (s : string) (sep : ascii) :
  strings.contains s sep = true →
  ∃ name, s = substring 0 (Z.to_nat (strings.LastIndex s sep)) s +:+ String sep name
          ∧ strings.contains name sep = false.
Proof.
  induction s as [|c s IH]; [done|]. intros Hs. cbn [strings.LastIndex].
  destruct (0 <=? strings.LastIndex s sep)%Z eqn:Hr.
  - apply Z.leb_le in Hr. destruct (IH (LastIndex_present s sep Hr)) as (name & Heq & Hname).
    exists name. split; [|done].
    replace (Z.to_nat (strings.LastIndex s sep + 1)) with (S (Z.to_nat (strings.LastIndex s sep)))
      by lia.
    cbn [substring]. change (String c ?a +:+ ?b) with (String c (a +:+ b)). by rewrite <- Heq.
  - apply Z.leb_gt in Hr. pose proof (LastIndex_absent s sep Hr) as Habs.
    cbn [strings.contains] in Hs. destruct (decide (c = sep)) as [->|]; [|congruence].
    exists s. split; [|done]. by destruct s.
Qed.

Lemma Replace_removes (s : string) (old new : ascii) :
  old ≠ new → strings.contains (strings.Replace s old new) old = false.
Proof.
  intros Hne. induction s as [|c s IH]; [done|]. cbn [strings.Replace strings.contains].
  destruct (decide (c = old)) as [->|Hc]; by rewrite decide_False.
Qed.

(** X5: under a root path that ends in the separator, the directory made
    for a key is the key's file path up to its last separator: the path is
    that directory, the separator, and a name without separator. On Unix
    the path is the root path followed by the relative key; on Windows it
    has no forward slash left. *)
Theorem keyfile_directory `{Collaborators} (path k : string) :
  last_byte path = Some (PathSeparator goos) →
  (∃ dir name,
     slice_to (keyfile path k)
       (strings.LastIndex (keyfile path k) (if isWindows then "\"%char else "/"%char))
     = Some dir
     ∧ keyfile path k = dir +:+ String (PathSeparator goos) name
     ∧ strings.contains name (PathSeparator goos) = false)
  ∧ (goos = Unix → keyfile path k = path +:+ k)
  ∧ (goos = Windows → strings.contains (keyfile path k) "/" = false).
Proof.
  intros Hlast. split; [|split].
  - replace (if isWindows then "\"%char else "/"%char) with (PathSeparator goos)
      by (unfold isWindows; by destruct goos).
    assert (strings.contains (keyfile path k) (PathSeparator goos) = true) as Hsep.
    { apply last_byte_contains in Hlast. unfold keyfile, isWindows. destruct goos; cbn in *.
      - by apply contains_app.
      - apply contains_Replace; [done|]. by apply contains_app. }
    destruct (LastIndex_splits _ _ Hsep) as (name & Heq & Hname).
    eexists _, name. split; [|split; [exact Heq|exact Hname]].
    unfold slice_to. rewrite decide_True; [done|].
    pose proof (LastIndex_contains _ _ Hsep).
    pose proof (LastIndex_below (keyfile path k) (PathSeparator goos)). lia.
  - intros Hunix. unfold keyfile, isWindows. by rewrite Hunix.
  - intros Hwin. unfold keyfile, isWindows. rewrite Hwin. cbn. by apply Replace_removes.
Qed.

Lemma keyfile_directory_witness :
  (∃ dir name,
     slice_to (@keyfile Sample.windows_locked "C:\out\" "db/password")
       (strings.LastIndex (@keyfile Sample.windows_locked "C:\out\" "db/password")
          (if @isWindows Sample.windows_locked then "\"%char else "/"%char))
     = Some dir
     ∧ @keyfile Sample.windows_locked "C:\out\" "db/password" = dir +:+ String "\" name
     ∧ strings.contains name "\" = false)
  ∧ (@goos Sample.windows_locked = Unix →
     @keyfile Sample.windows_locked "C:\out\" "db/password" = "C:\out\" +:+ "db/password")
  ∧ (@goos Sample.windows_locked = Windows →
     strings.contains (@keyfile Sample.windows_locked "C:\out\" "db/password") "/" = false).
Proof.
  apply (@keyfile_directory Sample.windows_locked "C:\out\" "db/password"). reflexivity.
Defined.

(** ** Normalisation of the mapping, continued *)

(** X6: for a mapping with a non-empty prefix and path, normalisation
    removes one leading slash of the prefix (one only), and appends the
    separator to the path unless the path ends in it; the result always
    ends in the separator, the command and the keystore are untouched, and
    normalising again changes the path no more. *)
Theorem normalize_result `{Collaborators} (m : MappingConfig) :
  Prefix m ≠ "" → Path m ≠ "" →
  ∃ m', normalize m = Some m'
        ∧ (Prefix m = String "/" (Prefix m')
           ∨ (first_byte (Prefix m) ≠ Some "/"%char ∧ Prefix m' = Prefix m))
        ∧ Path m' = (if decide (last_byte (Path m) = Some (PathSeparator goos))
                     then Path m
                     else Path m +:+ String (PathSeparator goos) "")
        ∧ last_byte (Path m') = Some (PathSeparator goos)
        ∧ OnChange m' = OnChange m ∧ OnChangeRaw m' = OnChangeRaw m
        ∧ Keystore m' = Keystore m
        ∧ (∀ m'', normalize m' = Some m'' → Path m'' = Path m').
Proof.
  intros Hpre Hpath.
  assert (∀ m0 m1, normalize m0 = Some m1 →
            Path m1 = (if decide (last_byte (Path m0) = Some (PathSeparator goos))
                       then Path m0
                       else Path m0 +:+ String (PathSeparator goos) "")
            ∧ last_byte (Path m1) = Some (PathSeparator goos)) as Hpaths.
  { intros m0 m1. unfold normalize.
    destruct (first_byte (Prefix m0)) as [c|]; [|done]. cbn [mbind option_bind].
    destruct (last_byte (Path m0)) as [d|] eqn:Hd; [|done]. cbn [mbind option_bind].
    destruct (decide (d ≠ PathSeparator goos)) as [Hne|Heq].
    - rewrite last_byte_snoc. cbn [mbind option_bind].
      destruct (decide (PathSeparator goos = quote)) as [Hq|_].
      { by destruct (separator_not_quote goos). }
      intros [= <-]. cbn. rewrite last_byte_snoc. split; [|done].
      rewrite decide_False; [done|]. by intros [= ->].
    - apply dec_stable in Heq. subst d. rewrite Hd. cbn [mbind option_bind].
      destruct (decide (PathSeparator goos = quote)) as [Hq|_].
      { by destruct (separator_not_quote goos). }
      intros [= <-]. cbn. split; [|done]. by rewrite decide_True. }
  destruct (normalize m) as [m'|] eqn:Hm.
  2:{ destruct (normalize_ok m Hpre Hpath) as (? & ? & _). congruence. }
  destruct (Hpaths m m' Hm) as [Hp Hl].
  exists m'. split; [done|].
  assert (OnChange m' = OnChange m ∧ OnChangeRaw m' = OnChangeRaw m ∧ Keystore m' = Keystore m
          ∧ (Prefix m = String "/" (Prefix m')
             ∨ (first_byte (Prefix m) ≠ Some "/"%char ∧ Prefix m' = Prefix m)))
    as (Ho & Hr & Hk & Hprefix).
  { revert Hm. unfold normalize.
    destruct (Prefix m) as [|c pre] eqn:Epre; [done|]. cbn [first_byte mbind option_bind].
    destruct (last_byte (Path m)) as [d|]; [|done]. cbn [mbind option_bind].
    match goal with |- context [last_byte ?p] => destruct (last_byte p) end; [|done].
    cbn [mbind option_bind]. intros [= <-]. cbn. repeat split.
    destruct (decide (c = "/"%char)) as [->|Hc]; [by left|right].
    split; [|done]. by intros [= ->]. }
  repeat split; try done.
  intros m'' Hm''. destruct (Hpaths m' m'' Hm'') as [-> _]. by rewrite decide_True.
Qed.

Lemma normalize_result_witness :
  ∃ m', @normalize Sample.quiet
          {| OnChange := None; OnChangeRaw := ""; Prefix := "//app"; Path := "/out";
             Keystore := "" |} = Some m'
        ∧ ("//app" = String "/" (Prefix m')
           ∨ (first_byte "//app" ≠ Some "/"%char ∧ Prefix m' = "//app"))
        ∧ Path m' = (if decide (last_byte "/out" = Some "/"%char)
                     then "/out" else "/out" +:+ String "/" "")
        ∧ last_byte (Path m') = Some "/"%char
        ∧ OnChange m' = None ∧ OnChangeRaw m' = ""
        ∧ Keystore m' = ""
        ∧ (∀ m'', @normalize Sample.quiet m' = Some m'' → Path m'' = Path m').
Proof.
  apply (@normalize_result Sample.quiet
           {| OnChange := None; OnChangeRaw := ""; Prefix := "//app"; Path := "/out";
              Keystore := "" |}); discriminate.
Defined.

(** ** The main loop of the Watcher *)

Lemma watch_body_step (quit_seen : nat → bool) (prefix token : string)
    (fi n : nat) (cur : Z) (r : ListResult) (post : list ListResult) (tr : list WEvent) :
  quit_seen n = false →
  watch_body quit_seen prefix token (S fi)
    (n, cur, {| answers := r :: post; wtrace := tr |})
  = Continue (S n, index_after cur [r],
              {| answers := post; wtrace := tr ++ loop_events prefix token cur [r] |}).
Proof.
  intros Hq. unfold watch_body. rewrite Hq, retryableList_one_pass.
  unfold retryableList_body, KV_List, time_Sleep, wemit.
  destruct r as [pairs meta|e]; cbn; by rewrite <- !app_assoc.
Qed.

(** As long as the closing of [quitCh] is not seen, the loop takes the
    answers of the store one by one. *)
Lemma watch_loop_runs (quit_seen : nat → bool) (prefix token : string)
    (fi : nat) (rs : list ListResult) :
  ∀ (f' n : nat) (cur : Z) (tr : list WEvent) (post : list ListResult),
    (∀ i, n ≤ i < n + length rs → quit_seen i = false) →
    for_loop (length rs + f') (watch_body quit_seen prefix token (S fi))
      (n, cur, {| answers := rs ++ post; wtrace := tr |})
    = for_loop f' (watch_body quit_seen prefix token (S fi))
        (n + length rs, index_after cur rs,
         {| answers := post; wtrace := tr ++ loop_events prefix token cur rs |}).
Proof.
  induction rs as [|r rs IH]; intros f' n cur tr post Hq.
  - cbn. by rewrite Nat.add_0_r, app_nil_r.
  - cbn [length Nat.add app for_loop]. rewrite watch_body_step by (apply Hq; cbn; lia).
    rewrite IH by (intros i Hi; apply Hq; cbn; lia).
    replace (S n + length rs) with (n + S (length rs)) by lia.
    destruct r as [pairs meta|e]; cbn [index_after loop_events]; by rewrite <- !app_assoc.
Qed.

Lemma deliveries_loop_events (prefix token : string) (cur : Z) (rs : list ListResult) :
  deliveries (loop_events prefix token cur rs) = omap answered rs.
Proof.
  revert cur. induction rs as [|[pairs meta|e] rs IH]; intros cur; [done| |].
  - cbn. f_equal. apply IH.
  - cbn. apply IH.
Qed.

Lemma waited_loop_events (prefix token : string) (cur : Z) (rs : list ListResult) :
  omap waited (loop_events prefix token cur rs) = wait_indices cur rs.
Proof.
  revert cur. induction rs as [|[pairs meta|e] rs IH]; intros cur; [done| |];
    cbn; f_equal; apply IH.
Qed.

(** The watcher on a store that answers its first read, when the closing of
    [quitCh] is never seen: it takes every answer and then waits in a read
    that does not return. *)
Lemma watch_runs_all (quit_seen : nat → bool) (prefix path token : string)
    (fuel : nat) (pairs : list KVPair) (meta : QueryMeta) (rest : list ListResult) :
  (∀ i, (i <= length rest)%nat → quit_seen i = false) →
  length rest < fuel →
  watch quit_seen prefix path token fuel
    {| answers := ListOk pairs meta :: rest; wtrace := [] |}
  = (WBlocked,
     {| answers := [];
        wtrace := [WMkdirp path; WList prefix 0 token; WSendPairs pairs]
                  ++ loop_events prefix token (LastIndex meta) rest
                  ++ [WList prefix (index_after (LastIndex meta) rest) token] |}).
Proof.
  intros Hq Hfuel. destruct fuel as [|fi]; [lia|].
  unfold watch. unfold KV_List at 1. unfold wemit. cbn [answers wtrace app].
  pose proof (watch_loop_runs quit_seen prefix token fi rest (S (fi - length rest)) 0
                (LastIndex meta) [WMkdirp path; WList prefix 0 token; WSendPairs pairs] []
                ltac:(intros i Hi; apply Hq; lia)) as Hloop.
  rewrite app_nil_r in Hloop.
  replace (length rest + S (fi - length rest)) with (S fi) in Hloop by lia.
  rewrite Hloop. cbn [for_loop]. unfold watch_body at 1.
  rewrite Hq by lia. rewrite retryableList_one_pass.
  unfold retryableList_body, KV_List, wemit. cbn. by rewrite <- ?app_assoc.
Qed.

Lemma deliveries_app (a b : list WEvent) :
  deliveries (a ++ b) = deliveries a ++ deliveries b.
Proof. unfold deliveries. apply omap_app. Qed.

(** However far the loop of the Watcher has got, it has offered the pairs
    of the successful answers among those it has read, and nothing else. *)
Lemma watch_loop_offers (quit_seen : nat → bool) (prefix token : string) (fuel : nat) :
  ∀ (f' n : nat) (cur : Z) (tr : list WEvent) (rs : list ListResult),
    let r := match for_loop f' (watch_body quit_seen prefix token fuel)
                     (n, cur, {| answers := rs; wtrace := tr |}) with
             | Return r => r
             | Continue (_, _, w) => (WOutOfFuel, w)
             end in
    ∃ k, (k <= length rs)%nat
         ∧ answers r.2 = drop k rs
         ∧ deliveries (wtrace r.2) = deliveries tr ++ omap answered (take k rs)
         ∧ (∀ i, n ≤ i < n + k → quit_seen i = false)
         ∧ (r.1 = WReturned → quit_seen (n + k) = true).
Proof.
  induction f' as [|f' IH]; intros n cur tr rs; cbn zeta.
  { exists 0. cbn. rewrite app_nil_r. repeat split; try done; [lia|intros i Hi; lia]. }
  cbn [for_loop].
  destruct (quit_seen n) eqn:Hq.
  { assert (watch_body quit_seen prefix token fuel (n, cur, {| answers := rs; wtrace := tr |})
            = Return (WReturned, {| answers := rs; wtrace := tr |})) as ->.
    { unfold watch_body. by rewrite Hq. }
    exists 0. cbn. rewrite app_nil_r, Nat.add_0_r.
    repeat split; try done; [lia|intros i Hi; lia]. }
  destruct fuel as [|fi].
  { assert (watch_body quit_seen prefix token 0 (n, cur, {| answers := rs; wtrace := tr |})
            = Return (WOutOfFuel, {| answers := rs; wtrace := tr |})) as ->.
    { unfold watch_body. by rewrite Hq. }
    exists 0. cbn. rewrite app_nil_r. repeat split; try done; [lia|intros i Hi; lia]. }
  destruct rs as [|r post].
  { assert (watch_body quit_seen prefix token (S fi) (n, cur, {| answers := []; wtrace := tr |})
            = Return (WBlocked, {| answers := []; wtrace := tr ++ [WList prefix cur token] |}))
      as ->.
    { unfold watch_body. rewrite Hq, retryableList_one_pass. reflexivity. }
    exists 0. cbn [fst snd answers wtrace drop take omap list_omap length].
    rewrite deliveries_app, app_nil_r. cbn.
    repeat split; try done; [by rewrite app_nil_r|intros i Hi; lia]. }
  rewrite watch_body_step by done.
  destruct (IH (S n) (index_after cur [r]) (tr ++ loop_events prefix token cur [r]) post)
    as (k & Hk & Hans & Hdel & Hquit & Hret).
  exists (S k). cbn [length drop take]. split; [lia|]. split; [exact Hans|]. split.
  - rewrite Hdel, deliveries_app, (deliveries_loop_events prefix token cur [r]).
    rewrite <- app_assoc. f_equal. cbn [omap list_omap].
    by destruct (answered r).
  - split.
    + intros i Hi. destruct (decide (i = n)) as [->|Hne]; [done|]. apply Hquit. lia.
    + intros Hr. replace (n + S k) with (S n + k) by lia. by apply Hret.
Qed.

Lemma watch_after_first_read (quit_seen : nat → bool) (prefix path token : string)
    (fuel : nat) (pairs : list KVPair) (meta : QueryMeta) (rest : list ListResult) :
  watch quit_seen prefix path token fuel
    {| answers := ListOk pairs meta :: rest; wtrace := [] |}
  = match for_loop fuel (watch_body quit_seen prefix token fuel)
            (0, LastIndex meta,
             {| answers := rest;
                wtrace := [WMkdirp path; WList prefix 0 token; WSendPairs pairs] |}) with
    | Return r => r
    | Continue (_, _, w) => (WOutOfFuel, w)
    end.
Proof. reflexivity. Qed.

(** X7: whatever the store answers after a successful first read, whenever
    the closing of [quitCh] is seen and however far the Watcher has got,
    what it has offered on [pairCh] is, in order, the pairs of the first
    answer and then the pairs of every successful answer among the [k]
    answers its loop has read: a successful read is followed by one send
    of its pairs, compared with nothing, and a failed read by none. The
    loop has read [k] answers only if the closing of [quitCh] was not seen
    at the top of its first [k] iterations, and the Watcher returns only
    when it sees it. (The statement is about the reads made and the sends
    offered; [pairCh] being unbuffered, a read that follows a send
    presupposes that the send was received.) *)
Theorem watch_offers_the_answers_it_read (quit_seen : nat → bool)
    (prefix path token : string) (fuel : nat)
    (pairs : list KVPair) (meta : QueryMeta) (rest : list ListResult) :
  let r := watch quit_seen prefix path token fuel
             {| answers := ListOk pairs meta :: rest; wtrace := [] |} in
  ∃ k, (k <= length rest)%nat
       ∧ answers r.2 = drop k rest
       ∧ deliveries (wtrace r.2) = FromPairCh pairs :: omap answered (take k rest)
       ∧ (∀ i, i < k → quit_seen i = false)
       ∧ (r.1 = WReturned → quit_seen k = true).
Proof.
  cbn zeta. rewrite watch_after_first_read.
  pose proof (watch_loop_offers quit_seen prefix token fuel fuel 0 (LastIndex meta)
                [WMkdirp path; WList prefix 0 token; WSendPairs pairs] rest) as Hloop.
  cbn zeta in Hloop. destruct Hloop as (k & Hk & Hans & Hdel & Hquit & Hret).
  exists k. do 3 (split; [done|]). split; [|done]. intros i Hi. apply Hquit. lia.
Qed.

(** X8: the first read of the Watcher waits on no index (0); each later read
    waits on the index of the last successful answer, which a failed read
    leaves as it is. *)
Theorem watch_waits_on_last_index (quit_seen : nat → bool)
    (prefix path token : string) (fuel : nat)
    (pairs : list KVPair) (meta : QueryMeta) (rest : list ListResult) :
  (∀ i, (i <= length rest)%nat → quit_seen i = false) →
  length rest < fuel →
  omap waited
    (wtrace (watch quit_seen prefix path token fuel
               {| answers := ListOk pairs meta :: rest; wtrace := [] |}).2)
  = 0%Z :: wait_indices (LastIndex meta) rest ++ [index_after (LastIndex meta) rest].
Proof.
  intros Hq Hfuel. rewrite watch_runs_all by done. cbn [snd wtrace].
  cbn [app omap waited]. cbn. rewrite omap_app. cbn. f_equal. f_equal.
  apply waited_loop_events.
Qed.

Lemma watch_waits_on_last_index_witness :
  omap waited
    (wtrace (watch (λ _, false) "a" "/out/" "" 3
               {| answers := [ListOk Sample.snapshot {| LastIndex := 7 |};
                              ListErr "connection refused";
                              ListOk Sample.smaller {| LastIndex := 9 |}];
                  wtrace := [] |}).2)
  = 0%Z :: wait_indices 7 [ListErr "connection refused";
                           ListOk Sample.smaller {| LastIndex := 9 |}]
    ++ [index_after 7 [ListErr "connection refused";
                       ListOk Sample.smaller {| LastIndex := 9 |}]].
Proof.
  apply (watch_waits_on_last_index (λ _, false) "a" "/out/" "" 3
           Sample.snapshot {| LastIndex := 7 |}
           [ListErr "connection refused"; ListOk Sample.smaller {| LastIndex := 9 |}]).
  - reflexivity.
  - cbn. lia.
Defined.

(** X9: the closing of [quitCh] is looked at only before a read. When it is
    first seen at the top of iteration [k], the Watcher has made [k] reads
    in its loop and sent their successful answers; it returns without
    another read, leaving the later answers of the store alone. *)
Theorem watch_stops_at_the_top_of_the_loop (quit_seen : nat → bool)
    (prefix path token : string) (fuel k : nat)
    (pairs : list KVPair) (meta : QueryMeta) (rest : list ListResult) :
  (∀ i, i < k → quit_seen i = false) →
  quit_seen k = true →
  (k <= length rest)%nat →
  k < fuel →
  watch quit_seen prefix path token fuel
    {| answers := ListOk pairs meta :: rest; wtrace := [] |}
  = (WReturned,
     {| answers := drop k rest;
        wtrace := [WMkdirp path; WList prefix 0 token; WSendPairs pairs]
                  ++ loop_events prefix token (LastIndex meta) (take k rest) |}).
Proof.
  intros Hbefore Hq Hk Hfuel. destruct fuel as [|fi]; [lia|].
  unfold watch. unfold KV_List at 1. unfold wemit. cbn [answers wtrace app].
  assert (length (take k rest) = k) as Hlen by (rewrite length_take; lia).
  pose proof (watch_loop_runs quit_seen prefix token fi (take k rest) (S (fi - k)) 0
                (LastIndex meta) [WMkdirp path; WList prefix 0 token; WSendPairs pairs]
                (drop k rest) ltac:(intros i Hi; apply Hbefore; lia)) as Hloop.
  rewrite take_drop, Hlen in Hloop.
  replace (k + S (fi - k)) with (S fi) in Hloop by lia.
  rewrite Hloop. cbn [for_loop]. unfold watch_body at 1. cbn [Nat.add]. by rewrite Hq.
Qed.

Lemma watch_stops_at_the_top_of_the_loop_witness :
  watch (λ n, bool_decide (n = 1)) "a" "/out/" "" 5
    {| answers := [ListOk Sample.snapshot {| LastIndex := 7 |};
                   ListOk Sample.smaller {| LastIndex := 9 |};
                   ListOk Sample.snapshot {| LastIndex := 11 |}];
       wtrace := [] |}
  = (WReturned,
     {| answers := drop 1 [ListOk Sample.smaller {| LastIndex := 9 |};
                           ListOk Sample.snapshot {| LastIndex := 11 |}];
        wtrace := [WMkdirp "/out/"; WList "a" 0 ""; WSendPairs Sample.snapshot]
                  ++ loop_events "a" "" 7
                       (take 1 [ListOk Sample.smaller {| LastIndex := 9 |};
                                ListOk Sample.snapshot {| LastIndex := 11 |}]) |}).
Proof.
  apply (watch_stops_at_the_top_of_the_loop (λ n, bool_decide (n = 1)) "a" "/out/" "" 5 1).
  - intros i Hi. by destruct i; [|lia].
  - reflexivity.
  - cbn. lia.
  - lia.
Defined.

(** ** The loop of the Reconciler *)

(** X10: once the Reconciler has returned or panicked, what the Watcher
    would still deliver is never looked at. *)
Theorem reconcile_ignores_later_deliveries `{Collaborators}
    (config : WatchConfig) (m : MappingConfig) (ds more : list Delivery)
    (env : option Env) (w : World) :
  (reconcile config m env ds w).1 ≠ Waiting →
  reconcile config m env (ds ++ more) w = reconcile config m env ds w.
Proof.
  revert env w. induction ds as [|d ds IH]; intros env w Hout; [done|].
  destruct d as [pairs|e]; [|done]. cbn [app reconcile] in *.
  destruct (cycle config m env pairs w) as [[env' w']|r]; [by apply IH|done].
Qed.

Lemma reconcile_ignores_later_deliveries_witness :
  @reconcile Sample.quiet (Sample.config true) Sample.mapping None
    ([FromPairCh Sample.snapshot] ++ [FromPairCh Sample.smaller]) Sample.world
  = @reconcile Sample.quiet (Sample.config true) Sample.mapping None
      [FromPairCh Sample.snapshot] Sample.world.
Proof.
  apply (@reconcile_ignores_later_deliveries Sample.quiet (Sample.config true) Sample.mapping
           [FromPairCh Sample.snapshot] [FromPairCh Sample.smaller] None Sample.world).
  vm_compute. discriminate.
Defined.

Lemma leave_not_waiting `{Collaborators} (o : Outcome) (w : World) :
  o ≠ Waiting → (leave o w).1 ≠ Waiting.
Proof.
  intros Ho. unfold leave.
  match goal with |- (run_deferred ?ds o ?w0).1 ≠ _ =>
    destruct (run_deferred_outcome ds o w0) as [->|[msg ->]] end; done.
Qed.

(** A cycle that starts with no Environment is always accepted. *)
Lemma DeepEqual_nil (newEnv : Env) : DeepEqual None (Some newEnv) = false.
Proof. reflexivity. Qed.

Lemma watch_body_extends (quit_seen : nat → bool) (prefix token : string)
    (fi n : nat) (cur : Z) (w : Watcher) :
  ∃ t, match watch_body quit_seen prefix token fi (n, cur, w) with
       | Continue (_, _, w') => wtrace w' = wtrace w ++ t
       | Return (_, w') => wtrace w' = wtrace w ++ t
       end.
Proof.
  unfold watch_body. destruct (quit_seen n); [exists []; by rewrite app_nil_r|].
  destruct fi as [|fi]; [exists []; by rewrite app_nil_r|].
  rewrite retryableList_one_pass. unfold retryableList_body, KV_List, time_Sleep, wemit.
  cbn [answers wtrace]. destruct (answers w) as [|[pairs meta|e] rest]; cbn.
  - by eexists.
  - eexists. by rewrite <- !app_assoc.
  - eexists. by rewrite <- !app_assoc.
Qed.

Lemma watch_loop_extends (quit_seen : nat → bool) (prefix token : string)
    (fi f n : nat) (cur : Z) (w : Watcher) :
  ∃ t, match for_loop f (watch_body quit_seen prefix token fi) (n, cur, w) with
       | Continue (_, _, w') => wtrace w' = wtrace w ++ t
       | Return (_, w') => wtrace w' = wtrace w ++ t
       end.
Proof.
  revert n cur w. induction f as [|f IH]; intros n cur w.
  { exists []. cbn. by rewrite app_nil_r. }
  cbn [for_loop]. destruct (watch_body_extends quit_seen prefix token fi n cur w) as [t Ht].
  destruct (watch_body quit_seen prefix token fi (n, cur, w)) as [[[n' cur'] w']|[st w']].
  - destruct (IH n' cur' w') as [t' Ht']. exists (t ++ t').
    destruct (for_loop f _ _) as [[[? ?] w'']|[? w'']]; by rewrite Ht', Ht, app_assoc.
  - by exists t.
Qed.

(** Whatever the scheduling and the fuel, a first read that succeeds is
    the first thing delivered. *)
Lemma watch_first_delivery (quit_seen : nat → bool) (prefix path token : string)
    (fuel : nat) (pairs : list KVPair) (meta : QueryMeta) (rest : list ListResult) :
  ∃ more,
    deliveries (wtrace (watch quit_seen prefix path token fuel
                          {| answers := ListOk pairs meta :: rest; wtrace := [] |}).2)
    = FromPairCh pairs :: more.
Proof.
  unfold watch. unfold KV_List at 1. unfold wemit. cbn [answers wtrace app].
  match goal with |- context [for_loop fuel ?body (?n, ?cur, ?w)] =>
    destruct (watch_loop_extends quit_seen prefix token fuel fuel n cur w) as [t Ht];
    destruct (for_loop fuel body (n, cur, w)) as [[[? ?] w']|[? w']] end;
    cbn [snd wtrace] in *; rewrite Ht; unfold deliveries; rewrite omap_app; by eexists.
Qed.

(** In a single pass the first cycle ends the unit. *)
Lemma first_cycle_returns `{Collaborators} (config : WatchConfig) (m : MappingConfig)
    (pairs : list KVPair) (w : World) :
  RunOnce config = true →
  ∃ r, cycle config m None pairs w = Return r ∧ r.1 ≠ Waiting.
Proof.
  intros Honce.
  destruct (cycle_accepted config m None pairs w (DeepEqual_nil _)) as (ww & _ & _ & Hends).
  assert (∀ wr, ∃ r, end_cycle config (Some (build_newEnv (Prefix m) pairs w).1) wr = Return r
                     ∧ r.1 ≠ Waiting) as Hend.
  { intros wr. unfold end_cycle. rewrite Honce.
    destruct (close_quitCh wr) as [w'|msg w']; eexists; (split; [done|]);
      by apply leave_not_waiting. }
  destruct Hends as [msg|Hcmd|Hcmd|argv e Hcmd Hrun|argv Hcmd Hrun]; try apply Hend;
    eexists; (split; [done|]); by apply leave_not_waiting.
Qed.

(** X11: in run-once mode only the first snapshot counts: when the first
    read succeeds, the unit ends with the first cycle, and its result is
    the same whatever the store would answer afterwards and however long
    the Watcher goes on. *)
Theorem run_once_stops_after_the_first_snapshot `{Collaborators}
    (config : WatchConfig) (m : MappingConfig) (fuel fuel' : nat)
    (pairs : list KVPair) (meta : QueryMeta) (rest : list ListResult) (w : World) :
  RunOnce config = true →
  watchMappingAndExec config m fuel (ListOk pairs meta :: rest) w
  = watchMappingAndExec config m fuel' [ListOk pairs meta] w
  ∧ (watchMappingAndExec config m fuel (ListOk pairs meta :: rest) w).1 ≠ Waiting.
Proof.
  intros Honce. unfold watchMappingAndExec.
  destruct (buildConsulClient (Consul config)) as [err|]; [done|].
  destruct (normalize m) as [m'|]; [|done]. rewrite Honce.
  destruct (watch_first_delivery quit_seen (Prefix m') (Path m') (Token (Consul config))
              fuel pairs meta rest) as [more ->].
  destruct (watch_first_delivery quit_seen (Prefix m') (Path m') (Token (Consul config))
              fuel' pairs meta []) as [more' ->].
  cbn [reconcile].
  match goal with |- context [cycle config m' None pairs ?w0] =>
    destruct (first_cycle_returns config m' pairs w0 Honce) as (r & -> & Hr) end.
  done.
Qed.

Lemma run_once_stops_after_the_first_snapshot_witness :
  @watchMappingAndExec Sample.quiet (Sample.config true) Sample.mapping 5
    (ListOk Sample.snapshot {| LastIndex := 7 |}
     :: [ListOk Sample.smaller {| LastIndex := 9 |}]) Sample.world
  = @watchMappingAndExec Sample.quiet (Sample.config true) Sample.mapping 0
      [ListOk Sample.snapshot {| LastIndex := 7 |}] Sample.world
  ∧ (@watchMappingAndExec Sample.quiet (Sample.config true) Sample.mapping 5
       (ListOk Sample.snapshot {| LastIndex := 7 |}
        :: [ListOk Sample.smaller {| LastIndex := 9 |}]) Sample.world).1 ≠ Waiting.
Proof.
  apply (@run_once_stops_after_the_first_snapshot Sample.quiet (Sample.config true)
           Sample.mapping 5 0). reflexivity.
Defined.

Lemma reconcile_success `{Collaborators} (config : WatchConfig) (m : MappingConfig)
    (ds : list Delivery) (env : option Env) (w : World) (c : Z) :
  (reconcile config m env ds w).1 = Returned c None → RunOnce config = true.
Proof.
  revert env w. induction ds as [|d ds IH]; intros env w Hret; [done|].
  destruct d as [pairs|e0]; cbn [reconcile] in *.
  2:{ by apply leave_returned in Hret. }
  destruct (DeepEqual env (Some (build_newEnv (Prefix m) pairs w).1)) eqn:Heq.
  { rewrite (cycle_discards _ _ _ _ _ Heq) in *. by eapply IH. }
  destruct (cycle_accepted config m env pairs w Heq) as (ww & _ & _ & Hends).
  assert (∀ wr,
            (match end_cycle config (Some (build_newEnv (Prefix m) pairs w).1) wr with
             | Continue (env', w') => reconcile config m env' ds w'
             | Return r => r
             end).1 = Returned c None → RunOnce config = true) as Hend.
  { intros wr. unfold end_cycle. destruct (RunOnce config); [done|]. apply IH. }
  remember (cycle config m env pairs w) as r eqn:Hr. clear Hr.
  destruct Hends as [msg|Hcmd|Hcmd|argv' e' Hcmd Hrun|argv' Hcmd Hrun];
    lazy beta iota in Hret |- *;
    try (by apply leave_returned in Hret); by eapply Hend.
Qed.

(** X12: a unit returns without an error only in run-once mode, and then
    with the code 0; in continuous mode it ends only by an error or a
    panic. *)
Theorem success_only_in_run_once `{Collaborators}
    (config : WatchConfig) (m : MappingConfig)
    (fuel : nat) (store : list ListResult) (w : World) (c : Z) :
  (watchMappingAndExec config m fuel store w).1 = Returned c None →
  RunOnce config = true ∧ c = 0%Z.
Proof.
  intros Hret. split.
  - revert Hret. unfold watchMappingAndExec.
    destruct (buildConsulClient (Consul config)) as [err|]; [done|].
    destruct (normalize m) as [m'|]; [|done]. apply reconcile_success.
  - destruct (decide (c = 0%Z)) as [|Hc]; [done|].
    revert Hret. unfold watchMappingAndExec.
    destruct (buildConsulClient (Consul config)) as [err|]; [done|].
    destruct (normalize m) as [m'|]; [|done]. intros Hret.
    destruct (reconcile_nonzero _ _ _ _ _ _ _ Hret Hc) as (_ & argv & e & He & _). done.
Qed.

Lemma success_only_in_run_once_witness :
  RunOnce (Sample.config true) = true ∧ 0%Z = 0%Z.
Proof.
  apply (@success_only_in_run_once Sample.quiet (Sample.config true) Sample.mapping 1
           [ListOk Sample.snapshot {| LastIndex := 7 |}] Sample.world 0).
  vm_compute. reflexivity.
Defined.

(** X13: the first cycle of a Reconciler removes no file, whatever is
    under the root path and whatever the snapshot holds: files left by an
    earlier run that have no key any more stay where they are. *)
Theorem first_cycle_removes_nothing `{Collaborators}
    (config : WatchConfig) (m : MappingConfig) (pairs : list KVPair) (w : World) :
  (∃ t, trace (after (cycle config m None pairs w)) = trace w ++ t
        ∧ Forall (λ e, ¬ is_removal e) t)
  ∧ keeps_files w (after (cycle config m None pairs w)).
Proof.
  destruct (cycle_accepted config m None pairs w (DeepEqual_nil _))
    as (ww & Hww & Hkeep & Hends).
  destruct (cycle_ends_trace _ _ _ _ _ Hends) as (fin & Hfin & HPfin & Hfiles & _).
  destruct Hww as (writes & cl & Hwrites & HPwrites & _).
  destruct (build_newEnv_world (Prefix m) pairs w) as (Hf0 & _ & _ & Hlogs).
  cbn [delete_keys emit trace] in *. split.
  - eexists. split.
    + rewrite Hfin, Hwrites, Hlogs. rewrite <- !app_assoc. reflexivity.
    + repeat (apply Forall_app; split).
      * apply Forall_replicate. by intros [].
      * apply Forall_singleton. by intros [].
      * eapply Forall_impl; [exact HPwrites|]. intros [[]| | | |] Hw Hr; cbn in *; done.
      * eapply Forall_impl; [exact HPfin|]. intros [[]| | | |] Hw Hr; cbn in *; done.
  - intros file Hfile. rewrite Hfiles. apply Hkeep. cbn [delete_keys]. by rewrite Hf0.
Qed.

(** ** What an accepted cycle writes *)

(** An accepted cycle ends from the world the loop over [newEnv] leaves. *)
Lemma cycle_accepted_at `{Collaborators} (config : WatchConfig) (m : MappingConfig)
    (env : option Env) (pairs : list KVPair) (w : World) :
  let newEnv := (build_newEnv (Prefix m) pairs w).1 in
  let w1 := emit (EvSetEnv newEnv)
              (delete_keys m env newEnv (build_newEnv (Prefix m) pairs w).2) in
  DeepEqual env (Some newEnv) = false →
  cycle_ends config m newEnv (world_of (write_keys m (range (trace w1) newEnv) w1))
    (cycle config m env pairs w).
Proof.
  intros newEnv w1 Hneq. unfold cycle. subst newEnv w1.
  destruct (build_newEnv (Prefix m) pairs w) as [newEnv w0]. cbn [fst snd] in *.
  rewrite Hneq.
  set (w1 := emit (EvSetEnv newEnv) (delete_keys m env newEnv w0)).
  destruct (write_keys m (range (trace w1) newEnv) w1) as [ww|msg ww]; cbn [world_of].
  - destruct (OnChange m) as [[|name args]|] eqn:Hcmd.
    + by apply ends_empty_command.
    + destruct (sys (Run (name :: args)) ww) as [[e|] wr] eqn:Hrun.
      * replace wr with (sys (Run (name :: args)) ww).2 by (by rewrite Hrun).
        apply ends_command_failed; [done|by rewrite Hrun].
      * replace wr with (sys (Run (name :: args)) ww).2 by (by rewrite Hrun).
        apply ends_command_ok; [done|by rewrite Hrun].
    + by apply ends_no_command.
  - apply ends_write_panic.
Qed.

(** Under a root path that ends in the separator the body of the loop
    over [newEnv] does not panic. *)
Lemma write_key_goes `{Collaborators} (m : MappingConfig) (w : World) (kv : string * string) :
  last_byte (Path m) = Some (PathSeparator goos) →
  ∃ w', write_key m w kv = Go w'.
Proof.
  intros Hlast. unfold write_key. destruct kv as [k v].
  destruct (keyfile_dir (Path m) k Hlast) as [dir ->].
  destruct (sys (Mkdirp dir) w) as [e1 w1].
  match goal with |- context [sys ?c ?w0] => destruct (sys c w0) as [[e2|] w2] end; [by eexists|].
  match goal with |- context [transform m v ?w0] =>
    destruct (transform m v w0) as [[buff|] w3] end; [|by eexists].
  match goal with |- context [sys ?c ?w0] => destruct (sys c w0) as [[e4|] w4] end; [by eexists|].
  match goal with |- context [sys ?c ?w0] => destruct (sys c w0) as [e5 w5] end.
  match goal with |- context [sys ?c ?w0] => destruct (sys c w0) as [e6 w6] end.
  by eexists.
Qed.

(** ** Deletions are not fatal *)

Lemma write_keys_goes `{Collaborators} (m : MappingConfig)
    (kvs : list (string * string)) (w : World) :
  last_byte (Path m) = Some (PathSeparator goos) →
  ∃ w', write_keys m kvs w = Go w'.
Proof.
  intros Hlast. revert w. induction kvs as [|kv kvs IH]; intros w; [by eexists|].
  cbn [write_keys]. destruct (write_key_goes m w kv Hlast) as [w1 ->]. apply IH.
Qed.

Lemma leave_outcome `{Collaborators} (o : Outcome) (w : World) :
  (leave o w).1 = o ∨ ∃ msg, (leave o w).1 = Panicked msg.
Proof. apply run_deferred_outcome. Qed.

Lemma Return_inj {S R : Type} (a b : R) : @Return S R a = Return b → a = b.
Proof. congruence. Qed.

Lemma leave_returns_as `{Collaborators} (o0 o : Outcome) (w0 w' : World) :
  leave o0 w0 = (o, w') → o = o0 ∨ ∃ msg, o = Panicked msg.
Proof.
  intros Hl. destruct (leave_outcome o0 w0) as [Ho|[msg Ho]];
    rewrite Hl in Ho; cbn in Ho; subst; eauto.
Qed.

(** Why an accepted cycle returns, when it does. *)
Lemma cycle_ends_outcome `{Collaborators} (config : WatchConfig) (m : MappingConfig)
    (newEnv : Env) (ww : World) (r : LoopStep (option Env * World) (Outcome * World))
    (fin : list Event) :
  cycle_ends config m newEnv ww r →
  trace (after r) = trace ww ++ fin →
  ∀ o w', r = Return (o, w') →
    (∃ msg, o = Panicked msg)
    ∨ (RunOnce config = true ∧ o = Returned 0 None)
    ∨ (∃ argv e, OnChange m = Some argv ∧ o = Returned 111 (Some e)
                 ∧ EvSys (Run argv) (Some e) ∈ fin).
Proof.
  intros Hends Hfin o w' Hr.
  assert (∀ wr, end_cycle config (Some newEnv) wr = Return (o, w') →
                (∃ msg, o = Panicked msg) ∨ (RunOnce config = true ∧ o = Returned 0 None))
    as Hend.
  { intros wr. unfold end_cycle. destruct (RunOnce config); [|done].
    destruct (close_quitCh wr) as [w2|msg w2]; intros Hl; apply Return_inj in Hl;
      destruct (leave_returns_as _ _ _ _ Hl) as [->|[msg' ->]]; eauto. }
  destruct Hends as [msg|Hcmd|Hcmd|argv e Hcmd Hrun|argv Hcmd Hrun].
  - assert (leave (Panicked msg) ww = (o, w')) as Hl by congruence.
    destruct (leave_returns_as _ _ _ _ Hl) as [->|[msg' ->]]; eauto.
  - destruct (Hend _ Hr) as [?|?]; eauto.
  - assert (leave (Panicked "index out of range") ww = (o, w')) as Hl by congruence.
    destruct (leave_returns_as _ _ _ _ Hl) as [->|[msg' ->]]; eauto.
  - assert (leave (Returned 111 (Some e)) (sys (Run argv) ww).2 = (o, w')) as Hl by congruence.
    destruct (leave_returns_as _ _ _ _ Hl) as [->|[msg' ->]]; [|by eauto].
    right; right. exists argv, e. split; [done|]. split; [done|].
    destruct (leave_any (Returned 111 (Some e)) (sys (Run argv) ww).2) as (t & Ht & _).
    rewrite Hl in Hfin, Ht. cbn [after snd] in Hfin, Ht.
    rewrite Ht, sys_trace, Hrun, <- app_assoc in Hfin.
    apply app_inv_head in Hfin. rewrite <- Hfin. apply list_elem_of_here.
  - destruct (Hend _ Hr) as [?|?]; eauto.
Qed.

(** With the root path normalised the loop over [newEnv] does not panic,
    and the cycle goes from the writes to the command. *)
Lemma cycle_accepted_goes `{Collaborators} (config : WatchConfig) (m : MappingConfig)
    (env : option Env) (pairs : list KVPair) (w : World) :
  let newEnv := (build_newEnv (Prefix m) pairs w).1 in
  let w1 := emit (EvSetEnv newEnv)
              (delete_keys m env newEnv (build_newEnv (Prefix m) pairs w).2) in
  let ww := world_of (write_keys m (range (trace w1) newEnv) w1) in
  DeepEqual env (Some newEnv) = false →
  last_byte (Path m) = Some (PathSeparator goos) →
  OnChange m ≠ Some [] →
  cycle config m env pairs w
  = match OnChange m with
    | Some argv =>
        match (sys (Run argv) ww).1 with
        | Some e => Return (leave (Returned 111 (Some e)) (sys (Run argv) ww).2)
        | None => end_cycle config (Some newEnv) (sys (Run argv) ww).2
        end
    | None => end_cycle config (Some newEnv) ww
    end.
Proof.
  intros newEnv w1 ww Hneq Hlast Hcmd. unfold cycle. subst ww w1 newEnv.
  destruct (build_newEnv (Prefix m) pairs w) as [newEnv w0]. cbn [fst snd] in *.
  rewrite Hneq.
  set (w1 := emit (EvSetEnv newEnv) (delete_keys m env newEnv w0)).
  destruct (write_keys_goes m (range (trace w1) newEnv) w1 Hlast) as [ww ->].
  cbn [world_of]. destruct (OnChange m) as [[|name args]|]; [done| |done].
  by destruct (sys (Run (name :: args)) ww) as [[e|] w2].
Qed.

(** Between two cycles, a cycle that has not returned for another reason
    ends as the mode has it. *)
Lemma end_cycle_between_cycles `{Collaborators} (config : WatchConfig)
    (env : option Env) (w : World) :
  between_cycles (RunOnce config) w →
  if RunOnce config
  then ∃ w', end_cycle config env w = Return (Returned 0 None, w')
  else end_cycle config env w = Continue (env, w).
Proof.
  intros [Hopen (cl & Hdef & Hcl)]. unfold end_cycle, close_quitCh.
  destruct (RunOnce config); [|done]. rewrite Hopen.
  match goal with |- context [leave ?o ?w2] =>
    destruct (leave_closed o w2) as [Ho _]; [cbn; by rewrite Hdef, app_nil_r|];
    destruct (leave o w2) as [o' w'] end.
  cbn in Ho. subst o'. by eexists.
Qed.

(** C7: in an accepted cycle the removals are those of the keys of the
    prior Environment that are missing from the candidate, each key once,
    at the root path followed by the relative key (with the separators
    translated on Windows). A removal that fails is logged and the loop
    goes on with the remaining keys; nothing else in the cycle removes a
    file, so a file that was there and is gone is the file of a deleted
    key. A failed removal is not fatal: whatever the removals answer, the
    cycle goes on with the assignment of the Environment and the loop of
    writes; when it returns, it is by a panic, by the end of a single
    pass, or with the code 111 and the error of a failed run of the
    command, never with the error of a removal. With the root path
    normalised, a command that is not empty and no failed run of it, the
    loop goes on in continuous mode, and in run-once mode (with [quitCh]
    open and no closing of it deferred) the unit returns without error. *)
Theorem removals_are_the_deleted_keys `{Collaborators}
    (config : WatchConfig) (m : MappingConfig)
    (env : option Env) (pairs : list KVPair) (w : World) :
  range_enumerates →
  let newEnv := (build_newEnv (Prefix m) pairs w).1 in
  DeepEqual env (Some newEnv) = false →
  ∃ deleted errs logs rest,
    deleted ≡ₚ elements (dom (default (∅ : Env) env) ∖ dom newEnv)
    ∧ length errs = length deleted
    ∧ trace (after (cycle config m env pairs w))
      = trace w ++ logs
        ++ concat (zip_with removal_events (keyfile (Path m) <$> deleted) errs)
        ++ rest
    ∧ Forall is_log logs
    ∧ Forall (λ e, ¬ is_removal e) rest
    ∧ (∀ file, is_Some (files w !! file) →
               files (after (cycle config m env pairs w)) !! file = None →
               file ∈ keyfile (Path m) <$> deleted)
    ∧ (goos = Unix → ∀ k, keyfile (Path m) k = Path m +:+ k)
    ∧ (∃ writes fin,
         rest = EvSetEnv newEnv :: writes ++ fin
         ∧ Forall is_write_event writes
         ∧ Forall is_final_event fin)
    ∧ (∀ env' w', cycle config m env pairs w = Continue (env', w') → env' = Some newEnv)
    ∧ (∀ o w',
         cycle config m env pairs w = Return (o, w') →
         (∃ msg, o = Panicked msg)
         ∨ (RunOnce config = true ∧ o = Returned 0 None)
         ∨ (∃ argv e, OnChange m = Some argv ∧ o = Returned 111 (Some e)
                      ∧ EvSys (Run argv) (Some e) ∈ rest))
    ∧ (RunOnce config = false →
       last_byte (Path m) = Some (PathSeparator goos) →
       OnChange m ≠ Some [] →
       no_failed_run rest →
       ∃ w', cycle config m env pairs w = Continue (Some newEnv, w'))
    ∧ (RunOnce config = true →
       between_cycles true w →
       last_byte (Path m) = Some (PathSeparator goos) →
       OnChange m ≠ Some [] →
       no_failed_run rest →
       ∃ w', cycle config m env pairs w = Return (Returned 0 None, w')).
Proof.
  intros Hrange newEnv Hneq.
  pose proof (cycle_accepted_at config m env pairs w Hneq) as Hends.
  pose proof (cycle_accepted_goes config m env pairs w) as Hgoes.
  cbn zeta in Hends, Hgoes. fold newEnv in Hends, Hgoes. specialize (Hgoes Hneq).
  set (w0 := (build_newEnv (Prefix m) pairs w).2) in *.
  set (wd := delete_keys m env newEnv w0) in *.
  set (w1 := emit (EvSetEnv newEnv) wd) in *.
  set (ww := world_of (write_keys m (range (trace w1) newEnv) w1)) in *.
  destruct (cycle_ends_trace _ _ _ _ _ Hends) as (fin & Hfin & HPfin & Hfiles & Henv).
  pose proof (write_keys_extends m (range (trace w1) newEnv) w1) as Hext. fold ww in Hext.
  pose proof (write_keys_keeps_files m (range (trace w1) newEnv) w1) as Hkeep. fold ww in Hkeep.
  destruct Hext as (writes & cl & Hwrites & HPwrites & Hdw & Hclw & Hqw).
  destruct (build_newEnv_world (Prefix m) pairs w) as (Hf0 & Hd0 & Hq0 & Hlogs).
  fold w0 in Hf0, Hd0, Hq0, Hlogs.
  destruct (delete_keys_spec m env newEnv w0 Hrange)
    as (deleted & errs & Hperm & Hlen & Hdels & Hfd).
  fold wd in Hdels, Hfd.
  pose proof (delete_keys_extends m env newEnv w0) as Hextd. fold wd in Hextd.
  exists deleted, errs, (replicate (length pairs) (EvLog DebugLevel "Key present in source")),
    (EvSetEnv newEnv :: writes ++ fin).
  assert (∀ e, e ∈ fin → e ∈ EvSetEnv newEnv :: writes ++ fin) as Hsub.
  { intros e He. apply elem_of_cons. right. apply elem_of_app. by right. }
  split; [done|]. split; [done|]. split.
  { rewrite Hfin, Hwrites. cbn [w1 emit trace]. rewrite Hdels, Hlogs.
    by rewrite <- !app_assoc. }
  split; [by apply Forall_replicate|]. split.
  { apply Forall_cons. split; [by intros []|]. apply Forall_app. split.
    + eapply Forall_impl; [exact HPwrites|]. intros [[]| | | |] Hw Hr; cbn in *; done.
    + eapply Forall_impl; [exact HPfin|]. intros [[]| | | |] Hw Hr; cbn in *; done. }
  split.
  { intros file Hfile Hgone.
    destruct (decide (file ∈ keyfile (Path m) <$> deleted)) as [|Hnin]; [done|].
    exfalso. rewrite Hfiles in Hgone.
    assert (is_Some (files ww !! file)) as [v Hv]; [|congruence].
    apply Hkeep. cbn [w1 emit files]. rewrite Hfd by done. by rewrite Hf0. }
  split.
  { intros Hunix k. unfold keyfile, isWindows. rewrite Hunix. reflexivity. }
  split; [by exists writes, fin|]. split; [exact Henv|]. split.
  { intros o w' Hr.
    destruct (cycle_ends_outcome _ _ _ _ _ _ Hends Hfin o w' Hr)
      as [Hp|[Hz|(argv & e & Hargv & Ho & Hin)]]; [by left|by right; left|].
    right; right. exists argv, e. split; [done|]. split; [done|]. by apply Hsub. }
  assert (last_byte (Path m) = Some (PathSeparator goos) →
          OnChange m ≠ Some [] →
          no_failed_run (EvSetEnv newEnv :: writes ++ fin) →
          ∃ wr, extends (λ _, true) ww wr
                ∧ cycle config m env pairs w = end_cycle config (Some newEnv) wr) as Hreach.
  { intros Hlast Hcmd Hquiet. specialize (Hgoes Hlast Hcmd).
    destruct (OnChange m) as [argv|] eqn:Hargv.
    2:{ exists ww. split; [apply extends_refl|done]. }
    destruct (sys (Run argv) ww).1 as [e|] eqn:Hrun.
    - exfalso.
      destruct (leave_any (Returned 111 (Some e)) (sys (Run argv) ww).2) as (t & Ht & _).
      rewrite Hgoes in Hfin. cbn [after] in Hfin.
      destruct (leave _ _) as [o' w'] in Hfin, Ht. cbn [snd] in Hfin, Ht.
      rewrite Ht, sys_trace, Hrun, <- app_assoc in Hfin. apply app_inv_head in Hfin.
      unfold no_failed_run in Hquiet. rewrite Forall_forall in Hquiet.
      apply (Hquiet (EvSys (Run argv) (Some e))); [|done].
      apply Hsub. rewrite <- Hfin. apply list_elem_of_here.
    - exists (sys (Run argv) ww).2. split; [by apply extends_sys|done]. }
  split.
  - intros Honce Hlast Hcmd Hquiet. destruct (Hreach Hlast Hcmd Hquiet) as (wr & _ & ->).
    unfold end_cycle. rewrite Honce. by eexists.
  - intros Honce Hbetween Hlast Hcmd Hquiet.
    destruct (Hreach Hlast Hcmd Hquiet) as (wr & Hwr & ->).
    assert (between_cycles (RunOnce config) wr) as Hbwr.
    { rewrite Honce. eapply extends_between_cycles; [|exact Hbetween].
      eapply extends_trans; [apply (extends_mono is_log (λ _, true)); [done|]|].
      { apply build_newEnv_extends. }
      eapply extends_trans; [apply (extends_mono is_delete_event (λ _, true)); [done|]|].
      { exact Hextd. }
      eapply extends_trans; [apply (extends_emit (λ _, true)); done|].
      eapply extends_trans; [|exact Hwr].
      apply (extends_mono is_write_event (λ _, true)); [done|].
      apply write_keys_extends. }
    pose proof (end_cycle_between_cycles config (Some newEnv) wr Hbwr) as He.
    by rewrite Honce in He.
Qed.

Lemma removals_are_the_deleted_keys_witness :
  ∃ deleted errs logs rest,
    deleted ≡ₚ elements (dom Sample.current ∖ dom (build_newEnv "a" Sample.smaller Sample.world).1)
    ∧ length errs = length deleted
    ∧ trace (after (@cycle Sample.quiet (Sample.config false) Sample.mapping
                      (Some Sample.current) Sample.smaller Sample.world))
      = trace Sample.world ++ logs
        ++ concat (zip_with removal_events (@keyfile Sample.quiet "/out/" <$> deleted) errs)
        ++ rest
    ∧ Forall is_log logs
    ∧ Forall (λ e, ¬ is_removal e) rest
    ∧ (∀ file, is_Some (files Sample.world !! file) →
               files (after (@cycle Sample.quiet (Sample.config false) Sample.mapping
                               (Some Sample.current) Sample.smaller Sample.world))
                 !! file = None →
               file ∈ @keyfile Sample.quiet "/out/" <$> deleted)
    ∧ (∃ writes fin,
         rest = EvSetEnv (build_newEnv "a" Sample.smaller Sample.world).1 :: writes ++ fin
         ∧ Forall is_write_event writes
         ∧ Forall is_final_event fin)
    ∧ (∀ o w',
         @cycle Sample.quiet (Sample.config false) Sample.mapping
           (Some Sample.current) Sample.smaller Sample.world = Return (o, w') →
         (∃ msg, o = Panicked msg)
         ∨ (RunOnce (Sample.config false) = true ∧ o = Returned 0 None)
         ∨ (∃ argv e, OnChange Sample.mapping = Some argv ∧ o = Returned 111 (Some e)
                      ∧ EvSys (Run argv) (Some e) ∈ rest))
    ∧ ∃ w', @cycle Sample.quiet (Sample.config false) Sample.mapping
              (Some Sample.current) Sample.smaller Sample.world
            = Continue (Some (build_newEnv "a" Sample.smaller Sample.world).1, w').
Proof.
  destruct (@removals_are_the_deleted_keys Sample.quiet (Sample.config false) Sample.mapping
              (Some Sample.current) Sample.smaller Sample.world)
    as (deleted & errs & logs & rest & Hdel & Hlen & Htrace & Hlogs & Hrest & Hframe & _
        & Hwrites & _ & Hreturn & Hgoes & _).
  - intros tr e. reflexivity.
  - vm_compute. reflexivity.
  - exists deleted, errs, logs, rest. do 8 (split; [assumption|]).
    apply Hgoes; [reflexivity|reflexivity|discriminate|].
    assert (no_failed_run
              (trace (after (@cycle Sample.quiet (Sample.config false) Sample.mapping
                               (Some Sample.current) Sample.smaller Sample.world)))) as Hquiet.
    { vm_compute. repeat constructor; by intros []. }
    rewrite Htrace in Hquiet. unfold no_failed_run in Hquiet.
    rewrite !Forall_app in Hquiet. by destruct Hquiet as (_ & _ & _ & Hquiet).
Defined.

(** The run of the witness: the file of the deleted key [c] is not there,
    its removal fails and is logged, and the cycle goes on with the
    assignment, the write of [b] and the command; the loop continues. *)
Example failed_removal_is_logged_and_the_cycle_goes_on :
  ∃ w',
    @cycle Sample.quiet (Sample.config false) Sample.mapping
      (Some Sample.current) Sample.smaller Sample.world
    = Continue (Some {[ "b" := "1" ]}, w')
    ∧ trace w'
      = [ EvLog DebugLevel "Key present in source";
          EvLog DebugLevel "Key no longer present locally";
          EvSys (Remove "/out/c") (Some "no such file or directory");
          EvLog ErrorLevel "Failed to remove key";
          EvSetEnv {[ "b" := "1" ]};
          EvSys (Mkdirp "/out") None;
          EvSys (Create "/out/b") None;
          EvLog DebugLevel "Input value length";
          EvSys (Write "/out/b" "1") None;
          EvLog DebugLevel "Successfully wrote value to file";
          EvSys (Sync "/out/b") None;
          EvSys (Close "/out/b") None;
          EvSys (Run ["reload"]) None ].
Proof. eexists. split; vm_compute; reflexivity. Qed.

Lemma write_keys_create `{Collaborators} (m : MappingConfig)
    (kvs : list (string * string)) (w : World) (k v : string) :
  last_byte (Path m) = Some (PathSeparator goos) →
  (k, v) ∈ kvs →
  ∃ t err, trace (world_of (write_keys m kvs w)) = trace w ++ t
           ∧ EvSys (Create (keyfile (Path m) k)) err ∈ t.
Proof.
  intros Hlast. revert w. induction kvs as [|kv kvs IH]; intros w Hin; [by inversion Hin|].
  cbn [write_keys]. destruct (write_key_goes m w kv Hlast) as [w1 Hw1].
  apply elem_of_cons in Hin as [<-|Hin].
  - destruct (create_precedes_the_rest m w k v Hlast) as (before & err & rest & Ht & _).
    rewrite Hw1 in *. cbn [world_of] in Ht.
    destruct (write_keys_extends m kvs w1) as (t & _ & -> & _).
    eexists _, err. split.
    + rewrite Ht, <- app_assoc. reflexivity.
    + apply elem_of_app. left. apply elem_of_app. right. apply list_elem_of_here.
  - rewrite Hw1. destruct (IH w1 Hin) as (t & err & -> & Hev).
    pose proof (write_key_extends m w kv) as (t1 & _ & Ht1 & _).
    rewrite Hw1 in Ht1. cbn [world_of] in Ht1.
    eexists _, err. split.
    + rewrite Ht1, <- app_assoc. reflexivity.
    + apply elem_of_app. by right.
Qed.

(** X14: every accepted cycle creates (and so rewrites) the file of every
    key of the candidate Environment, whether or not the key or its value
    is new: nothing is skipped because it is unchanged. *)
Theorem accepted_cycle_rewrites_every_key `{Collaborators}
    (config : WatchConfig) (m : MappingConfig)
    (env : option Env) (pairs : list KVPair) (w : World) (k : string) :
  range_enumerates →
  last_byte (Path m) = Some (PathSeparator goos) →
  let newEnv := (build_newEnv (Prefix m) pairs w).1 in
  DeepEqual env (Some newEnv) = false →
  k ∈ dom newEnv →
  ∃ t err, trace (after (cycle config m env pairs w)) = trace w ++ t
           ∧ EvSys (Create (keyfile (Path m) k)) err ∈ t.
Proof.
  intros Hrange Hlast newEnv Hneq Hk.
  pose proof (cycle_accepted_at config m env pairs w Hneq) as Hends. cbn zeta in Hends.
  fold newEnv in Hends.
  destruct (cycle_ends_trace _ _ _ _ _ Hends) as (fin & -> & _).
  apply elem_of_dom in Hk as [v Hv].
  match type of Hends with cycle_ends _ _ _ (world_of (write_keys m (range ?tr _) ?w1)) _ =>
    destruct (write_keys_create m (range tr newEnv) w1 k v Hlast) as (t & err & -> & Herr) end.
  { rewrite (Hrange _ newEnv). by apply elem_of_map_to_list. }
  destruct (build_newEnv_extends (Prefix m) pairs w) as (t1 & _ & Ht1 & _).
  destruct (delete_keys_extends m env newEnv (build_newEnv (Prefix m) pairs w).2)
    as (t2 & _ & Ht2 & _).
  eexists _, err. split.
  - cbn [emit trace]. rewrite Ht2, Ht1, <- !app_assoc. reflexivity.
  - apply elem_of_app. right. apply elem_of_app. right.
    apply elem_of_app. right. apply elem_of_app. by left.
Qed.

Lemma accepted_cycle_rewrites_every_key_witness :
  ∃ t err, trace (after (@cycle Sample.quiet (Sample.config false) Sample.mapping
                           (Some Sample.current) Sample.smaller Sample.synced))
           = trace Sample.synced ++ t
           ∧ EvSys (Create (@keyfile Sample.quiet "/out/" "b")) err ∈ t.
Proof.
  apply (@accepted_cycle_rewrites_every_key Sample.quiet (Sample.config false) Sample.mapping
           (Some Sample.current) Sample.smaller Sample.synced "b").
  - intros tr e. reflexivity.
  - reflexivity.
  - vm_compute. reflexivity.
  - apply elem_of_dom. exists "1". vm_compute. reflexivity.
Defined.

Lemma write_key_quiet `{Collaborators} (m : MappingConfig) (w : World) (k v : string) :
  (∀ tr c, fault tr c = None) →
  Keystore m = "" →
  last_byte (Path m) = Some (PathSeparator goos) →
  ∃ w' dir,
    write_key m w (k, v) = Go w'
    ∧ trace w'
      = trace w
        ++ [ EvSys (Mkdirp dir) None;
             EvSys (Create (keyfile (Path m) k)) None;
             EvLog DebugLevel "Input value length";
             EvSys (Write (keyfile (Path m) k) v) None;
             EvLog DebugLevel "Successfully wrote value to file";
             EvSys (Sync (keyfile (Path m) k)) None;
             EvSys (Close (keyfile (Path m) k)) None ].
Proof.
  intros Hquiet Hks Hlast. unfold write_key.
  destruct (keyfile_dir (Path m) k Hlast) as [dir ->].
  unfold sys at 1. rewrite Hquiet. lazy beta iota zeta.
  unfold sys at 1. rewrite Hquiet. lazy beta iota zeta.
  unfold transform. rewrite Hks. cbn [String.length]. rewrite decide_False by lia.
  unfold sys at 1. rewrite Hquiet. lazy beta iota zeta.
  unfold sys at 1. rewrite Hquiet. lazy beta iota zeta.
  unfold sys at 1. rewrite Hquiet. lazy beta iota zeta.
  eexists _, dir. split; [reflexivity|]. cbn. by rewrite <- !app_assoc.
Qed.

Lemma write_keys_quiet `{Collaborators} (m : MappingConfig)
    (kvs : list (string * string)) (w : World) (k v : string) :
  (∀ tr c, fault tr c = None) →
  Keystore m = "" →
  last_byte (Path m) = Some (PathSeparator goos) →
  (k, v) ∈ kvs →
  ∃ before dir later,
    trace (world_of (write_keys m kvs w))
    = trace w ++ before
      ++ [ EvSys (Mkdirp dir) None;
           EvSys (Create (keyfile (Path m) k)) None;
           EvLog DebugLevel "Input value length";
           EvSys (Write (keyfile (Path m) k) v) None;
           EvLog DebugLevel "Successfully wrote value to file";
           EvSys (Sync (keyfile (Path m) k)) None;
           EvSys (Close (keyfile (Path m) k)) None ]
      ++ later.
Proof.
  intros Hquiet Hks Hlast. revert w. induction kvs as [|[k0 v0] kvs IH]; intros w Hin.
  { by inversion Hin. }
  cbn [write_keys].
  destruct (write_key_quiet m w k0 v0 Hquiet Hks Hlast) as (w1 & dir0 & -> & Ht1).
  apply elem_of_cons in Hin as [[= <- <-]|Hin].
  - destruct (write_keys_extends m kvs w1) as (t & _ & -> & _).
    exists [], dir0, t. rewrite Ht1. cbn [app]. by rewrite <- !app_assoc.
  - destruct (IH w1 Hin) as (before & dir & later & ->).
    match type of Ht1 with _ = _ ++ ?t => exists (t ++ before), dir, later end.
    rewrite Ht1. by rewrite <- !app_assoc.
Qed.

(** X15: on a host where no call fails, for a mapping without keystore and
    a root path that ends in the separator, an accepted cycle handles every
    key of the candidate Environment by the same run of calls on the file
    path of the key: the directory is made, the file is created, exactly
    the value of the key is written to it, unchanged, and the file is
    synced and closed, with nothing in between but the two log lines. *)
Theorem accepted_cycle_writes_the_values `{Collaborators}
    (config : WatchConfig) (m : MappingConfig)
    (env : option Env) (pairs : list KVPair) (w : World) (k v : string) :
  range_enumerates →
  (∀ tr c, fault tr c = None) →
  Keystore m = "" →
  last_byte (Path m) = Some (PathSeparator goos) →
  let newEnv := (build_newEnv (Prefix m) pairs w).1 in
  DeepEqual env (Some newEnv) = false →
  newEnv !! k = Some v →
  ∃ before dir later,
    trace (after (cycle config m env pairs w))
    = trace w ++ before
      ++ [ EvSys (Mkdirp dir) None;
           EvSys (Create (keyfile (Path m) k)) None;
           EvLog DebugLevel "Input value length";
           EvSys (Write (keyfile (Path m) k) v) None;
           EvLog DebugLevel "Successfully wrote value to file";
           EvSys (Sync (keyfile (Path m) k)) None;
           EvSys (Close (keyfile (Path m) k)) None ]
      ++ later.
Proof.
  intros Hrange Hquiet Hks Hlast newEnv Hneq Hkv.
  pose proof (cycle_accepted_at config m env pairs w Hneq) as Hends. cbn zeta in Hends.
  fold newEnv in Hends.
  destruct (cycle_ends_trace _ _ _ _ _ Hends) as (fin & -> & _).
  match type of Hends with cycle_ends _ _ _ (world_of (write_keys m (range ?tr _) ?w1)) _ =>
    destruct (write_keys_quiet m (range tr newEnv) w1 k v Hquiet Hks Hlast)
      as (before & dir & later & ->) end.
  { rewrite (Hrange _ newEnv). by apply elem_of_map_to_list. }
  destruct (build_newEnv_extends (Prefix m) pairs w) as (t1 & _ & Ht1 & _).
  destruct (delete_keys_extends m env newEnv (build_newEnv (Prefix m) pairs w).2)
    as (t2 & _ & Ht2 & _).
  eexists (t1 ++ t2 ++ [EvSetEnv newEnv] ++ before), dir, (later ++ fin).
  cbn [emit trace]. rewrite Ht2, Ht1. by rewrite <- !app_assoc.
Qed.

Lemma accepted_cycle_writes_the_values_witness :
  ∃ before dir later,
    trace (after (@cycle Sample.quiet
                    {| RunOnce := false; Consul := Sample.consul; Mappings := [] |}
                    {| OnChange := None; OnChangeRaw := ""; Prefix := "a"; Path := "/out/";
                       Keystore := "" |}
                    None Sample.snapshot Sample.world))
    = trace Sample.world ++ before
      ++ [ EvSys (Mkdirp dir) None;
           EvSys (Create (@keyfile Sample.quiet "/out/" "c")) None;
           EvLog DebugLevel "Input value length";
           EvSys (Write (@keyfile Sample.quiet "/out/" "c") "2") None;
           EvLog DebugLevel "Successfully wrote value to file";
           EvSys (Sync (@keyfile Sample.quiet "/out/" "c")) None;
           EvSys (Close (@keyfile Sample.quiet "/out/" "c")) None ]
      ++ later.
Proof.
  apply (@accepted_cycle_writes_the_values Sample.quiet
           {| RunOnce := false; Consul := Sample.consul; Mappings := [] |}
           {| OnChange := None; OnChangeRaw := ""; Prefix := "a"; Path := "/out/";
              Keystore := "" |}
           None Sample.snapshot Sample.world "c" "2").
  - intros tr e. reflexivity.
  - intros tr c. destruct c; reflexivity.
  - reflexivity.
  - reflexivity.
  - reflexivity.
  - vm_compute. reflexivity.
Defined.

(** ** Deferred closings *)

Lemma defers_refl (w : World) : defers w w.
Proof. exists []. by rewrite app_nil_r. Qed.

Lemma defers_trans (w1 w2 w3 : World) : defers w1 w2 → defers w2 w3 → defers w1 w3.
Proof.
  intros (t1 & Ht1 & Hd1) (t2 & Ht2 & Hd2). exists (t1 ++ t2). split.
  - by rewrite Ht2, Ht1, app_assoc.
  - rewrite Hd2, Hd1. unfold creations. rewrite omap_app, reverse_app, fmap_app.
    by rewrite app_assoc.
Qed.

Lemma defers_step (w w' : World) (t : list Event) :
  trace w' = trace w ++ t → creations t = [] → deferred w' = deferred w → defers w w'.
Proof. intros Ht Hc Hd. exists t. by rewrite Hc. Qed.

Lemma defers_log (lvl : Level) (msg : string) (w : World) : defers w (log lvl msg w).
Proof. by apply (defers_step _ _ [EvLog lvl msg]). Qed.

Lemma defers_emit (e : Event) (w : World) : created e = None → defers w (emit e w).
Proof.
  intros He. apply (defers_step _ _ [e]); [done| |done].
  unfold creations. cbn [omap list_omap]. by rewrite He.
Qed.

Lemma defers_sys `{Collaborators} (c : SysCall) (w : World) :
  created (EvSys c (sys c w).1) = None → defers w (sys c w).2.
Proof.
  intros Hc. apply (defers_step _ _ [EvSys c (sys c w).1]); [apply sys_trace| |done].
  unfold creations. cbn [omap list_omap]. by rewrite Hc.
Qed.

Lemma defers_create `{Collaborators} (file : string) (w : World) :
  (sys (Create file) w).1 = None → defers w (defer (DeferClose file) (sys (Create file) w).2).
Proof.
  intros Hok. exists [EvSys (Create file) None]. split; [|done].
  cbn [defer trace]. by rewrite sys_trace, Hok.
Qed.

Lemma transform_defers `{Collaborators} (m : MappingConfig) (v : string) (w : World) :
  defers w (transform m v w).2.
Proof.
  unfold transform. destruct (decide _); [|apply defers_refl].
  destruct (gosecret_DecryptTags v (Keystore m)) as [data|e]; cbn [snd].
  2:{ eapply defers_trans; [|apply defers_log]. by apply defers_emit. }
  destruct (template_Parse (Keystore m) data) as [tmpl|e]; cbn [snd].
  2:{ eapply defers_trans; [|apply defers_log].
      eapply defers_trans; [|by apply defers_emit].
      eapply defers_trans; [|apply defers_log]. by apply defers_emit. }
  destruct (template_Execute tmpl) as [out|e]; cbn [snd].
  - eapply defers_trans; [|by apply defers_emit].
    eapply defers_trans; [|by apply defers_emit].
    eapply defers_trans; [|apply defers_log]. by apply defers_emit.
  - eapply defers_trans; [|apply defers_log].
    eapply defers_trans; [|by apply defers_emit].
    eapply defers_trans; [|by apply defers_emit].
    eapply defers_trans; [|apply defers_log]. by apply defers_emit.
Qed.

Lemma write_key_defers `{Collaborators} (m : MappingConfig) (w : World) (kv : string * string) :
  defers w (world_of (write_key m w kv)).
Proof.
  unfold write_key. destruct kv as [k v].
  destruct (slice_to _ _) as [dir|]; [|apply defers_refl].
  pose proof (defers_sys (Mkdirp dir) w eq_refl) as H1.
  destruct (sys (Mkdirp dir) w) as [e1 w1]. cbn [snd] in H1.
  set (w2 := match e1 with
             | Some _ => log ErrorLevel "Failed to create parent directory for key" w1
             | None => w1
             end).
  assert (defers w w2) as H2.
  { unfold w2. destruct e1; [|done]. eapply defers_trans; [exact H1|apply defers_log]. }
  pose proof (defers_create (keyfile (Path m) k) w2) as H3.
  pose proof (defers_sys (Create (keyfile (Path m) k)) w2) as H3'.
  destruct (sys (Create (keyfile (Path m) k)) w2) as [[e3|] w3]; cbn [fst snd world_of] in *.
  { eapply defers_trans; [exact H2|]. eapply defers_trans; [by apply H3'|apply defers_log]. }
  specialize (H3 eq_refl). clear H3'.
  set (w4 := log DebugLevel "Input value length" (defer (DeferClose (keyfile (Path m) k)) w3)).
  assert (defers w w4) as H4.
  { eapply defers_trans; [exact H2|]. eapply defers_trans; [exact H3|apply defers_log]. }
  pose proof (transform_defers m v w4) as H5.
  destruct (transform m v w4) as [[buff|] w5]; cbn [snd world_of] in *.
  2:{ by eapply defers_trans. }
  assert (defers w w5) as H5' by (by eapply defers_trans). clear H5.
  pose proof (defers_sys (Write (keyfile (Path m) k) buff) w5 eq_refl) as H6.
  destruct (sys (Write (keyfile (Path m) k) buff) w5) as [[e6|] w6]; cbn [snd world_of] in *.
  { eapply defers_trans; [exact H5'|]. eapply defers_trans; [exact H6|apply defers_log]. }
  set (w7 := log DebugLevel "Successfully wrote value to file" w6).
  assert (defers w w7) as H7.
  { eapply defers_trans; [exact H5'|]. eapply defers_trans; [exact H6|apply defers_log]. }
  pose proof (defers_sys (Sync (keyfile (Path m) k)) w7 eq_refl) as H8.
  destruct (sys (Sync (keyfile (Path m) k)) w7) as [e8 w8]. cbn [snd] in H8.
  set (w9 := match e8 with
             | Some _ => log ErrorLevel "Failed to sync file" w8
             | None => w8
             end).
  assert (defers w w9) as H9.
  { eapply defers_trans; [exact H7|]. unfold w9.
    destruct e8; [|done]. eapply defers_trans; [exact H8|apply defers_log]. }
  pose proof (defers_sys (Close (keyfile (Path m) k)) w9 eq_refl) as H10.
  destruct (sys (Close (keyfile (Path m) k)) w9) as [e10 w10]. cbn [snd world_of] in *.
  eapply defers_trans; [exact H9|].
  destruct e10; [|done]. eapply defers_trans; [exact H10|apply defers_log].
Qed.

Lemma write_keys_defers `{Collaborators} (m : MappingConfig)
    (kvs : list (string * string)) (w : World) :
  defers w (world_of (write_keys m kvs w)).
Proof.
  revert w. induction kvs as [|kv kvs IH]; intros w; [apply defers_refl|].
  cbn [write_keys]. pose proof (write_key_defers m w kv) as Hkv.
  destruct (write_key m w kv) as [w'|msg w']; cbn [world_of] in *; [|done].
  eapply defers_trans; [exact Hkv|apply IH].
Qed.

Lemma delete_keys_defers `{Collaborators} (m : MappingConfig)
    (env : option Env) (newEnv : Env) (w : World) :
  defers w (delete_keys m env newEnv w).
Proof.
  unfold delete_keys. destruct env as [e|]; [|apply defers_refl].
  generalize ((range (trace w) e).*1). intros ks. revert w.
  induction ks as [|k ks IH]; intros w; [apply defers_refl|].
  cbn [foldl]. eapply defers_trans; [|apply IH].
  unfold delete_key. destruct (newEnv !! k); [apply defers_refl|].
  match goal with |- context [sys ?c ?w0] =>
    pose proof (defers_sys c w0 eq_refl) as Hs; destruct (sys c w0) as [err w1] end.
  cbn [snd] in Hs. eapply defers_trans; [apply defers_log|].
  destruct err; [|done]. eapply defers_trans; [exact Hs|apply defers_log].
Qed.

Lemma build_newEnv_defers (prefix : string) (pairs : list KVPair) (w : World) :
  defers w (build_newEnv prefix pairs w).2.
Proof.
  destruct (build_newEnv_world prefix pairs w) as (_ & Hd & _ & Ht).
  eapply defers_step; [exact Ht| |exact Hd].
  clear. induction (length pairs) as [|n IH]; [done|exact IH].
Qed.

(** Returning runs the deferred calls, the latest first: the files it
    closes are those whose closing was deferred. *)
Lemma run_deferred_closes_files `{Collaborators} (ds : list Deferred) (o : Outcome) (w : World) :
  ∃ closings, trace (run_deferred ds o w).2 = trace w ++ closings
              ∧ Forall is_closing_event closings
              ∧ omap closed closings = omap deferred_file ds.
Proof.
  revert o w. induction ds as [|d ds IH]; intros o w.
  { exists []. by rewrite app_nil_r. }
  destruct d as [file|]; cbn [run_deferred].
  - destruct (IH o (sys (Close file) w).2) as (cl & Ht & HP & Hc).
    exists (EvSys (Close file) (sys (Close file) w).1 :: cl). split; [|split].
    + rewrite Ht, sys_trace. by rewrite <- app_assoc.
    + by constructor.
    + cbn. by rewrite Hc.
  - unfold close_quitCh. destruct (quitClosed w); [apply IH|].
    match goal with |- context [run_deferred ds o ?w1] =>
      destruct (IH o w1) as (cl & Ht & HP & Hc) end.
    exists (EvCloseQuit :: cl). split; [|split].
    + rewrite Ht. cbn. by rewrite <- app_assoc.
    + by constructor.
    + done.
Qed.

Lemma omap_deferred_file (files : list string) :
  omap deferred_file (DeferClose <$> files) = files.
Proof. induction files as [|f fs IH]; [done|]. cbn. by rewrite IH. Qed.

(** What a return adds, from a world that [defers] from the start of the
    unit. *)
Lemma leave_closes_created `{Collaborators} (o : Outcome) (w0 w : World) :
  defers w0 w →
  ∃ t closings,
    trace (leave o w).2 = trace w0 ++ t ++ closings
    ∧ Forall is_closing_event closings
    ∧ omap closed closings = reverse (creations t) ++ omap deferred_file (deferred w0).
Proof.
  intros (t & Ht & Hd). unfold leave.
  match goal with |- context [run_deferred ?ds o ?w1] =>
    destruct (run_deferred_closes_files ds o w1) as (cl & Hcl & HP & Hc) end.
  exists t, cl. split; [|split; [done|]].
  - rewrite Hcl. cbn [trace]. by rewrite Ht, app_assoc.
  - rewrite Hc, Hd, omap_app. by rewrite omap_deferred_file.
Qed.

Lemma reconcile_closes_created `{Collaborators} (config : WatchConfig) (m : MappingConfig)
    (ds : list Delivery) (env : option Env) (w0 w : World) :
  defers w0 w →
  (reconcile config m env ds w).1 ≠ Waiting →
  ∃ t closings,
    trace (reconcile config m env ds w).2 = trace w0 ++ t ++ closings
    ∧ Forall is_closing_event closings
    ∧ omap closed closings = reverse (creations t) ++ omap deferred_file (deferred w0).
Proof.
  revert env w. induction ds as [|d ds IH]; intros env w Hdef Hout; [done|].
  destruct d as [pairs|e0]; cbn [reconcile] in *.
  2:{ by apply leave_closes_created. }
  destruct (DeepEqual env (Some (build_newEnv (Prefix m) pairs w).1)) eqn:Heq.
  { rewrite (cycle_discards _ _ _ _ _ Heq) in *. apply IH; [|done].
    eapply defers_trans; [exact Hdef|apply build_newEnv_defers]. }
  pose proof (cycle_accepted_at config m env pairs w Heq) as Hends. cbn zeta in Hends.
  match type of Hends with cycle_ends _ _ _ (world_of (write_keys m ?kvs ?w1)) _ =>
    assert (defers w0 (world_of (write_keys m kvs w1))) as Hww;
    [|generalize dependent (world_of (write_keys m kvs w1)); intros ww Hends Hww] end.
  { eapply defers_trans; [exact Hdef|].
    eapply defers_trans; [apply build_newEnv_defers|].
    eapply defers_trans; [apply delete_keys_defers|].
    eapply defers_trans; [|apply write_keys_defers]. by apply defers_emit. }
  assert (∀ wr, defers w0 wr →
            let r := match end_cycle config (Some (build_newEnv (Prefix m) pairs w).1) wr with
                     | Continue (env', w') => reconcile config m env' ds w'
                     | Return r => r
                     end in
            r.1 ≠ Waiting →
            ∃ t closings,
              trace r.2 = trace w0 ++ t ++ closings
              ∧ Forall is_closing_event closings
              ∧ omap closed closings
                = reverse (creations t) ++ omap deferred_file (deferred w0)) as Hend.
  { intros wr Hwr. unfold end_cycle.
    destruct (RunOnce config); [|lazy beta iota zeta; by apply IH].
    unfold close_quitCh. destruct (quitClosed wr); lazy beta iota zeta; intros _.
    - by apply leave_closes_created.
    - apply leave_closes_created. eapply defers_trans; [exact Hwr|].
      by apply (defers_step _ _ [EvCloseQuit]). }
  remember (cycle config m env pairs w) as r eqn:Hr. clear Hr.
  destruct Hends as [msg|Hcmd|Hcmd|argv' e' Hcmd Hrun|argv' Hcmd Hrun];
    lazy beta iota in Hout |- *.
  - by apply leave_closes_created.
  - by apply Hend.
  - by apply leave_closes_created.
  - apply leave_closes_created. eapply defers_trans; [exact Hww|]. by apply defers_sys.
  - apply Hend; [|done]. eapply defers_trans; [exact Hww|]. by apply defers_sys.
Qed.

(** X16: a file the unit creates is closed by a deferred call that runs
    only when the unit returns or panics: what a return adds to the trace
    is the closing of exactly the files created since the unit started,
    the latest first (and of [quitCh]), whether or not they were closed
    before. *)
Theorem return_closes_every_created_file `{Collaborators}
    (config : WatchConfig) (m : MappingConfig)
    (fuel : nat) (store : list ListResult) (w : World) :
  (watchMappingAndExec config m fuel store w).1 ≠ Waiting →
  ∃ t closings,
    trace (watchMappingAndExec config m fuel store w).2 = trace w ++ t ++ closings
    ∧ Forall is_closing_event closings
    ∧ omap closed closings = reverse (creations t).
Proof.
  unfold watchMappingAndExec.
  destruct (buildConsulClient (Consul config)) as [err|].
  { intros _. exists [], []. by rewrite app_nil_r. }
  destruct (normalize m) as [m'|].
  2:{ intros _. exists [], []. by rewrite app_nil_r. }
  intros Hout.
  match type of Hout with (reconcile _ _ _ ?ds ?w1).1 ≠ _ =>
    destruct (reconcile_closes_created config m' ds None w1 w1 (defers_refl _) Hout)
      as (t & cl & Ht & HP & Hc) end.
  exists t, cl. split; [|split; [done|]].
  - rewrite Ht. by destruct (RunOnce config).
  - rewrite Hc. destruct (RunOnce config); cbn; by rewrite app_nil_r.
Qed.

Lemma return_closes_every_created_file_witness :
  ∃ t closings,
    trace (@watchMappingAndExec Sample.windows_locked
             {| RunOnce := true; Consul := Sample.consul; Mappings := [Sample.secret] |}
             Sample.secret 1 [ListOk Sample.snapshot {| LastIndex := 7 |}] Sample.world).2
    = trace Sample.world ++ t ++ closings
    ∧ Forall is_closing_event closings
    ∧ omap closed closings = reverse (creations t).
Proof.
  apply (@return_closes_every_created_file Sample.windows_locked
           {| RunOnce := true; Consul := Sample.consul; Mappings := [Sample.secret] |}
           Sample.secret 1 [ListOk Sample.snapshot {| LastIndex := 7 |}] Sample.world).
  vm_compute. discriminate.
Defined.

(** ** The command line *)

Lemma normalize_empty `{Collaborators} (m : MappingConfig) :
  Prefix m = "" ∨ Path m = "" → normalize m = None.
Proof.
  intros [Hpre|Hpath]; unfold normalize.
  - by rewrite Hpre.
  - destruct (first_byte (Prefix m)); [|reflexivity]. cbn [mbind option_bind].
    by rewrite Hpath.
Qed.

Lemma unit_of_panics `{Collaborators} (config : WatchConfig) (m : MappingConfig)
    (fuel : nat) (store : list ListResult) (w : World) :
  buildConsulClient (Consul config) = None →
  OnChangeRaw m = "" →
  Prefix m = "" ∨ Path m = "" →
  (unit_of config m fuel store w).1 = Panicked "index out of range".
Proof.
  intros Hclient Hraw Hempty. unfold unit_of. rewrite Hraw.
  destruct (decide ("" ≠ "")) as [|_]; [done|].
  unfold watchMappingAndExec. rewrite Hclient, (normalize_empty m Hempty). done.
Qed.

Lemma applyDefaults_Mappings (config : WatchConfig) :
  Mappings (applyDefaults config) = Mappings config.
Proof. unfold applyDefaults. by destruct (decide _). Qed.

Lemma Split_free (s : string) (sep : ascii) :
  Forall (λ piece, strings.contains piece sep = false) (strings.Split s sep).
Proof.
  induction s as [|c s IH]; [by repeat constructor|].
  cbn [strings.Split]. pose proof (Split_nonempty s sep) as Hne.
  destruct (decide (c = sep)) as [->|Hc]; [by constructor|].
  destruct (strings.Split s sep) as [|piece rest]; [done|].
  inversion IH as [|? ? Hp Hrest]; subst. constructor; [|done].
  cbn. destruct (decide (c = sep)); [done|]. exact Hp.
Qed.

(** The configuration the command line gives when the arguments are well
    formed. *)
Lemma realMain_config_command_line `{Collaborators}
    (Unmarshal : string → result WatchConfig) (fl : Flags)
    (arg0 arg1 : string) (rest : list string) :
  flag_configFile fl = "" →
  flag_args fl = arg0 :: arg1 :: rest →
  length (strings.Split arg0 "|") = length (strings.Split arg1 "|") →
  realMain_config Unmarshal fl
  = inr {| RunOnce := flag_once fl;
           Consul := {| Addr := flag_addr fl; DC := flag_dc fl;
                        Token := flag_token fl; KeyFile := "";
                        CertFile := ""; CAFile := ""; UseTLS := false |};
           Mappings :=
             zip_with (λ prefix path,
                         {| OnChange := match rest with [] => None | _ => Some rest end;
                            OnChangeRaw := "";
                            Prefix := prefix; Path := path;
                            Keystore := flag_keystore fl |})
               (strings.Split arg0 "|") (strings.Split arg1 "|") |}.
Proof.
  intros Hfile Hargs Hlen. unfold realMain_config. rewrite Hfile, Hargs.
  destruct (decide _) as [[_ Hshort]|_]; [cbn in Hshort; lia|].
  destruct (decide ("" ≠ "")) as [|_]; [done|].
  destruct (decide (length _ ≠ length _)) as [|_]; [done|].
  do 3 f_equal. destruct rest as [|r rest'].
  - by destruct (decide _) as [Hl|_]; [cbn in Hl; lia|].
  - by destruct (decide _) as [_|Hl]; [|cbn in Hl; lia].
Qed.

(** X17: the codes [realMain] exits with. 1, 2 and 3 are the errors of the
    configuration, found before any watcher starts: 1 for a command line
    with fewer than two arguments or with different numbers of prefixes
    and paths, 2 for a configuration file that cannot be read, 3 for one
    that cannot be decoded. Every other exit code is 0 or -1, what
    [watchAndExec] returns: the code 111 of a failed command is never the
    exit code of the process. *)
Theorem realMain_exit_codes `{Collaborators}
    (Unmarshal : string → result WatchConfig) (fl : Flags)
    (fuel : nat) (input : nat → list ListResult * World) (c : Z) :
  realMain Unmarshal fl fuel input = ExitCode c →
  (c = 1%Z ∧ flag_configFile fl = ""
   ∧ (length (flag_args fl) < 2
      ∨ ∃ arg0 arg1 rest,
          flag_args fl = arg0 :: arg1 :: rest
          ∧ length (strings.Split arg0 "|") ≠ length (strings.Split arg1 "|")))
  ∨ (c = 2%Z ∧ flag_configFile fl ≠ ""
     ∧ ∃ e, ReadFile (flag_configFile fl) = Err e)
  ∨ (c = 3%Z ∧ flag_configFile fl ≠ ""
     ∧ ∃ body e, ReadFile (flag_configFile fl) = Ok body ∧ Unmarshal body = Err e)
  ∨ ((c = 0%Z ∨ c = (-1)%Z)
     ∧ ∃ config, realMain_config Unmarshal fl = inr config
                 ∧ watchAndExec config fuel input = ExitCode c).
Proof.
  unfold realMain. destruct (realMain_config Unmarshal fl) as [exit|config] eqn:Hconfig.
  - intros ->. unfold realMain_config in Hconfig.
    destruct (decide _) as [[Hfile Hshort]|Hlong] in Hconfig.
    { injection Hconfig as <-. left. by eauto. }
    destruct (decide (flag_configFile fl ≠ "")) as [Hfile|Hfile] in Hconfig.
    + destruct (ReadFile (flag_configFile fl)) as [body|e] eqn:Hread.
      * destruct (Unmarshal body) as [config|e] eqn:Hjson; [done|].
        injection Hconfig as <-. right; right; left. by eauto 6.
      * injection Hconfig as <-. right; left. by eauto.
    + apply dec_stable in Hfile.
      destruct (flag_args fl) as [|arg0 [|arg1 rest]] eqn:Hargs; [done..|].
      destruct (decide (length _ ≠ length _)) as [Hne|_] in Hconfig; [|done].
      injection Hconfig as <-. left. split; [done|]. split; [done|]. right. by eauto.
  - intros Hexit. right; right; right. split; [|by eauto].
    unfold watchAndExec in Hexit. destruct (existsb _ _); [done|].
    destruct (wait_all _ _ _) as [[]|]; [| |done]; injection Hexit as <-; by eauto.
Qed.

Lemma realMain_exit_codes_witness :
  (0%Z = 1%Z ∧ flag_configFile (SampleMain.flags true "" ["a"; "/out/"; "reload"]) = ""
   ∧ (length (flag_args (SampleMain.flags true "" ["a"; "/out/"; "reload"])) < 2
      ∨ ∃ arg0 arg1 rest,
          flag_args (SampleMain.flags true "" ["a"; "/out/"; "reload"]) = arg0 :: arg1 :: rest
          ∧ length (strings.Split arg0 "|") ≠ length (strings.Split arg1 "|")))
  ∨ (0%Z = 2%Z ∧ flag_configFile (SampleMain.flags true "" ["a"; "/out/"; "reload"]) ≠ ""
     ∧ ∃ e, @ReadFile SampleMain.host
              (flag_configFile (SampleMain.flags true "" ["a"; "/out/"; "reload"])) = Err e)
  ∨ (0%Z = 3%Z ∧ flag_configFile (SampleMain.flags true "" ["a"; "/out/"; "reload"]) ≠ ""
     ∧ ∃ body e,
         @ReadFile SampleMain.host
           (flag_configFile (SampleMain.flags true "" ["a"; "/out/"; "reload"])) = Ok body
         ∧ SampleMain.Unmarshal body = Err e)
  ∨ ((0%Z = 0%Z ∨ 0%Z = (-1)%Z)
     ∧ ∃ config,
         @realMain_config SampleMain.host SampleMain.Unmarshal
           (SampleMain.flags true "" ["a"; "/out/"; "reload"]) = inr config
         ∧ @watchAndExec SampleMain.host config 1 SampleMain.input = ExitCode 0).
Proof.
  apply (@realMain_exit_codes SampleMain.host SampleMain.Unmarshal
           (SampleMain.flags true "" ["a"; "/out/"; "reload"]) 1 SampleMain.input 0%Z).
  vm_compute. reflexivity.
Defined.

(** X18: with a configuration file, the arguments and the other flags of
    the command line are ignored, [-once] included: two command lines that
    name the same file end alike. *)
Theorem config_file_overrides_the_command_line `{Collaborators}
    (Unmarshal : string → result WatchConfig) (fl fl' : Flags)
    (fuel : nat) (input : nat → list ListResult * World) :
  flag_configFile fl ≠ "" →
  flag_configFile fl' = flag_configFile fl →
  realMain Unmarshal fl fuel input = realMain Unmarshal fl' fuel input.
Proof.
  intros Hfile Hsame. unfold realMain, realMain_config. rewrite Hsame.
  destruct (decide (_ ∧ length (flag_args fl) < 2)) as [[? _]|_]; [done|].
  destruct (decide (_ ∧ length (flag_args fl') < 2)) as [[? _]|_]; [done|].
  by destruct (decide (flag_configFile fl ≠ "")).
Qed.

Lemma config_file_overrides_the_command_line_witness :
  @realMain SampleMain.host SampleMain.Unmarshal
    (SampleMain.flags false "fsconsul.json" []) 1 SampleMain.input
  = @realMain SampleMain.host SampleMain.Unmarshal
      (SampleMain.flags true "fsconsul.json" ["a"; "/out/"; "reload"]) 1 SampleMain.input.
Proof.
  apply (@config_file_overrides_the_command_line SampleMain.host SampleMain.Unmarshal
           (SampleMain.flags false "fsconsul.json" [])
           (SampleMain.flags true "fsconsul.json" ["a"; "/out/"; "reload"])
           1 SampleMain.input).
  - discriminate.
  - reflexivity.
Defined.

(** X19: an empty piece among the prefixes or the paths of the command
    line (an empty argument, a [|] at either end, two [|] in a row)
    crashes the process once the client is built: the unit of that mapping
    panics, whatever the other mappings do. *)
Theorem empty_piece_crashes_the_process `{Collaborators}
    (Unmarshal : string → result WatchConfig) (fl : Flags)
    (arg0 arg1 : string) (rest : list string)
    (fuel : nat) (input : nat → list ListResult * World) :
  flag_configFile fl = "" →
  flag_args fl = arg0 :: arg1 :: rest →
  length (strings.Split arg0 "|") = length (strings.Split arg1 "|") →
  "" ∈ strings.Split arg0 "|" ∨ "" ∈ strings.Split arg1 "|" →
  (∀ config, realMain_config Unmarshal fl = inr config →
             NewClient (Consul (applyDefaults config)) = None) →
  realMain Unmarshal fl fuel input = Crashed.
Proof.
  intros Hfile Hargs Hlen Hempty Hclient. unfold realMain.
  pose proof (realMain_config_command_line Unmarshal fl arg0 arg1 rest Hfile Hargs Hlen)
    as Hconfig.
  specialize (Hclient _ Hconfig). rewrite Hconfig.
  set (config := {| RunOnce := flag_once fl |}) in *.
  assert (buildConsulClient (Consul (applyDefaults config)) = None) as Hbuild.
  { unfold buildConsulClient, buildClient.
    assert (CAFile (Consul (applyDefaults config)) = ""
            ∧ CertFile (Consul (applyDefaults config)) = "") as [-> ->].
    { unfold applyDefaults. by destruct (decide _). }
    destruct (decide ("" ≠ "")) as [|_]; [done|].
    by destruct (decide ("" ≠ "" ∧ _)) as [[? _]|_]. }
  assert (∃ i m, Mappings config !! i = Some m ∧ OnChangeRaw m = ""
                 ∧ (Prefix m = "" ∨ Path m = "")) as (i & m & Hm & Hraw & Hbad).
  { destruct Hempty as [Hin|Hin]; apply list_elem_of_lookup in Hin as [i Hi].
    - destruct (lookup_lt_is_Some_2 (strings.Split arg1 "|") i) as [q Hq].
      { rewrite <- Hlen. by eapply lookup_lt_Some. }
      exists i. eexists. split.
      { cbn [Mappings config]. rewrite lookup_zip_with, Hi. cbn. rewrite Hq. reflexivity. }
      split; [done|by left].
    - destruct (lookup_lt_is_Some_2 (strings.Split arg0 "|") i) as [q Hq].
      { rewrite Hlen. by eapply lookup_lt_Some. }
      exists i. eexists. split.
      { cbn [Mappings config]. rewrite lookup_zip_with, Hq. cbn. rewrite Hi. reflexivity. }
      split; [done|by right]. }
  unfold watchAndExec.
  assert (existsb panicked (units (applyDefaults config) fuel input).*1 = true) as ->; [|done].
  apply existsb_exists. exists (Panicked "index out of range"). split; [|done].
  apply list_elem_of_In, list_elem_of_fmap.
  exists (unit_of (applyDefaults config) m fuel (input i).1 (input i).2). split.
  - symmetry. by apply unit_of_panics.
  - apply list_elem_of_lookup. exists i. unfold units.
    by rewrite list_lookup_imap, applyDefaults_Mappings, Hm.
Qed.

Lemma empty_piece_crashes_the_process_witness :
  @realMain SampleMain.host SampleMain.Unmarshal
    (SampleMain.flags true "" ["a|"; "/out/a|/out/b"]) 1 SampleMain.input = Crashed.
Proof.
  apply (@empty_piece_crashes_the_process SampleMain.host SampleMain.Unmarshal
           (SampleMain.flags true "" ["a|"; "/out/a|/out/b"])
           "a|" "/out/a|/out/b" [] 1 SampleMain.input).
  - reflexivity.
  - reflexivity.
  - reflexivity.
  - left. vm_compute. apply list_elem_of_further, list_elem_of_here.
  - intros config _. reflexivity.
Defined.

(** X20: a well-formed command line gives one mapping for each prefix, the
    [i]-th prefix with the [i]-th path; no prefix and no path holds a [|];
    the mappings share the keystore and the command, which is every
    argument after the second. Without such an argument the mappings have
    no command at all, so that no mapping of a command line has the empty
    command on which a cycle panics. *)
Theorem command_line_mappings `{Collaborators}
    (Unmarshal : string → result WatchConfig) (fl : Flags)
    (arg0 arg1 : string) (rest : list string) :
  flag_configFile fl = "" →
  flag_args fl = arg0 :: arg1 :: rest →
  length (strings.Split arg0 "|") = length (strings.Split arg1 "|") →
  ∃ config,
    realMain_config Unmarshal fl = inr config
    ∧ RunOnce config = flag_once fl
    ∧ length (Mappings config) = length (strings.Split arg0 "|")
    ∧ Prefix <$> Mappings config = strings.Split arg0 "|"
    ∧ Path <$> Mappings config = strings.Split arg1 "|"
    ∧ Forall (λ m, strings.contains (Prefix m) "|" = false
                   ∧ strings.contains (Path m) "|" = false
                   ∧ Keystore m = flag_keystore fl
                   ∧ OnChangeRaw m = ""
                   ∧ OnChange m = match rest with [] => None | _ => Some rest end
                   ∧ OnChange m ≠ Some [])
        (Mappings config).
Proof.
  intros Hfile Hargs Hlen. eexists. split.
  { by apply (realMain_config_command_line Unmarshal fl arg0 arg1 rest). }
  cbn [RunOnce Mappings]. split; [done|].
  pose proof (Split_free arg0 "|") as Hfree0. pose proof (Split_free arg1 "|") as Hfree1.
  revert Hlen Hfree0 Hfree1.
  generalize (strings.Split arg0 "|") (strings.Split arg1 "|").
  intros prefixes. induction prefixes as [|prefix prefixes IH];
    intros [|path paths] Hlen Hfree0 Hfree1; try done.
  inversion Hfree0 as [|? ? Hp0 Hrest0]; inversion Hfree1 as [|? ? Hp1 Hrest1]; subst.
  injection Hlen as Hlen.
  destruct (IH paths Hlen Hrest0 Hrest1) as (IHlen & IHpre & IHpath & IHall).
  cbn [zip_with length fmap list_fmap]. rewrite IHlen. split; [done|].
  split; [by f_equal|]. split; [by f_equal|].
  constructor; [|done]. cbn. repeat split; try done. by destruct rest.
Qed.

Lemma command_line_mappings_witness :
  ∃ config,
    @realMain_config SampleMain.host SampleMain.Unmarshal
      (SampleMain.flags true "" ["a|b"; "/out/a|/out/b"; "reload"; "now"]) = inr config
    ∧ RunOnce config = true
    ∧ length (Mappings config) = length (strings.Split "a|b" "|")
    ∧ Prefix <$> Mappings config = strings.Split "a|b" "|"
    ∧ Path <$> Mappings config = strings.Split "/out/a|/out/b" "|"
    ∧ Forall (λ m, strings.contains (Prefix m) "|" = false
                   ∧ strings.contains (Path m) "|" = false
                   ∧ Keystore m = ""
                   ∧ OnChangeRaw m = ""
                   ∧ OnChange m = Some ["reload"; "now"]
                   ∧ OnChange m ≠ Some [])
        (Mappings config).
Proof.
  apply (@command_line_mappings SampleMain.host SampleMain.Unmarshal
           (SampleMain.flags true "" ["a|b"; "/out/a|/out/b"; "reload"; "now"])
           "a|b" "/out/a|/out/b" ["reload"; "now"]).
  - reflexivity.
  - reflexivity.
  - reflexivity.
Defined.

(** ** Continuous mode *)

Lemma watchMappingAndExec_success `{Collaborators} (config : WatchConfig) (m : MappingConfig)
    (fuel : nat) (store : list ListResult) (w : World) (c : Z) :
  (watchMappingAndExec config m fuel store w).1 = Returned c None → RunOnce config = true.
Proof.
  unfold watchMappingAndExec.
  destruct (buildConsulClient (Consul config)) as [err|]; [done|].
  destruct (normalize m) as [m'|]; [|done]. apply reconcile_success.
Qed.

Lemma unit_of_success `{Collaborators} (config : WatchConfig) (m : MappingConfig)
    (fuel : nat) (store : list ListResult) (w : World) (c : Z) :
  (unit_of config m fuel store w).1 = Returned c None → RunOnce config = true.
Proof.
  unfold unit_of.
  match goal with |- context [watchMappingAndExec config ?m' fuel store ?w'] =>
    pose proof (watchMappingAndExec_success config m' fuel store w' c) as Hunit;
    destruct (watchMappingAndExec config m' fuel store w') as [o w1] end.
  cbn [fst] in Hunit. destruct o as [code [e|]| |]; cbn [fst]; try done.
Qed.

(** X21: without [-once] the program ends only by failure: when
    [watchAndExec] returns a code in continuous mode, every unit has
    returned an error (the first read of its prefix was refused, its client
    could not be built, or its command failed). *)
Theorem continuous_mode_ends_only_by_failure `{Collaborators}
    (config : WatchConfig) (fuel : nat) (input : nat → list ListResult * World) (c : Z) :
  schedule_fair →
  RunOnce config = false →
  watchAndExec config fuel input = ExitCode c →
  Forall (λ o, ∃ code e, o = Returned code (Some e))
    (units (applyDefaults config) fuel input).*1.
Proof.
  intros Hfair Hloop Hexit.
  assert (RunOnce (applyDefaults config) = false) as Hloop'.
  { unfold applyDefaults. by destruct (decide _). }
  unfold watchAndExec in Hexit.
  destruct (existsb panicked _) eqn:Hpanic; [done|].
  set (outs := (units (applyDefaults config) fuel input).*1) in *.
  assert (length outs = length (Mappings (applyDefaults config))) as Hlen.
  { unfold outs, units. by rewrite length_fmap, length_imap. }
  assert (Forall (λ o, is_Some (sent_code o)) outs) as Hall.
  { destruct (decide (Forall (λ o, is_Some (sent_code o)) outs)) as [|Hnot]; [done|].
    rewrite wait_all_short in Hexit; [done|].
    rewrite (Permutation_length (Hfair _)), <- Hlen. by apply sent_codes_missing. }
  apply Forall_forall. intros o Hin. rewrite Forall_forall in Hall.
  destruct (Hall o Hin) as [code Hcode].
  destruct o as [code' [e|]| |]; try done; [by eauto|].
  apply list_elem_of_fmap in Hin as ([o' w'] & Ho & Hin). cbn in Ho.
  apply list_elem_of_lookup in Hin as [i Hi]. unfold units in Hi.
  rewrite list_lookup_imap in Hi.
  destruct (Mappings (applyDefaults config) !! i) as [m|]; [|done].
  injection Hi as Hi.
  pose proof (unit_of_success (applyDefaults config) m fuel (input i).1 (input i).2 code') as Hs.
  rewrite Hi in Hs. cbn [fst] in Hs. rewrite <- Ho in Hs. specialize (Hs eq_refl). congruence.
Qed.

Lemma continuous_mode_ends_only_by_failure_witness :
  Forall (λ o, ∃ code e, o = Returned code (Some e))
    (@units Sample.failing_command (applyDefaults (Sample.config false)) 1
       (λ _, ([ListOk Sample.smaller {| LastIndex := 7 |}], Sample.world))).*1.
Proof.
  apply (@continuous_mode_ends_only_by_failure Sample.failing_command (Sample.config false) 1
           (λ _, ([ListOk Sample.smaller {| LastIndex := 7 |}], Sample.world)) (-1)%Z).
  - intros codes. reflexivity.
  - reflexivity.
  - vm_compute. reflexivity.
Defined.
